(** * buu-assets: asset resolution and polling engine

    A shallow embedding of [dist/buu-assets.js]: the URL resolvers over
    loosely structured JSON descriptors, and the event-loop state machine
    behind [loadModel], [loadWorld], [cancelPoll] and the cache. *)

From Stdlib Require Import ZArith Lia.
From stdpp Require Import gmap strings list fin_maps.

Open Scope string_scope.
Open Scope list_scope.
Open Scope nat_scope.
Set Warnings "-register-all,-clear-no-such-hyp".

(** ** JavaScript values

    A descriptor is whatever [response.json()] produced.  Numbers are kept as
    integers: the code only ever tests them for truthiness, and a number is
    falsy exactly when it is zero.  Objects are finite maps from property
    names to values; the property names read by the library never collide
    with members of [Object.prototype]. *)

Inductive jsval : Type :=
  | JUndefined
  | JNull
  | JBool (b : bool)
  | JNum (n : Z)
  | JStr (s : string)
  | JArr (items : list jsval)
  | JObj (fields : gmap string jsval).

(** Errors a computation can throw or a promise can be rejected with. *)
Inductive jserror : Type :=
  | TypeError                       (* property read or write on undefined/null *)
  | HostError (code : nat)          (* network, HTTP or decoder failure: opaque *)
  | GLTFLoaderUnavailable           (* new Error('GLTFLoader not available') *)
  | MaxPollTimeReached (id : string).

Inductive result (A : Type) : Type :=
  | Ok (a : A)
  | Throw (e : jserror).
Arguments Ok {A} a.
Arguments Throw {A} e.

Definition bind {A B} (r : result A) (k : A → result B) : result B :=
  match r with
  | Ok a => k a
  | Throw e => Throw e
  end.

Notation "'let*' x ':=' r 'in' k" := (bind r (fun x => k))
  (at level 10, x name, r at level 100, k at level 200).

(** ToBoolean. *)
Definition truthy (v : jsval) : bool :=
  match v with
  | JUndefined | JNull => false
  | JBool b => b
  | JNum n => negb (n =? 0)%Z
  | JStr s => negb (String.eqb s EmptyString)
  | JArr _ | JObj _ => true
  end.

(** [v.k]: reading a property of undefined or null throws; a primitive or an
    array has none of the properties the library asks for. *)
Definition get (v : jsval) (k : string) : result jsval :=
  match v with
  | JUndefined | JNull => Throw TypeError
  | JObj fields => Ok (default JUndefined (fields !! k))
  | _ => Ok JUndefined
  end.

(** [a && b] and [a || b], with the right operand evaluated only on demand. *)
Definition js_and (a : jsval) (b : result jsval) : result jsval :=
  if truthy a then b else Ok a.

Definition js_or (a : jsval) (b : result jsval) : result jsval :=
  if truthy a then Ok a else b.

(** ** Mesh URL resolution *)

(** [o.k && o.k.url] *)
Definition has_url (o : jsval) (k : string) : result jsval :=
  let* sub := get o k in
  js_and sub (let* sub' := get o k in get sub' "url").

(** [o.k.url] *)
Definition url_at (o : jsval) (k : string) : result jsval :=
  let* sub := get o k in get sub "url".

Definition resolveMeshUrl (modelData : jsval) : result jsval :=
  let* c1 := has_url modelData "texturedMesh" in
  if truthy c1 then url_at modelData "texturedMesh" else
  let* c2 := has_url modelData "optimizedMesh" in
  if truthy c2 then url_at modelData "optimizedMesh" else
  let* c3 := has_url modelData "mesh" in
  if truthy c3 then url_at modelData "mesh" else
  Ok JNull.

Record formatUrls : Type := { glb : jsval; obj : jsval; fbx : jsval }.

Definition resolveAllFormats (modelData : jsval) : result formatUrls :=
  let* g := resolveMeshUrl modelData in
  let* o0 := get modelData "obj" in
  let* o := (if truthy o0
             then let* o1 := get modelData "obj" in resolveMeshUrl o1
             else Ok JNull) in
  let* f0 := get modelData "fbx" in
  let* f := (if truthy f0
             then let* f1 := get modelData "fbx" in resolveMeshUrl f1
             else Ok JNull) in
  Ok {| glb := g; obj := o; fbx := f |}.

(** ** Splat URL resolution *)

Definition resolveSplatUrl (worldData : jsval) : result jsval :=
  let* sf := get worldData "splatFiles" in
  if truthy sf then
    let* files := get worldData "splatFiles" in
    let* c1 := has_url files "highRes" in
    if truthy c1 then (let* files' := get worldData "splatFiles" in url_at files' "highRes") else
    let* c2 := has_url files "mediumRes" in
    if truthy c2 then (let* files' := get worldData "splatFiles" in url_at files' "mediumRes") else
    let* c3 := has_url files "lowRes" in
    if truthy c3 then (let* files' := get worldData "splatFiles" in url_at files' "lowRes") else
    Ok JNull
  else Ok JNull.

Record splatUrls : Type := { lowRes : jsval; mediumRes : jsval; highRes : jsval }.

(** [(o.k && o.k.url) || null] *)
Definition url_or_null (o : jsval) (k : string) : result jsval :=
  let* c := has_url o k in js_or c (Ok JNull).

Definition resolveAllSplatUrls (worldData : jsval) : result splatUrls :=
  let* sf := get worldData "splatFiles" in
  let* files := js_or sf (Ok (JObj ∅)) in
  let* lo := url_or_null files "lowRes" in
  let* me := url_or_null files "mediumRes" in
  let* hi := url_or_null files "highRes" in
  Ok {| lowRes := lo; mediumRes := me; highRes := hi |}.

(** ** The resolvers, as the documentation words them

    A sub-record contributes a URL when it is present and carries a usable
    [url]; a missing sub-record and a missing (or unusable) [url] both
    contribute nothing. *)

Definition present_url (o : gmap string jsval) (k : string) : option jsval :=
  match o !! k with
  | Some sub =>
      if truthy sub then
        match get sub "url" with
        | Ok u => if truthy u then Some u else None
        | Throw _ => None
        end
      else None
  | None => None
  end.

(** The first present URL in the given ranking, [null] when there is none. *)
Fixpoint first_present (o : gmap string jsval) (ranks : list string) : jsval :=
  match ranks with
  | [] => JNull
  | k :: ks =>
      match present_url o k with
      | Some u => u
      | None => first_present o ks
      end
  end.

Definition mesh_ranks : list string := ["texturedMesh"; "optimizedMesh"; "mesh"].
Definition splat_ranks : list string := ["highRes"; "mediumRes"; "lowRes"].

(** The fields of a value read as an object: everything but an object has
    none of the requested ones. *)
Definition fields_of (v : jsval) : gmap string jsval :=
  match v with
  | JObj fields => fields
  | _ => ∅
  end.

Definition prop (o : gmap string jsval) (k : string) : jsval :=
  default JUndefined (o !! k).

Definition tier (o : gmap string jsval) (k : string) : jsval :=
  default JNull (present_url o k).

Definition nullish (v : jsval) : bool :=
  match v with
  | JUndefined | JNull => true
  | _ => false
  end.

(** What a resolver hands back: [null], or a usable (truthy) URL value. *)
Definition url_or_null_shaped (v : jsval) : bool :=
  match v with
  | JNull => true
  | _ => truthy v
  end.


(** ** The engine

    All work runs on the host's event loop.  The state below holds the
    module's variables ([_cache], [_activePolls], [_GLTFLoader]), the closures
    that [loadModel] and [loadWorld] created, the timers and promises that are
    still outstanding, the part of the scene graph the library touches, and a
    log of every call made to a collaborator or a caller-supplied callback.
    Callbacks are observers: they are recorded, and they neither throw nor call
    back into the library.  [console.warn] is not recorded. *)

(** Options of [loadModel] and [loadWorld] that steer polling.  The
    placeholder's size and colour play no part in what follows. *)
Record options : Type := {
  opt_poll : option bool;
  opt_pollInterval : option Z;
  opt_maxPollTime : option Z
}.

(** [x || d] on an optional number. *)
Definition or_default (x : option Z) (d : Z) : Z :=
  match x with
  | Some n => if (n =? 0)%Z then d else n
  | None => d
  end.

(** The host page: is [window.THREE] there, and does it carry a GLTFLoader.
    A standing condition of the environment. *)
Record hostenv : Type := { three : bool; threeGLTFLoader : bool }.

(** Which [attempt] closure a timer or a promise reaction belongs to. *)
Inductive job : Type :=
  | ModelJob (tid : nat)
  | WorldJob (wid : nat).

Global Instance job_eq_dec : EqDecision job.
Proof. solve_decision. Defined.

Record worldResult : Type := {
  worldId : string;
  splatUrl : jsval;
  splats : splatUrls;
  panoramaUrl : jsval;
  thumbnailUrl : jsval;
  colliderMeshUrl : jsval;
  inputImages : jsval;
  caption : jsval;
  displayName : jsval;
  status : jsval;
  raw : jsval
}.

(** A cache record: [{ group, loaded }] for a model, [{ data, ready }] for a
    world; a field the record does not have reads as undefined. *)
Record entry : Type := {
  ce_group : option nat;
  ce_loaded : bool;
  ce_data : option worldResult;
  ce_ready : bool
}.

Definition model_entry (g : nat) (loaded : bool) : entry :=
  {| ce_group := Some g; ce_loaded := loaded; ce_data := None; ce_ready := false |}.

Definition world_entry (r : worldResult) : entry :=
  {| ce_group := None; ce_loaded := false; ce_data := Some r; ce_ready := true |}.

Definition set_loaded (e : entry) : entry :=
  {| ce_group := ce_group e; ce_loaded := true; ce_data := ce_data e;
     ce_ready := ce_ready e |}.

(** The variables [_startModelLoad] closes over. *)
Record mtask : Type := {
  m_id : string;
  m_group : nat;
  m_placeholder : option nat;
  m_poll : bool;
  m_pollInterval : Z;
  m_maxPollTime : Z;
  m_startTime : Z
}.

Inductive pstate : Type :=
  | Pending
  | Fulfilled (r : worldResult)
  | Rejected (e : jserror).

(** The variables the executor of [loadWorld]'s promise closes over, with the
    [resolved] flag and the state of the promise itself. *)
Record wtask : Type := {
  w_id : string;
  w_poll : bool;
  w_pollInterval : Z;
  w_maxPollTime : Z;
  w_startTime : Z;
  w_resolved : bool;
  w_promise : pstate
}.

Definition settle_wtask (p : pstate) (w : wtask) : wtask :=
  {| w_id := w_id w; w_poll := w_poll w; w_pollInterval := w_pollInterval w;
     w_maxPollTime := w_maxPollTime w; w_startTime := w_startTime w;
     w_resolved := true;
     w_promise := match w_promise w with Pending => p | q => q end |}.

(** The reaction waiting on a promise. *)
Inductive cont : Type :=
  | AwaitModel (tid : nat)                          (* fetchModel(id).then().catch() *)
  | AwaitGLB (tid : nat) (modelData url : jsval)    (* loadGLB(url).then().catch() *)
  | AwaitWorld (wid : nat).                         (* fetchWorld(id).then().catch() *)

Definition job_of (k : cont) : job :=
  match k with
  | AwaitModel tid | AwaitGLB tid _ _ => ModelJob tid
  | AwaitWorld wid => WorldJob wid
  end.

Inductive obs : Type :=
  | FetchModel (time : Z) (tid : nat) (id : string)
  | FetchWorld (time : Z) (wid : nat) (id : string)
  | LoadGLB (tid : nat) (url : jsval)
  | Progress (j : job) (data : jsval)               (* onProgress *)
  | Error (j : job) (e : jserror)                   (* onError *)
  | Swap (tid : nat) (scene : nat) (data : jsval)   (* onSwap *)
  | Ready (wid : nat) (r : worldResult).            (* onReady *)

Record state : Type := {
  now : Z;  (* Date.now() *)
  host : hostenv;  (* window.THREE and its GLTFLoader *)
  userGLTFLoader : bool;  (* a loader class was registered in _GLTFLoader *)
  cache : gmap string entry;  (* _cache *)
  activePolls : gmap string positive;  (* _activePolls *)
  timers : list (positive * (Z * job));  (* pending setTimeout calls: handle, due time, closure *)
  nextTimer : positive;
  inflight : list (nat * cont);  (* promises not settled yet, with their reaction *)
  nextPromise : nat;
  mtasks : list mtask;  (* closures created by _startModelLoad *)
  wtasks : list wtask;  (* closures created by the executor in loadWorld *)
  parent : gmap nat nat;  (* scene graph: child to parent *)
  disposed : gset nat;  (* objects whose geometry and material were disposed *)
  buuModelData : gmap nat jsval;  (* group._buuLoaded and group._buuModelData *)
  nextObject : nat;
  log : list obs  (* what the collaborators and the callbacks saw, oldest first *)
}.

Definition upd_now (f : Z → Z) (s : state) : state :=
  {| now := f (now s); host := host s; userGLTFLoader := userGLTFLoader s;
     cache := cache s; activePolls := activePolls s; timers := timers s;
     nextTimer := nextTimer s; inflight := inflight s;
     nextPromise := nextPromise s; mtasks := mtasks s; wtasks := wtasks s;
     parent := parent s; disposed := disposed s;
     buuModelData := buuModelData s; nextObject := nextObject s;
     log := log s |}.

Definition upd_userGLTFLoader (f : bool → bool) (s : state) : state :=
  {| now := now s; host := host s; userGLTFLoader := f (userGLTFLoader s);
     cache := cache s; activePolls := activePolls s; timers := timers s;
     nextTimer := nextTimer s; inflight := inflight s;
     nextPromise := nextPromise s; mtasks := mtasks s; wtasks := wtasks s;
     parent := parent s; disposed := disposed s;
     buuModelData := buuModelData s; nextObject := nextObject s;
     log := log s |}.

Definition upd_cache (f : (gmap string entry) → (gmap string entry)) (s : state) : state :=
  {| now := now s; host := host s; userGLTFLoader := userGLTFLoader s;
     cache := f (cache s); activePolls := activePolls s; timers := timers s;
     nextTimer := nextTimer s; inflight := inflight s;
     nextPromise := nextPromise s; mtasks := mtasks s; wtasks := wtasks s;
     parent := parent s; disposed := disposed s;
     buuModelData := buuModelData s; nextObject := nextObject s;
     log := log s |}.

Definition upd_activePolls (f : (gmap string positive) → (gmap string positive)) (s : state) : state :=
  {| now := now s; host := host s; userGLTFLoader := userGLTFLoader s;
     cache := cache s; activePolls := f (activePolls s); timers := timers s;
     nextTimer := nextTimer s; inflight := inflight s;
     nextPromise := nextPromise s; mtasks := mtasks s; wtasks := wtasks s;
     parent := parent s; disposed := disposed s;
     buuModelData := buuModelData s; nextObject := nextObject s;
     log := log s |}.

Definition upd_timers (f : (list (positive * (Z * job))) → (list (positive * (Z * job)))) (s : state) : state :=
  {| now := now s; host := host s; userGLTFLoader := userGLTFLoader s;
     cache := cache s; activePolls := activePolls s; timers := f (timers s);
     nextTimer := nextTimer s; inflight := inflight s;
     nextPromise := nextPromise s; mtasks := mtasks s; wtasks := wtasks s;
     parent := parent s; disposed := disposed s;
     buuModelData := buuModelData s; nextObject := nextObject s;
     log := log s |}.

Definition upd_nextTimer (f : positive → positive) (s : state) : state :=
  {| now := now s; host := host s; userGLTFLoader := userGLTFLoader s;
     cache := cache s; activePolls := activePolls s; timers := timers s;
     nextTimer := f (nextTimer s); inflight := inflight s;
     nextPromise := nextPromise s; mtasks := mtasks s; wtasks := wtasks s;
     parent := parent s; disposed := disposed s;
     buuModelData := buuModelData s; nextObject := nextObject s;
     log := log s |}.

Definition upd_inflight (f : (list (nat * cont)) → (list (nat * cont))) (s : state) : state :=
  {| now := now s; host := host s; userGLTFLoader := userGLTFLoader s;
     cache := cache s; activePolls := activePolls s; timers := timers s;
     nextTimer := nextTimer s; inflight := f (inflight s);
     nextPromise := nextPromise s; mtasks := mtasks s; wtasks := wtasks s;
     parent := parent s; disposed := disposed s;
     buuModelData := buuModelData s; nextObject := nextObject s;
     log := log s |}.

Definition upd_nextPromise (f : nat → nat) (s : state) : state :=
  {| now := now s; host := host s; userGLTFLoader := userGLTFLoader s;
     cache := cache s; activePolls := activePolls s; timers := timers s;
     nextTimer := nextTimer s; inflight := inflight s;
     nextPromise := f (nextPromise s); mtasks := mtasks s;
     wtasks := wtasks s; parent := parent s; disposed := disposed s;
     buuModelData := buuModelData s; nextObject := nextObject s;
     log := log s |}.

Definition upd_mtasks (f : (list mtask) → (list mtask)) (s : state) : state :=
  {| now := now s; host := host s; userGLTFLoader := userGLTFLoader s;
     cache := cache s; activePolls := activePolls s; timers := timers s;
     nextTimer := nextTimer s; inflight := inflight s;
     nextPromise := nextPromise s; mtasks := f (mtasks s);
     wtasks := wtasks s; parent := parent s; disposed := disposed s;
     buuModelData := buuModelData s; nextObject := nextObject s;
     log := log s |}.

Definition upd_wtasks (f : (list wtask) → (list wtask)) (s : state) : state :=
  {| now := now s; host := host s; userGLTFLoader := userGLTFLoader s;
     cache := cache s; activePolls := activePolls s; timers := timers s;
     nextTimer := nextTimer s; inflight := inflight s;
     nextPromise := nextPromise s; mtasks := mtasks s;
     wtasks := f (wtasks s); parent := parent s; disposed := disposed s;
     buuModelData := buuModelData s; nextObject := nextObject s;
     log := log s |}.

Definition upd_parent (f : (gmap nat nat) → (gmap nat nat)) (s : state) : state :=
  {| now := now s; host := host s; userGLTFLoader := userGLTFLoader s;
     cache := cache s; activePolls := activePolls s; timers := timers s;
     nextTimer := nextTimer s; inflight := inflight s;
     nextPromise := nextPromise s; mtasks := mtasks s; wtasks := wtasks s;
     parent := f (parent s); disposed := disposed s;
     buuModelData := buuModelData s; nextObject := nextObject s;
     log := log s |}.

Definition upd_disposed (f : (gset nat) → (gset nat)) (s : state) : state :=
  {| now := now s; host := host s; userGLTFLoader := userGLTFLoader s;
     cache := cache s; activePolls := activePolls s; timers := timers s;
     nextTimer := nextTimer s; inflight := inflight s;
     nextPromise := nextPromise s; mtasks := mtasks s; wtasks := wtasks s;
     parent := parent s; disposed := f (disposed s);
     buuModelData := buuModelData s; nextObject := nextObject s;
     log := log s |}.

Definition upd_buuModelData (f : (gmap nat jsval) → (gmap nat jsval)) (s : state) : state :=
  {| now := now s; host := host s; userGLTFLoader := userGLTFLoader s;
     cache := cache s; activePolls := activePolls s; timers := timers s;
     nextTimer := nextTimer s; inflight := inflight s;
     nextPromise := nextPromise s; mtasks := mtasks s; wtasks := wtasks s;
     parent := parent s; disposed := disposed s;
     buuModelData := f (buuModelData s); nextObject := nextObject s;
     log := log s |}.

Definition upd_nextObject (f : nat → nat) (s : state) : state :=
  {| now := now s; host := host s; userGLTFLoader := userGLTFLoader s;
     cache := cache s; activePolls := activePolls s; timers := timers s;
     nextTimer := nextTimer s; inflight := inflight s;
     nextPromise := nextPromise s; mtasks := mtasks s; wtasks := wtasks s;
     parent := parent s; disposed := disposed s;
     buuModelData := buuModelData s; nextObject := f (nextObject s);
     log := log s |}.

Definition upd_log (f : (list obs) → (list obs)) (s : state) : state :=
  {| now := now s; host := host s; userGLTFLoader := userGLTFLoader s;
     cache := cache s; activePolls := activePolls s; timers := timers s;
     nextTimer := nextTimer s; inflight := inflight s;
     nextPromise := nextPromise s; mtasks := mtasks s; wtasks := wtasks s;
     parent := parent s; disposed := disposed s;
     buuModelData := buuModelData s; nextObject := nextObject s;
     log := f (log s) |}.

Definition init (h : hostenv) (t0 : Z) : state :=
  {| now := t0; host := h; userGLTFLoader := false; cache := ∅;
     activePolls := ∅; timers := []; nextTimer := 1%positive; inflight := [];
     nextPromise := 0; mtasks := []; wtasks := []; parent := ∅; disposed := ∅;
     buuModelData := ∅; nextObject := 0; log := [] |}.

(** *** Lookup and removal in the timer and promise tables *)

Fixpoint assoc {K V} `{EqDecision K} (k : K) (l : list (K * V)) : option V :=
  match l with
  | [] => None
  | (k', v) :: l' => if decide (k' = k) then Some v else assoc k l'
  end.

Definition remove_key {K V} `{EqDecision K} (k : K) (l : list (K * V)) : list (K * V) :=
  filter (λ kv, kv.1 ≠ k) l.

(** *** Primitives *)

Definition emit (o : obs) : state → state := upd_log (λ l, l ++ [o]).

(** Hand a reaction to a promise that has just been created. *)
Definition await (k : cont) (s : state) : state :=
  upd_nextPromise S (upd_inflight (λ l, l ++ [(nextPromise s, k)]) s).

(** [setTimeout(attempt, delay)]: handles are positive integers, and a
    negative delay counts as zero. *)
Definition setTimeout (j : job) (delay : Z) (s : state) : positive * state :=
  (nextTimer s,
   upd_nextTimer Pos.succ
     (upd_timers (λ l, l ++ [(nextTimer s, ((now s + Z.max 0 delay)%Z, j))]) s)).

Definition clearTimeout (h : positive) : state → state :=
  upd_timers (remove_key h).

(** The Poll Registry is a plain object used as a map, so its keys live
    next to the members of Object.prototype.  [_activePolls[key] = h] stores
    an own entry under every key but one: the name __proto__ is the accessor
    of Object.prototype, whose setter ignores a number. *)
Definition registry_set (key : string) (h : positive)
    (registry : gmap string positive) : gmap string positive :=
  if decide (key = "__proto__") then registry else <[key := h]> registry.

(** [_activePolls[key] = setTimeout(attempt, pollInterval)] *)
Definition schedule (key : string) (j : job) (delay : Z) (s : state) : state :=
  let '(h, s') := setTimeout j delay s in
  upd_activePolls (registry_set key h) s'.

(** [if (_activePolls[key]) { clearTimeout(_activePolls[key]); delete _activePolls[key]; }]
    Under a key without own entry the read finds nothing, or a member of
    Object.prototype: clearing what is not a handle and deleting what is not
    there do nothing. *)
Definition cancelPoll (key : string) (s : state) : state :=
  match activePolls s !! key with
  | Some h => upd_activePolls (delete key) (clearTimeout h s)
  | None => s
  end.

(** [registry.hasOwnProperty(key)]: an own entry named hasOwnProperty hides
    the method of Object.prototype, and what is stored there (a handle, or a
    value of the caller's) cannot be called. *)
Definition hasOwnProperty {V} (o : gmap string V) (key : string) : result bool :=
  match o !! "hasOwnProperty" with
  | Some _ => Throw TypeError
  | None => Ok (bool_decide (is_Some (o !! key)))
  end.

(** [for (var id in _activePolls) if (_activePolls.hasOwnProperty(id))
    clearTimeout(_activePolls[id]);] and then [_activePolls = {}].  The call
    of hasOwnProperty throws in the first round or in none, so that a call
    that throws has cleared nothing. *)
Definition cancelAllPolls (s : state) : result state :=
  let* s' :=
    foldr (λ entry acc,
             let* s0 := acc in
             let* own := hasOwnProperty (activePolls s) entry.1 in
             Ok (if own : bool then clearTimeout entry.2 s0 else s0))
          (Ok s) (map_to_list (activePolls s)) in
  Ok (upd_activePolls (λ _, ∅) s').

(** [cancelAllPolls(); _cache = {};] *)
Definition clearCache (s : state) : result state :=
  let* s' := cancelAllPolls s in
  Ok (upd_cache (λ _, ∅) s').

(** A call made by the page: what it throws goes to the page, and the state
    is as the call found it (the calls that can throw do so before their
    first write). *)
Definition call (r : result state) (s : state) : state :=
  match r with
  | Ok s' => s'
  | Throw _ => s
  end.

Definition threeAvailable (s : state) : bool := three (host s).

Definition gltfLoaderAvailable (s : state) : bool :=
  userGLTFLoader s || (threeAvailable s && threeGLTFLoader (host s)).

Definition newObject (s : state) : nat * state :=
  (nextObject s, upd_nextObject S s).

(** [group.add(child)] and [group.remove(child)] *)
Definition attach (child g : nat) : state → state := upd_parent <[child := g]>.
Definition detach (child : nat) : state → state := upd_parent (delete child).

Definition dispose (o : nat) : state → state := upd_disposed (λ d, {[o]} ∪ d).

(** [poll && (Date.now() - startTime) < maxPollTime] *)
Definition may_poll (poll : bool) (startTime maxPollTime : Z) (s : state) : bool :=
  poll && (now s - startTime <? maxPollTime)%Z.

(** *** The model task *)

Definition cacheKey (modelId : string) : string := "model:" +:+ modelId.

(** [attempt()] of a model task: the descriptor fetch is dispatched. *)
Definition attemptModel (tid : nat) (s : state) : state :=
  match mtasks s !! tid with
  | Some t => await (AwaitModel tid) (emit (FetchModel (now s) tid (m_id t)) s)
  | None => s
  end.

(** Both [.catch] handlers of a model task: report, then poll again if the
    budget allows. *)
Definition onModelError (tid : nat) (t : mtask) (err : jserror) (s : state) : state :=
  let s := emit (Error (ModelJob tid) err) s in
  if may_poll (m_poll t) (m_startTime t) (m_maxPollTime t) s
  then schedule (m_id t) (ModelJob tid) (m_pollInterval t) s
  else s.

(** [loadGLB(url)] with the reactions of the model task attached. *)
Definition loadGLB (tid : nat) (t : mtask) (modelData url : jsval) (s : state) : state :=
  if userGLTFLoader s || (threeAvailable s && threeGLTFLoader (host s))
  then await (AwaitGLB tid modelData url) (emit (LoadGLB tid url) s)
  else onModelError tid t GLTFLoaderUnavailable s.

(** The [.then] handler of [fetchModel]; what it throws goes to [.catch]. *)
Definition onModelData (tid : nat) (t : mtask) (modelData : jsval) (s : state) : state :=
  let s := emit (Progress (ModelJob tid) modelData) s in
  match resolveMeshUrl modelData with
  | Throw err => onModelError tid t err s
  | Ok meshUrl =>
      if truthy meshUrl then
        if negb (gltfLoaderAvailable s)
        then emit (Error (ModelJob tid) GLTFLoaderUnavailable) s
        else loadGLB tid t modelData meshUrl s
      else if may_poll (m_poll t) (m_startTime t) (m_maxPollTime t) s then
        schedule (m_id t) (ModelJob tid) (m_pollInterval t) s
      else if negb (m_poll t) then s
      else emit (Error (ModelJob tid) (MaxPollTimeReached (m_id t))) s
  end.

(** The [.then] handler of [loadGLB]: the swap. *)
Definition onSceneLoaded (tid : nat) (t : mtask) (modelData : jsval) (s : state) : state :=
  let '(scene, s) := newObject s in
  let s :=
    match m_placeholder t with
    | Some p =>
        if decide (parent s !! p = Some (m_group t))
        then dispose p (detach p s)
        else s
    | None => s
    end in
  let s := attach scene (m_group t) s in
  let s := upd_buuModelData <[m_group t := modelData]> s in
  match cache s !! cacheKey (m_id t) with
  | None => onModelError tid t TypeError s
  | Some e =>
      let s := upd_cache <[cacheKey (m_id t) := set_loaded e]> s in
      let s := cancelPoll (m_id t) s in
      emit (Swap tid scene modelData) s
  end.

Definition createPlaceholderBox (s : state) : option nat * state :=
  if threeAvailable s
  then let '(p, s) := newObject s in (Some p, s)
  else (None, s).

Definition _startModelLoad (modelId : string) (g : nat) (placeholder : option nat)
    (poll : bool) (pollInterval maxPollTime : Z) (s : state) : state :=
  let tid := length (mtasks s) in
  let t := {| m_id := modelId; m_group := g; m_placeholder := placeholder;
              m_poll := poll; m_pollInterval := pollInterval;
              m_maxPollTime := maxPollTime; m_startTime := now s |} in
  attemptModel tid (upd_mtasks (λ l, l ++ [t]) s).

(** [loadModel] returns a promise that is already resolved, with the group or
    with null. *)
Definition loadModel (modelId : string) (opts : options) (s : state) : option nat * state :=
  if negb (threeAvailable s) then (None, s) else
  let poll := default true (opt_poll opts) in
  let pollInterval := or_default (opt_pollInterval opts) 5000 in
  let maxPollTime := or_default (opt_maxPollTime opts) 300000 in
  match cache s !! cacheKey modelId with
  | Some {| ce_group := g; ce_loaded := true |} => (g, s)
  | _ =>
      let '(g, s) := newObject s in
      let '(placeholder, s) := createPlaceholderBox s in
      let s := match placeholder with Some p => attach p g s | None => s end in
      let s := upd_cache <[cacheKey modelId := model_entry g false]> s in
      (Some g, _startModelLoad modelId g placeholder poll pollInterval maxPollTime s)
  end.

(** *** The world task *)

Definition worldKey (worldId : string) : string := "world:" +:+ worldId.

(** [o.k || d] *)
Definition get_or (o : jsval) (k : string) (d : jsval) : result jsval :=
  let* v := get o k in js_or v (Ok d).

Definition worldResultOf (id : string) (worldData : jsval) : result worldResult :=
  let* splatUrl := resolveSplatUrl worldData in
  let* allSplats := resolveAllSplatUrls worldData in
  let* pano := url_or_null worldData "panoMedia" in
  let* thumb := url_or_null worldData "thumbnailMedia" in
  let* collider := url_or_null worldData "colliderMesh" in
  let* images := get_or worldData "inputImages" (JArr []) in
  let* cap := get_or worldData "caption" JNull in
  let* name := get_or worldData "displayName" JNull in
  let* st := get_or worldData "status" JNull in
  Ok {| worldId := id; splatUrl := splatUrl; splats := allSplats;
        panoramaUrl := pano; thumbnailUrl := thumb; colliderMeshUrl := collider;
        inputImages := images; caption := cap; displayName := name;
        status := st; raw := worldData |}.

Definition attemptWorld (wid : nat) (s : state) : state :=
  match wtasks s !! wid with
  | Some w => await (AwaitWorld wid) (emit (FetchWorld (now s) wid (w_id w)) s)
  | None => s
  end.

(** [if (!resolved) { resolved = true; resolve(result) }], and the same with
    [reject(err)]. *)
Definition settle (wid : nat) (p : pstate) (s : state) : state :=
  match wtasks s !! wid with
  | Some w =>
      if w_resolved w then s
      else upd_wtasks <[wid := settle_wtask p w]> s
  | None => s
  end.

Definition onWorldError (wid : nat) (w : wtask) (err : jserror) (s : state) : state :=
  let s := emit (Error (WorldJob wid) err) s in
  if may_poll (w_poll w) (w_startTime w) (w_maxPollTime w) s
  then schedule (worldKey (w_id w)) (WorldJob wid) (w_pollInterval w) s
  else settle wid (Rejected err) s.

Definition onWorldData (wid : nat) (w : wtask) (worldData : jsval) (s : state) : state :=
  let s := emit (Progress (WorldJob wid) worldData) s in
  match worldResultOf (w_id w) worldData with
  | Throw err => onWorldError wid w err s
  | Ok r =>
      if truthy (splatUrl r) || truthy (panoramaUrl r) then
        let s := upd_cache <[worldKey (w_id w) := world_entry r]> s in
        let s := cancelPoll (worldKey (w_id w)) s in
        let s := settle wid (Fulfilled r) s in
        emit (Ready wid r) s
      else if may_poll (w_poll w) (w_startTime w) (w_maxPollTime w) s then
        let s := settle wid (Fulfilled r) s in
        schedule (worldKey (w_id w)) (WorldJob wid) (w_pollInterval w) s
      else
        let s := settle wid (Fulfilled r) s in
        if negb (w_poll w) then s
        else emit (Error (WorldJob wid) (MaxPollTimeReached (w_id w))) s
  end.

(** What [loadWorld] returns: a promise already resolved with the cached
    data, or the promise of a new task. *)
Inductive worldPromise : Type :=
  | Cached (data : option worldResult)
  | OfTask (wid : nat).

Definition loadWorld (id : string) (opts : options) (s : state) : worldPromise * state :=
  let poll := default true (opt_poll opts) in
  let pollInterval := or_default (opt_pollInterval opts) 5000 in
  let maxPollTime := or_default (opt_maxPollTime opts) 300000 in
  match cache s !! worldKey id with
  | Some {| ce_data := d; ce_ready := true |} => (Cached d, s)
  | _ =>
      let wid := length (wtasks s) in
      let w := {| w_id := id; w_poll := poll; w_pollInterval := pollInterval;
                  w_maxPollTime := maxPollTime; w_startTime := now s;
                  w_resolved := false; w_promise := Pending |} in
      (OfTask wid, attemptWorld wid (upd_wtasks (λ l, l ++ [w]) s))
  end.

(** *** The event loop *)

Inductive event : Type :=
  | CallLoadModel (id : string) (opts : options)
  | CallLoadWorld (id : string) (opts : options)
  | CallCancelPoll (id : string)
  | CallCancelAllPolls
  | CallClearCache
  | CallSetGLTFLoader (given : bool)
  | SceneRemove (child : nat)             (* the caller detaches an object *)
  | Tick (d : Z)                          (* time passes *)
  | TimerFires (h : positive)
  | Settles (p : nat) (r : result jsval). (* a fetch or a load completes *)

(** Run the reaction of a settled promise.  A load that succeeds delivers a
    new scene object, whatever the value. *)
Definition resume (k : cont) (r : result jsval) (s : state) : state :=
  match k with
  | AwaitModel tid =>
      match mtasks s !! tid, r with
      | Some t, Ok modelData => onModelData tid t modelData s
      | Some t, Throw err => onModelError tid t err s
      | None, _ => s
      end
  | AwaitGLB tid modelData _ =>
      match mtasks s !! tid, r with
      | Some t, Ok _ => onSceneLoaded tid t modelData s
      | Some t, Throw err => onModelError tid t err s
      | None, _ => s
      end
  | AwaitWorld wid =>
      match wtasks s !! wid, r with
      | Some w, Ok worldData => onWorldData wid w worldData s
      | Some w, Throw err => onWorldError wid w err s
      | None, _ => s
      end
  end.

Definition attempt (j : job) : state → state :=
  match j with
  | ModelJob tid => attemptModel tid
  | WorldJob wid => attemptWorld wid
  end.

(** One turn of the event loop; [None] when the event cannot happen in this
    state (time going backwards, a timer that is not due, a promise that is
    not outstanding). *)
Definition step (e : event) (s : state) : option state :=
  match e with
  | CallLoadModel id opts => Some (loadModel id opts s).2
  | CallLoadWorld id opts => Some (loadWorld id opts s).2
  | CallCancelPoll id => Some (cancelPoll id s)
  | CallCancelAllPolls => Some (call (cancelAllPolls s) s)
  | CallClearCache => Some (call (clearCache s) s)
  | CallSetGLTFLoader given => Some (upd_userGLTFLoader (λ _, given) s)
  | SceneRemove child => Some (detach child s)
  | Tick d => if (0 <=? d)%Z then Some (upd_now (λ t, t + d)%Z s) else None
  | TimerFires h =>
      match assoc h (timers s) with
      | Some (due, j) =>
          if (due <=? now s)%Z then Some (attempt j (clearTimeout h s)) else None
      | None => None
      end
  | Settles p r =>
      match assoc p (inflight s) with
      | Some k => Some (resume k r (upd_inflight (remove_key p) s))
      | None => None
      end
  end.

Fixpoint run (trace : list event) (s : state) : option state :=
  match trace with
  | [] => Some s
  | e :: rest =>
      match step e s with
      | Some s' => run rest s'
      | None => None
      end
  end.

(** ** What the properties speak about *)

Definition timer_job (t : positive * (Z * job)) : job := t.2.2.
Definition promise_job (p : nat * cont) : job := job_of p.2.

Definition pending_timers (j : job) (s : state) : nat :=
  length (filter (λ t, timer_job t = j) (timers s)).

Definition pending_promises (j : job) (s : state) : nat :=
  length (filter (λ p, promise_job p = j) (inflight s)).

(** The attempts of a task that are under way: scheduled on a timer, or
    dispatched to the fetcher or the loader and not yet completed. *)
Definition outstanding (j : job) (s : state) : nat :=
  pending_timers j s + pending_promises j s.

(** The task has been created. *)
Definition known (j : job) (s : state) : Prop :=
  match j with
  | ModelJob tid => tid < length (mtasks s)
  | WorldJob wid => wid < length (wtasks s)
  end.

(** The task on whose behalf a collaborator or callback was called. *)
Definition obs_job (o : obs) : job :=
  match o with
  | FetchModel _ tid _ | LoadGLB tid _ | Swap tid _ _ => ModelJob tid
  | FetchWorld _ wid _ | Ready wid _ => WorldJob wid
  | Progress j _ | Error j _ => j
  end.

(** Times of the descriptor fetches issued for a model ID. *)
Definition fetch_times (id : string) (l : list obs) : list Z :=
  omap (λ o, match o with
             | FetchModel t _ id' => if decide (id' = id) then Some t else None
             | _ => None
             end) l.

(** Times of the descriptor fetches issued for a world ID. *)
Definition world_fetch_times (id : string) (l : list obs) : list Z :=
  omap (λ o, match o with
             | FetchWorld t _ id' => if decide (id' = id) then Some t else None
             | _ => None
             end) l.

(** Descriptor fetches for a model ID that are in flight. *)
Definition fetches_in_flight (id : string) (s : state) : nat :=
  length (filter (λ p, match p.2 with
                       | AwaitModel tid =>
                           bool_decide (m_id <$> mtasks s !! tid = Some id)
                       | _ => false
                       end = true) (inflight s)).

(** The calls of onSwap made for a task: scene and descriptor. *)
Definition swaps_of (tid : nat) (l : list obs) : list (nat * jsval) :=
  omap (λ o, match o with
             | Swap tid' scene data =>
                 if decide (tid' = tid) then Some (scene, data) else None
             | _ => None
             end) l.

(** The errors handed to onError for a task. *)
Definition errors_of (j : job) (l : list obs) : list jserror :=
  omap (λ o, match o with
             | Error j' e => if decide (j' = j) then Some e else None
             | _ => None
             end) l.

(** The state of the promise [loadWorld] returned for a task. *)
Definition promise_of (wid : nat) (s : state) : option pstate :=
  w_promise <$> wtasks s !! wid.

(** The job an event of the loop runs for, if it runs one. *)
Definition event_job (e : event) (s : state) : option job :=
  match e with
  | CallLoadModel _ _ => Some (ModelJob (length (mtasks s)))
  | CallLoadWorld _ _ => Some (WorldJob (length (wtasks s)))
  | TimerFires h => snd <$> assoc h (timers s)
  | Settles p _ => job_of <$> assoc p (inflight s)
  | _ => None
  end.

(** The task an event creates, if it creates one. *)
Definition new_job (e : event) (s : state) : option job :=
  match e with
  | CallLoadModel _ _ => Some (ModelJob (length (mtasks s)))
  | CallLoadWorld _ _ => Some (WorldJob (length (wtasks s)))
  | _ => None
  end.

(** No timer and no promise refers to a task that was never created. *)
Definition tables_known (s : state) : Prop :=
  ∀ j, 0 < outstanding j s → known j s.

(** An observation made on behalf of task [j0]; a model fetch names the
    model ID of its task. *)
Definition obs_for (j0 : job) (s : state) (o : obs) : Prop :=
  obs_job o = j0 ∧
  match o with
  | FetchModel _ tid id => m_id <$> mtasks s !! tid = Some id
  | _ => True
  end.

(** What no handler touches: the host and the closures of the tasks.  Of a
    world task only the [resolved] flag and the promise change, once, when
    the promise is settled. *)
Definition frame (s s' : state) : Prop :=
  host s' = host s
  ∧ mtasks s' = mtasks s
  ∧ length (wtasks s') = length (wtasks s)
  ∧ ∀ wid w, wtasks s !! wid = Some w →
      wtasks s' !! wid = Some w
      ∨ (w_resolved w = false
         ∧ ∃ p, p ≠ Pending ∧ wtasks s' !! wid = Some (settle_wtask p w)).

(** Within one task the attempts follow one another: at most one is under
    way. *)
Definition sequential (s : state) : Prop := ∀ j, outstanding j s ≤ 1.

(** The job belongs to a model task for [id]. *)
Definition task_of_id (id : string) (s : state) (j : job) : bool :=
  match j with
  | ModelJob tid => bool_decide (m_id <$> mtasks s !! tid = Some id)
  | WorldJob _ => false
  end.

(** No attempt for [id] is dispatched and waiting for its collaborator. *)
Definition nothing_in_flight (id : string) (s : state) : bool :=
  forallb (λ p, negb (task_of_id id s (promise_job p))) (inflight s).

(** Every pending timer of a task for [id] is the one the Poll Registry
    holds for [id]. *)
Definition only_registered_timer (id : string) (s : state) : bool :=
  forallb (λ t, negb (task_of_id id s (timer_job t))
                || bool_decide (activePolls s !! id = Some t.1)) (timers s).

(** The caller does not ask for [id] again. *)
Definition no_load_of (id : string) (trace : list event) : bool :=
  forallb (λ e, match e with
                | CallLoadModel id' _ => negb (bool_decide (id' = id))
                | _ => true
                end) trace.

(** The caller does not clear the cache. *)
Definition no_clearCache (trace : list event) : bool :=
  forallb (λ e, match e with CallClearCache => false | _ => true end) trace.

(** No task for [id] has an attempt under way. *)
Definition quiet (id : string) (s : state) : Prop :=
  ∀ tid t, mtasks s !! tid = Some t → m_id t = id →
           outstanding (ModelJob tid) s = 0.

(** A cache record under a model key was put there by [loadModel]: THREE is
    on the page and the record holds a container. *)
Definition model_cache_ok (s : state) : Prop :=
  ∀ id e, cache s !! cacheKey id = Some e →
          threeAvailable s = true ∧ is_Some (ce_group e).

(** Everything that was reported for task [j]: its fetches, its loads and
    the callbacks made for it. *)
Definition observed (j : job) (l : list obs) : list obs :=
  filter (λ o, obs_job o = j) l.

(** A task whose swap was reported exists and has no attempt under way. *)
Definition swapped_at_rest (s : state) : Prop :=
  ∀ tid, swaps_of tid (log s) ≠ [] →
         known (ModelJob tid) s ∧ outstanding (ModelJob tid) s = 0.

(** The scene graph and the disposed objects once the placeholder of task
    [t] has been taken out, if it still hangs in the task's container. *)
Definition without_placeholder (t : mtask) (s : state) : gmap nat nat * gset nat :=
  match m_placeholder t with
  | Some ph =>
      if decide (parent s !! ph = Some (m_group t))
      then (delete ph (parent s), {[ph]} ∪ disposed s)
      else (parent s, disposed s)
  | None => (parent s, disposed s)
  end.

(** The [resolved] flag of a world task says whether its promise has been
    settled. *)
Definition flag_tracks_promise (s : state) : Prop :=
  ∀ wid w, wtasks s !! wid = Some w →
           (w_resolved w = false ↔ w_promise w = Pending).

(** [!!(splatUrl || result.panoramaUrl)] *)
Definition isReady (r : worldResult) : bool :=
  truthy (splatUrl r) || truthy (panoramaUrl r).

(** The state a run ends in (the start state if the run is not possible). *)
Definition after (trace : list event) (s : state) : state :=
  default s (run trace s).

(** ** Scenarios *)

Definition page : hostenv := {| three := true; threeGLTFLoader := true |}.

Definition defaults : options :=
  {| opt_poll := None; opt_pollInterval := None; opt_maxPollTime := None |}.

(** Polling every 5000 ms with a ceiling of 12000 ms. *)
Definition short_poll : options :=
  {| opt_poll := Some true; opt_pollInterval := Some 5000%Z;
     opt_maxPollTime := Some 12000%Z |}.

(** A descriptor that carries no mesh URL. *)
Definition not_ready : jsval := JObj ∅.

(** The caller asks for model m at time 0; every fetch completes at once with
    a descriptor without mesh URL, and every timer fires the moment it is due.
    Three attempts have been made and the third has been processed. *)
Definition three_attempts : list event :=
  [CallLoadModel "m" short_poll; Settles 0 (Ok not_ready);
   Tick 5000; TimerFires 1; Settles 1 (Ok not_ready);
   Tick 5000; TimerFires 2; Settles 2 (Ok not_ready)].

(** The same run, carried on for another interval. *)
Definition fourth_attempt : list event :=
  [Tick 5000; TimerFires 3; Settles 3 (Ok not_ready)].

(** The second attempt for model m is in flight when the caller cancels;
    its descriptor arrives afterwards. *)
Definition cancel_in_flight : list event :=
  [CallLoadModel "m" defaults; Settles 0 (Ok not_ready);
   Tick 5000; TimerFires 1; CallCancelPoll "m"].

(** Two calls for model m in a row; both descriptors arrive without mesh. *)
Definition asked_twice : list event :=
  [CallLoadModel "m" defaults; CallLoadModel "m" defaults].

Definition both_not_ready : list event :=
  [Settles 0 (Ok not_ready); Settles 1 (Ok not_ready)].

Definition late_arrival : list event :=
  [Settles 1 (Ok not_ready); Tick 5000; TimerFires 2].

(** A model whose ID is the name __proto__ waits on its timer; the caller
    cancels it and lets the interval pass. *)
Definition proto_waiting : list event :=
  [CallLoadModel "__proto__" defaults; Settles 0 (Ok not_ready)].

Definition proto_cancelled : list event :=
  [CallCancelPoll "__proto__"; Tick 5000; TimerFires 1].

(** A descriptor with a raw mesh. *)
Definition ready : jsval := JObj {["mesh" := JObj {["url" := JStr "b.glb"]}]}.

(** Model m is fetched, its mesh loads, the swap is done. *)
Definition loaded_run : list event :=
  [CallLoadModel "m" defaults; Settles 0 (Ok ready); Settles 1 (Ok JNull)].

(** The caller takes the placeholder (object 1) out of the container before
    the mesh arrives. *)
Definition removed_placeholder_run : list event :=
  [CallLoadModel "m" defaults; SceneRemove 1; Settles 0 (Ok ready);
   Settles 1 (Ok JNull)].

(** The caller clears the cache while the mesh of model m is loading. *)
Definition cleared_while_loading : list event :=
  [CallLoadModel "m" defaults; Settles 0 (Ok ready); CallClearCache;
   Settles 1 (Ok JNull)].

(** World w is asked for with polling on; every fetch fails, each timer
    fires when due. *)
Definition failing_world_run : list event :=
  [CallLoadWorld "w" short_poll; Settles 0 (Throw (HostError 503));
   Tick 5000; TimerFires 1; Settles 1 (Throw (HostError 503));
   Tick 5000; TimerFires 2; Settles 2 (Throw (HostError 503));
   Tick 5000; TimerFires 3; Settles 3 (Throw (HostError 503))].

(** ** The rest of the library *)

(** *** Endpoint URLs *)

Definition defaultApiUrl : string := "https://dev.api.buu.fun".

(** The character [/]. *)
Definition slash : Ascii.ascii := Ascii.ascii_of_nat 47.

(** [base[base.length - 1]] *)
Fixpoint last_char (base : string) : option Ascii.ascii :=
  match base with
  | EmptyString => None
  | String c EmptyString => Some c
  | String _ rest => last_char rest
  end.

(** [base.slice(0, -1)] *)
Fixpoint drop_last (base : string) : string :=
  match base with
  | EmptyString => EmptyString
  | String _ EmptyString => EmptyString
  | String c rest => String c (drop_last rest)
  end.

Definition apiUrl (_apiUrl path : string) : string :=
  let base :=
    if decide (last_char _apiUrl = Some slash) then drop_last _apiUrl
    else _apiUrl in
  base +:+ path.

(** The addresses [fetchModel] and [fetchWorld] ask. *)
Definition modelUrl (_apiUrl modelId : string) : string :=
  apiUrl _apiUrl ("/v1/models/public/" +:+ modelId).

Definition worldUrl (_apiUrl worldId : string) : string :=
  apiUrl _apiUrl ("/v1/worlds/public/" +:+ worldId).

(** *** Cache queries *)

(** [{ group: entry.group, loaded: entry.loaded }], or null. *)
Definition getCachedModel (modelId : string) (s : state) : option (option nat * bool) :=
  match cache s !! cacheKey modelId with
  | Some e => Some (ce_group e, ce_loaded e)
  | None => None
  end.

(** [entry.data || null] *)
Definition getCachedWorld (worldId : string) (s : state) : option worldResult :=
  match cache s !! worldKey worldId with
  | Some e => ce_data e
  | None => None
  end.

(** *** The splat a world is shown with *)

(** The choice [loadWorldSplat] makes among the tiers of a world result;
    [splatResolution] is [opts.splatResolution], if given. *)
Definition pickSplatUrl (splatResolution : option string) (worldData : worldResult) : jsval :=
  let res :=
    match splatResolution with
    | Some r => if String.eqb r EmptyString then "auto" else r
    | None => "auto"
    end in
  if String.eqb res "high" && truthy (highRes (splats worldData))
  then highRes (splats worldData)
  else if String.eqb res "medium" && truthy (mediumRes (splats worldData))
  then mediumRes (splats worldData)
  else if String.eqb res "low" && truthy (lowRes (splats worldData))
  then lowRes (splats worldData)
  else splatUrl worldData.

(** *** The viewer configuration of [loadSplat] *)

(** [v === undefined] *)
Definition is_undefined (v : jsval) : bool :=
  match v with
  | JUndefined => true
  | _ => false
  end.

(** The defaults, with the two enum values when the GaussianSplats3D module
    has the enums. *)
Definition viewerDefaults (GS3D : jsval) : result (gmap string jsval) :=
  let d : gmap string jsval :=
    <["gpuAcceleratedSort" := JBool true]>
      (<["sharedMemoryForWorkers" := JBool true]>
         (<["sphericalHarmonicsDegree" := JNum 0]> ∅)) in
  let* logLevel := get GS3D "LogLevel" in
  let* d := (if truthy logLevel
             then let* level := get GS3D "LogLevel" in
                  let* none := get level "None" in
                  Ok (<["logLevel" := none]> d)
             else Ok d) in
  let* revealMode := get GS3D "SceneRevealMode" in
  if truthy revealMode
  then let* mode := get GS3D "SceneRevealMode" in
       let* gradual := get mode "Gradual" in
       Ok (<["sceneRevealMode" := gradual]> d)
  else Ok d.

(** The names every plain object inherits from Object.prototype. *)
Definition proto_member (key : string) : bool :=
  bool_decide (key ∈ ["constructor"; "hasOwnProperty"; "isPrototypeOf";
                      "propertyIsEnumerable"; "toLocaleString"; "toString";
                      "valueOf"; "__proto__"; "__defineGetter__";
                      "__defineSetter__"; "__lookupGetter__"; "__lookupSetter__"]).

(** [o[key] === undefined] on a plain object: a name the object does not
    have itself is looked up in Object.prototype, whose members are not
    undefined. *)
Definition reads_undefined (o : gmap string jsval) (key : string) : bool :=
  match o !! key with
  | Some v => is_undefined v
  | None => negb (proto_member key)
  end.

(** The viewer configuration [loadSplat] builds, by its two [for ... in]
    loops, from the defaults and from [opts.viewer] (a plain object): the
    defaults, each replaced by the caller's value if the caller gave one, then
    the caller's other keys.  The keys of the defaults are the five written
    in the code, none of them a name of Object.prototype, so that the reads
    [viewerOpts[key]] of the first loop find what the caller gave or nothing.
    Each round asks hasOwnProperty of the object it runs over. *)
Definition viewerConfig (GS3D : jsval) (viewerOpts : gmap string jsval)
    : result (gmap string jsval) :=
  let* d := viewerDefaults GS3D in
  let* config :=
    map_fold (λ key dv acc,
                let* cfg := acc in
                let* own := hasOwnProperty d key in
                Ok (if own : bool
                    then <[key := if is_undefined (prop viewerOpts key) then dv
                                  else prop viewerOpts key]> cfg
                    else cfg))
             (Ok ∅) d in
  map_fold (λ key ov acc,
              let* cfg := acc in
              let* own := hasOwnProperty viewerOpts key in
              Ok (if (own : bool) && reads_undefined cfg key
                  then <[key := ov]> cfg else cfg))
           (Ok config) viewerOpts.

(** The first usable value among the tiers, best first. *)
Definition best_tier (t : splatUrls) : jsval :=
  if truthy (highRes t) then highRes t
  else if truthy (mediumRes t) then mediumRes t
  else lowRes t.

(** ** More of what the properties speak about *)

(** Every pending timer is one the Poll Registry holds. *)
Definition all_timers_registered (s : state) : bool :=
  forallb (λ t, bool_decide (t.1 ∈ (map_to_list (activePolls s)).*2)) (timers s).

(** The caller starts nothing new. *)
Definition no_loads (trace : list event) : bool :=
  forallb (λ e, match e with
                | CallLoadModel _ _ | CallLoadWorld _ _ => false
                | _ => true
                end) trace.

(** The observation is a descriptor fetch of task [j]. *)
Definition is_fetch (j : job) (o : obs) : bool :=
  match o with
  | FetchModel _ tid _ => bool_decide (j = ModelJob tid)
  | FetchWorld _ wid _ => bool_decide (j = WorldJob wid)
  | _ => false
  end.

(** The number of descriptor fetches a task has issued. *)
Definition fetches (j : job) (l : list obs) : nat :=
  length (filter (λ o, is_fetch j o = true) l).

(** The [poll] option a task was created with. *)
Definition polling (j : job) (s : state) : option bool :=
  match j with
  | ModelJob tid => m_poll <$> mtasks s !! tid
  | WorldJob wid => w_poll <$> wtasks s !! wid
  end.

(** A pending timer belongs to a task that polls, and is due less than one
    interval after that task's ceiling. *)
Definition timer_in_budget (s : state) (x : positive * (Z * job)) : Prop :=
  match x.2.2 with
  | ModelJob tid =>
      ∃ t, mtasks s !! tid = Some t ∧ m_poll t = true
           ∧ (x.2.1 < m_startTime t + m_maxPollTime t + Z.max 0 (m_pollInterval t))%Z
  | WorldJob wid =>
      ∃ w, wtasks s !! wid = Some w ∧ w_poll w = true
           ∧ (x.2.1 < w_startTime w + w_maxPollTime w + Z.max 0 (w_pollInterval w))%Z
  end.

(** What the cache holds under a world key is a ready result for that
    world. *)
Definition world_cache_ready (s : state) : Prop :=
  ∀ id e, cache s !! worldKey id = Some e →
          ∃ r, e = world_entry r ∧ isReady r = true ∧ worldId r = id.

(** A model record marked loaded goes back to a swap that was reported for a
    task of that model. *)
Definition loaded_by_swap (s : state) : Prop :=
  ∀ id e, cache s !! cacheKey id = Some e → ce_loaded e = true →
          ∃ tid t, mtasks s !! tid = Some t ∧ m_id t = id
                   ∧ swaps_of tid (log s) ≠ [].

(** Every pending timer is within its task's budget. *)
Definition timers_in_budget (s : state) : Prop :=
  ∀ x, x ∈ timers s → timer_in_budget s x.

(** A task has fetched at least once, a task that does not poll exactly
    once, and a task that was never created has not fetched. *)
Definition fetched_once (s : state) : Prop :=
  ∀ j, match polling j s with
       | Some poll => 1 ≤ fetches j (log s)
                      ∧ (poll = false → fetches j (log s) = 1)
       | None => fetches j (log s) = 0
       end.

(** No polling. *)
Definition no_poll : options :=
  {| opt_poll := Some false; opt_pollInterval := None; opt_maxPollTime := None |}.
(** ** Facts about the resolvers *)

Section Resolvers.

Implicit Types (o m : gmap string jsval) (k : string) (v u : jsval).

Lemma has_url_present o k u :
  present_url o k = Some u →
  has_url (JObj o) k = Ok u ∧ truthy u = true ∧ url_at (JObj o) k = Ok u.
Proof.
  unfold present_url, has_url, url_at, js_and. simpl.
  destruct (o !! k) as [sub|]; simpl; [|discriminate].
  destruct (truthy sub) eqn:Hs; [|discriminate].
  destruct (get sub "url") as [w|] eqn:Hg; [|discriminate].
  destruct (truthy w) eqn:Hw; [|discriminate].
  intros [= <-]. auto.
Qed.

Lemma has_url_absent o k :
  present_url o k = None →
  ∃ c, has_url (JObj o) k = Ok c ∧ truthy c = false.
Proof.
  unfold present_url, has_url, js_and. simpl.
  destruct (o !! k) as [sub|]; simpl; [|intros _; by exists JUndefined].
  destruct (truthy sub) eqn:Hs; [|intros _; by exists sub].
  destruct sub; simpl in *; try discriminate; eauto.
  destruct (truthy (default JUndefined (fields !! "url"))) eqn:Hw; [discriminate|eauto].
Qed.

Lemma first_present_shaped o ranks : url_or_null_shaped (first_present o ranks) = true.
Proof.
  induction ranks as [|k ks IH]; simpl; [done|].
  unfold present_url.
  destruct (o !! k) as [sub|]; [|done].
  destruct (truthy sub); [|done].
  destruct (get sub "url") as [w|]; [|done].
  destruct (truthy w) eqn:Hw; [|done].
  destruct w; simpl in *; done.
Qed.

Lemma resolveMeshUrl_obj o :
  resolveMeshUrl (JObj o) = Ok (first_present o mesh_ranks).
Proof.
  unfold resolveMeshUrl, mesh_ranks. simpl first_present.
  destruct (present_url o "texturedMesh") as [u1|] eqn:H1.
  { destruct (has_url_present _ _ _ H1) as (-> & Hc & ->). simpl. by rewrite Hc. }
  destruct (has_url_absent _ _ H1) as (c1 & -> & Hc1). simpl. rewrite Hc1.
  destruct (present_url o "optimizedMesh") as [u2|] eqn:H2.
  { destruct (has_url_present _ _ _ H2) as (-> & Hc & ->). simpl. by rewrite Hc. }
  destruct (has_url_absent _ _ H2) as (c2 & -> & Hc2). simpl. rewrite Hc2.
  destruct (present_url o "mesh") as [u3|] eqn:H3.
  { destruct (has_url_present _ _ _ H3) as (-> & Hc & ->). simpl. by rewrite Hc. }
  destruct (has_url_absent _ _ H3) as (c3 & -> & Hc3). simpl. by rewrite Hc3.
Qed.

(** On anything but undefined and null the mesh resolver returns. *)
Lemma resolveMeshUrl_total v :
  nullish v = false → ∃ u, resolveMeshUrl v = Ok u ∧ url_or_null_shaped u = true.
Proof.
  destruct v; try discriminate; intros _;
    try (exists JNull; split; reflexivity).
  rewrite resolveMeshUrl_obj. eexists; split; [done|apply first_present_shaped].
Qed.

Lemma truthy_not_nullish v : truthy v = true → nullish v = false.
Proof. by destruct v. Qed.

Lemma resolveSplatUrl_obj o :
  resolveSplatUrl (JObj o)
  = Ok (first_present (fields_of (prop o "splatFiles")) splat_ranks).
Proof.
  unfold resolveSplatUrl, prop. simpl get.
  destruct (o !! "splatFiles") as [sf|]; simpl; [|done].
  destruct (truthy sf) eqn:Hsf; [|by destruct sf].
  destruct sf as [| |b|n|s|items|fields]; simpl in Hsf;
    try discriminate; try reflexivity.
  simpl fields_of. unfold splat_ranks. simpl first_present.
  destruct (present_url fields "highRes") as [u1|] eqn:H1.
  { destruct (has_url_present _ _ _ H1) as (-> & Hc & ->). simpl. by rewrite Hc. }
  destruct (has_url_absent _ _ H1) as (c1 & -> & Hc1). simpl. rewrite Hc1.
  destruct (present_url fields "mediumRes") as [u2|] eqn:H2.
  { destruct (has_url_present _ _ _ H2) as (-> & Hc & ->). simpl. by rewrite Hc. }
  destruct (has_url_absent _ _ H2) as (c2 & -> & Hc2). simpl. rewrite Hc2.
  destruct (present_url fields "lowRes") as [u3|] eqn:H3.
  { destruct (has_url_present _ _ _ H3) as (-> & Hc & ->). simpl. by rewrite Hc. }
  destruct (has_url_absent _ _ H3) as (c3 & -> & Hc3). simpl. by rewrite Hc3.
Qed.

Lemma url_or_null_obj o k : url_or_null (JObj o) k = Ok (tier o k).
Proof.
  unfold url_or_null, tier, js_or.
  destruct (present_url o k) as [u|] eqn:H.
  - destruct (has_url_present _ _ _ H) as (-> & Ht & _). simpl. by rewrite Ht.
  - destruct (has_url_absent _ _ H) as (c & -> & Hc). simpl. by rewrite Hc.
Qed.

Lemma url_or_null_nonnullish v k :
  nullish v = false → url_or_null v k = Ok (tier (fields_of v) k).
Proof.
  destruct v; try discriminate; intros _; try reflexivity.
  apply url_or_null_obj.
Qed.

Lemma resolveAllSplatUrls_obj o :
  let files := fields_of (prop o "splatFiles") in
  resolveAllSplatUrls (JObj o)
  = Ok {| lowRes := tier files "lowRes";
          mediumRes := tier files "mediumRes";
          highRes := tier files "highRes" |}.
Proof.
  unfold resolveAllSplatUrls, prop, js_or. simpl get. simpl bind.
  destruct (truthy (default JUndefined (o !! "splatFiles"))) eqn:Hsf.
  - apply truthy_not_nullish in Hsf. simpl bind.
    by rewrite !(url_or_null_nonnullish _ _ Hsf).
  - simpl bind. rewrite !url_or_null_obj. simpl.
    destruct (o !! "splatFiles") as [sf|]; [|done].
    destruct sf; simpl in *; done.
Qed.

Lemma present_url_shaped o k u : present_url o k = Some u → truthy u = true.
Proof.
  unfold present_url.
  destruct (o !! k) as [sub|]; [|done].
  destruct (truthy sub); [|done].
  destruct (get sub "url") as [w|]; [|done].
  destruct (truthy w) eqn:Hw; [|done].
  by intros [= <-].
Qed.

Lemma tier_shaped o k : url_or_null_shaped (tier o k) = true.
Proof.
  unfold tier. destruct (present_url o k) as [u|] eqn:H; [|done].
  apply present_url_shaped in H. by destruct u.
Qed.

Lemma present_url_delete o k : present_url (delete k o) k = None.
Proof. unfold present_url. by rewrite lookup_delete_eq. Qed.

Lemma present_url_without_url o k fs :
  present_url (<[k := JObj (delete "url" fs)]> o) k = None.
Proof.
  unfold present_url. rewrite lookup_insert_eq. simpl.
  by rewrite lookup_delete_eq.
Qed.

Lemma present_url_falsy o k fs u :
  truthy u = false → present_url (<[k := JObj (<["url" := u]> fs)]> o) k = None.
Proof.
  intros Hu. unfold present_url. rewrite lookup_insert_eq. simpl.
  rewrite lookup_insert_eq. simpl. by rewrite Hu.
Qed.

Lemma present_url_insert_ne o k k' v :
  k ≠ k' → present_url (<[k := v]> o) k' = present_url o k'.
Proof. intros Hne. unfold present_url. by rewrite lookup_insert_ne. Qed.

Lemma present_url_delete_ne o k k' :
  k ≠ k' → present_url (delete k o) k' = present_url o k'.
Proof. intros Hne. unfold present_url. by rewrite lookup_delete_ne. Qed.

Lemma first_present_ext o o' ranks :
  (∀ k, k ∈ ranks → present_url o k = present_url o' k) →
  first_present o ranks = first_present o' ranks.
Proof.
  induction ranks as [|r rs IH]; intros Hext; simpl; [done|].
  rewrite (Hext r) by set_solver.
  rewrite IH; [done|]. intros k Hk. apply Hext. set_solver.
Qed.

(** A sub-record that contributes no URL can be dropped from the object. *)
Lemma first_present_drop o k v ranks :
  present_url (<[k := v]> o) k = None →
  first_present (<[k := v]> o) ranks = first_present (delete k o) ranks.
Proof.
  intros Hnone. apply first_present_ext. intros k' _.
  destruct (decide (k = k')) as [<-|Hne].
  - by rewrite Hnone, present_url_delete.
  - by rewrite present_url_insert_ne, present_url_delete_ne.
Qed.

Lemma tier_drop o k v k' :
  present_url (<[k := v]> o) k = None →
  tier (<[k := v]> o) k' = tier (delete k o) k'.
Proof.
  intros Hnone. unfold tier.
  destruct (decide (k = k')) as [<-|Hne].
  - by rewrite Hnone, present_url_delete.
  - by rewrite present_url_insert_ne, present_url_delete_ne.
Qed.

(** C4: the mesh resolver returns the first present URL in the order
    texturedMesh, optimizedMesh, mesh and null when there is none; a missing
    sub-record and a sub-record without url are skipped alike; the scenario
    descriptor resolves to a.glb; the order in which the sub-records were
    inserted does not matter. *)
Theorem resolveMeshUrl_first_present (o : gmap string jsval) :
  resolveMeshUrl (JObj o)
  = Ok (first_present o ["texturedMesh"; "optimizedMesh"; "mesh"])
  ∧ (∀ k fs,
        present_url (delete k o) k = None
        ∧ present_url (<[k := JObj (delete "url" fs)]> o) k = None
        ∧ resolveMeshUrl (JObj (<[k := JObj (delete "url" fs)]> o))
          = resolveMeshUrl (JObj (delete k o)))
  ∧ resolveMeshUrl
      (JObj (<["optimizedMesh" := JObj {["url" := JStr "a.glb"]}]>
             (<["mesh" := JObj {["url" := JStr "b.glb"]}]> ∅)))
    = Ok (JStr "a.glb")
  ∧ (∀ a b c,
        resolveMeshUrl
          (JObj (<["texturedMesh" := a]> (<["optimizedMesh" := b]> (<["mesh" := c]> o))))
        = resolveMeshUrl
            (JObj (<["mesh" := c]> (<["optimizedMesh" := b]> (<["texturedMesh" := a]> o))))).
Proof.
  split; [apply resolveMeshUrl_obj|].
  split.
  { intros k fs. split; [apply present_url_delete|].
    split; [apply present_url_without_url|].
    rewrite !resolveMeshUrl_obj. f_equal.
    apply first_present_drop, present_url_without_url. }
  split; [by vm_compute|].
  intros a b c. f_equal. f_equal.
  apply map_eq. intros i. rewrite !lookup_insert.
  repeat case_decide; simplify_eq; done.
Qed.

(** C5: the splat resolver returns the first present URL in the order
    highRes, mediumRes, lowRes of splatFiles (null when none), the all-tiers
    resolver fills each slot on its own, null when absent; the scenario
    descriptor resolves to z with tiers x, null, z. *)
Theorem resolveSplatUrl_first_present (o : gmap string jsval) :
  resolveSplatUrl (JObj o)
  = Ok (first_present (fields_of (prop o "splatFiles"))
          ["highRes"; "mediumRes"; "lowRes"])
  ∧ resolveAllSplatUrls (JObj o)
    = Ok {| lowRes := tier (fields_of (prop o "splatFiles")) "lowRes";
            mediumRes := tier (fields_of (prop o "splatFiles")) "mediumRes";
            highRes := tier (fields_of (prop o "splatFiles")) "highRes" |}
  ∧ resolveSplatUrl
      (JObj {["splatFiles" :=
                JObj (<["lowRes" := JObj {["url" := JStr "x"]}]>
                      (<["highRes" := JObj {["url" := JStr "z"]}]> ∅))]})
    = Ok (JStr "z")
  ∧ resolveAllSplatUrls
      (JObj {["splatFiles" :=
                JObj (<["lowRes" := JObj {["url" := JStr "x"]}]>
                      (<["highRes" := JObj {["url" := JStr "z"]}]> ∅))]})
    = Ok {| lowRes := JStr "x"; mediumRes := JNull; highRes := JStr "z" |}.
Proof.
  split; [apply resolveSplatUrl_obj|].
  split; [apply resolveAllSplatUrls_obj|].
  split; by vm_compute.
Qed.

Lemma resolveAllFormats_slot o k :
  ∃ u, (if truthy (prop o k) then resolveMeshUrl (prop o k) else Ok JNull) = Ok u
       ∧ url_or_null_shaped u = true.
Proof.
  unfold prop. destruct (truthy (default JUndefined (o !! k))) eqn:Ht.
  - apply resolveMeshUrl_total, truthy_not_nullish, Ht.
  - by exists JNull.
Qed.

(** C9: on every descriptor object, whatever subset of fields it carries
    and whatever they hold, the four resolvers return (they never throw), and
    each value returned is null or a usable URL value. *)
Theorem resolvers_total (o : gmap string jsval) :
  (∃ u, resolveMeshUrl (JObj o) = Ok u ∧ url_or_null_shaped u = true)
  ∧ (∃ f, resolveAllFormats (JObj o) = Ok f
          ∧ url_or_null_shaped (glb f) = true
          ∧ url_or_null_shaped (obj f) = true
          ∧ url_or_null_shaped (fbx f) = true)
  ∧ (∃ u, resolveSplatUrl (JObj o) = Ok u ∧ url_or_null_shaped u = true)
  ∧ (∃ s, resolveAllSplatUrls (JObj o) = Ok s
          ∧ url_or_null_shaped (lowRes s) = true
          ∧ url_or_null_shaped (mediumRes s) = true
          ∧ url_or_null_shaped (highRes s) = true).
Proof.
  split; [by apply resolveMeshUrl_total|].
  split.
  { unfold resolveAllFormats.
    destruct (resolveMeshUrl_total (JObj o) eq_refl) as (g & -> & Hg).
    destruct (resolveAllFormats_slot o "obj") as (uo & Ho & Hso).
    destruct (resolveAllFormats_slot o "fbx") as (uf & Hf & Hsf).
    exists {| glb := g; obj := uo; fbx := uf |}. split; [|done].
    simpl. fold (prop o "obj") (prop o "fbx"). rewrite Ho. simpl.
    by rewrite Hf. }
  split.
  { rewrite resolveSplatUrl_obj. eexists; split; [done|apply first_present_shaped]. }
  rewrite resolveAllSplatUrls_obj. eexists; split; [done|].
  simpl. auto using tier_shaped.
Qed.

Lemma first_present_skip o k v ranks :
  present_url (<[k := v]> o) k = None →
  first_present (<[k := v]> o) ranks
  = first_present o (filter (λ r, r ≠ k) ranks).
Proof.
  intros Hnone. induction ranks as [|r rs IH]; [done|].
  rewrite filter_cons. simpl. destruct (decide (r = k)) as [->|Hne].
  - rewrite Hnone, decide_False by naive_solver. apply IH.
  - rewrite decide_True by done. simpl.
    rewrite present_url_insert_ne by done. by rewrite IH.
Qed.

Lemma tier_insert_ne o k k' v : k ≠ k' → tier (<[k := v]> o) k' = tier o k'.
Proof. intros Hne. unfold tier. by rewrite present_url_insert_ne. Qed.

Lemma tier_skip o k v k' :
  present_url (<[k := v]> o) k = None →
  tier (<[k := v]> o) k' = (if decide (k' = k) then JNull else tier o k').
Proof.
  intros Hnone. case_decide as Hk.
  - subst k'. unfold tier. by rewrite Hnone.
  - by apply tier_insert_ne.
Qed.

(** C10: a sub-record whose url is the empty string, or any other falsy
    value (a url that is missing reads as undefined), is treated as if the
    sub-record were not there.  The best-pick
    resolvers pass its rank over: they return the first present URL of the
    remaining ranks, in their order, so that with a usable URL in the next
    rank they return that one; this is what they give on the descriptor
    without the sub-record.  The all-tiers resolver returns null in the slot
    of the sub-record and fills the other slots as without it. *)
Theorem falsy_url_as_absent (o files sub : gmap string jsval) (k : string) :
  truthy (prop sub "url") = false →
  let falsy := JObj sub in
  let world := JObj (<["splatFiles" := JObj (<[k := falsy]> files)]> o) in
  (resolveMeshUrl (JObj (<[k := falsy]> o))
   = Ok (first_present o (filter (λ r, r ≠ k) mesh_ranks))
   ∧ resolveMeshUrl (JObj (<[k := falsy]> o)) = resolveMeshUrl (JObj (delete k o)))
  ∧ (resolveSplatUrl world
     = Ok (first_present files (filter (λ r, r ≠ k) splat_ranks))
     ∧ resolveSplatUrl world
       = resolveSplatUrl (JObj (<["splatFiles" := JObj (delete k files)]> o)))
  ∧ (∃ t, resolveAllSplatUrls world = Ok t
          ∧ lowRes t = (if decide ("lowRes" = k) then JNull else tier files "lowRes")
          ∧ mediumRes t
            = (if decide ("mediumRes" = k) then JNull else tier files "mediumRes")
          ∧ highRes t = (if decide ("highRes" = k) then JNull else tier files "highRes")
          ∧ resolveAllSplatUrls
              (JObj (<["splatFiles" := JObj (delete k files)]> o)) = Ok t)
  ∧ (∀ fs' v, truthy v = true →
       resolveMeshUrl
         (JObj (<["texturedMesh" := falsy]>
                  (<["optimizedMesh" := JObj (<["url" := v]> fs')]> o))) = Ok v
       ∧ resolveMeshUrl
           (JObj (<["optimizedMesh" := falsy]>
                    (<["mesh" := JObj (<["url" := v]> fs')]>
                       (delete "texturedMesh" o)))) = Ok v
       ∧ resolveSplatUrl
           (JObj (<["splatFiles" :=
                    JObj (<["highRes" := falsy]>
                            (<["mediumRes" := JObj (<["url" := v]> fs')]> files))]> o))
         = Ok v
       ∧ resolveSplatUrl
           (JObj (<["splatFiles" :=
                    JObj (<["mediumRes" := falsy]>
                            (<["lowRes" := JObj (<["url" := v]> fs')]>
                               (delete "highRes" files)))]> o))
         = Ok v).
Proof.
  intros Hu falsy world.
  assert (Hnone : ∀ m r, present_url (<[r := falsy]> m) r = None).
  { intros m r. unfold present_url. rewrite lookup_insert_eq. cbn [falsy truthy get].
    fold (prop sub "url"). by rewrite Hu. }
  split.
  { rewrite !resolveMeshUrl_obj. split; f_equal.
    - by apply first_present_skip.
    - by apply first_present_drop. }
  split.
  { unfold world. rewrite !resolveSplatUrl_obj. unfold prop. rewrite !lookup_insert_eq.
    cbn [default fields_of id]. split; f_equal.
    - by apply first_present_skip.
    - by apply first_present_drop. }
  split.
  { unfold world. rewrite !resolveAllSplatUrls_obj. unfold prop.
    rewrite !lookup_insert_eq. cbn [default fields_of].
    eexists. split; [done|]. cbn [lowRes mediumRes highRes id fields_of].
    rewrite <- !(tier_drop files k falsy) by done.
    rewrite !(tier_skip files k falsy) by done. done. }
  intros fs' v Hv. subst falsy world.
  repeat split;
    rewrite ?resolveMeshUrl_obj, ?resolveSplatUrl_obj;
    unfold prop, mesh_ranks, splat_ranks; rewrite ?lookup_insert_eq;
    cbn [default fields_of id first_present]; unfold present_url;
    simplify_map_eq; cbn [truthy get]; simplify_map_eq; cbn [default];
    fold (prop sub "url"); by rewrite ?Hu, ?Hv.
Qed.

(** A textured mesh with an empty url above a raw mesh, and a high tier with
    an empty url above a low one. *)
Lemma falsy_url_as_absent_witness :
  let files := {["lowRes" := JObj {["url" := JStr "lo.spz"]}]} in
  truthy (prop (<["url" := JStr EmptyString]> ∅) "url") = false
  ∧ resolveMeshUrl
      (JObj (<["texturedMesh" := JObj (<["url" := JStr EmptyString]> ∅)]>
             {["mesh" := JObj {["url" := JStr "b.glb"]}]}))
    = Ok (JStr "b.glb")
  ∧ resolveSplatUrl
      (JObj (<["splatFiles" :=
               JObj (<["highRes" := JObj (<["url" := JStr EmptyString]> ∅)]> files)]> ∅))
    = Ok (JStr "lo.spz")
  ∧ resolveAllSplatUrls
      (JObj (<["splatFiles" :=
               JObj (<["highRes" := JObj (<["url" := JStr EmptyString]> ∅)]> files)]> ∅))
    = Ok {| lowRes := JStr "lo.spz"; mediumRes := JNull; highRes := JNull |}.
Proof.
  cbv zeta.
  assert (Hf : truthy (prop (<["url" := JStr EmptyString]> ∅) "url") = false)
    by (vm_compute; reflexivity).
  split; [exact Hf|].
  split.
  { destruct (falsy_url_as_absent {["mesh" := JObj {["url" := JStr "b.glb"]}]} ∅
                (<["url" := JStr EmptyString]> ∅) "texturedMesh" Hf)
      as ((Hmesh & _) & _).
    exact Hmesh. }
  destruct (falsy_url_as_absent ∅ {["lowRes" := JObj {["url" := JStr "lo.spz"]}]}
              (<["url" := JStr EmptyString]> ∅) "highRes" Hf)
    as (_ & (Hsplat & _) & (t & Hall & Hlo & Hme & Hhi & _) & _).
  split; [exact Hsplat|].
  rewrite Hall. destruct t as [lo me hi]. simpl in Hlo, Hme, Hhi. by subst.
Defined.

End Resolvers.

(** ** Timer and promise tables *)

Lemma filter_none {A} (P : A → Prop) `{∀ x, Decision (P x)} (l : list A) :
  (∀ x, x ∈ l → ¬ P x) → filter P l = [].
Proof.
  induction l as [|x l IH]; intros Hno; [done|].
  rewrite filter_cons, decide_False by (apply Hno; left).
  apply IH. intros y Hy. apply Hno. by right.
Qed.

Section Tables.

Context {K V : Type} `{EqDecision K}.
Implicit Types (l : list (K * V)) (k : K) (v : V).

Lemma count_snoc (P : K * V → Prop) `{∀ x, Decision (P x)} l x :
  length (filter P (l ++ [x])) = length (filter P l) + (if decide (P x) then 1 else 0).
Proof.
  rewrite filter_app, length_app. f_equal.
  rewrite filter_cons, filter_nil. by case_decide.
Qed.

Lemma count_remove_key_le (P : K * V → Prop) `{∀ x, Decision (P x)} k l :
  length (filter P (remove_key k l)) ≤ length (filter P l).
Proof.
  unfold remove_key. induction l as [|x l IH]; [done|].
  rewrite !filter_cons. repeat case_decide; simpl; rewrite ?filter_cons;
    repeat case_decide; simpl; try lia; done.
Qed.

Lemma count_remove_key_lt (P : K * V → Prop) `{∀ x, Decision (P x)} k v l :
  assoc k l = Some v → P (k, v) →
  length (filter P (remove_key k l)) < length (filter P l).
Proof.
  unfold remove_key. induction l as [|[k' v'] l IH]; [done|].
  simpl. intros Ha HP. rewrite !filter_cons. simpl.
  destruct (decide (k' = k)) as [->|Hne].
  - injection Ha as ->. rewrite decide_False by naive_solver.
    rewrite decide_True by done. simpl.
    pose proof (count_remove_key_le P k l). unfold remove_key in *. lia.
  - rewrite decide_True by done. rewrite filter_cons.
    specialize (IH Ha HP). case_decide; simpl; lia.
Qed.

Lemma assoc_elem_of k v l : assoc k l = Some v → (k, v) ∈ l.
Proof.
  induction l as [|[k' v'] l IH]; [done|]. simpl.
  case_decide; [intros [= ->]; subst; left | intros; right; auto].
Qed.

Lemma elem_of_remove_key k x l : x ∈ remove_key k l → x ∈ l.
Proof. unfold remove_key. rewrite list_elem_of_filter. tauto. Qed.

End Tables.

(** ** How the handlers change the tables *)

Ltac unfold_handlers :=
  cbn [attempt resume] in *;
  unfold onModelData, onSceneLoaded, loadGLB, onModelError,
    onWorldData, onWorldError, attemptModel, attemptWorld,
    schedule, setTimeout, cancelPoll, settle, emit, await, clearTimeout,
    attach, detach, dispose, newObject, gltfLoaderAvailable, threeAvailable,
    may_poll in *.

Ltac project :=
  cbn [now host userGLTFLoader cache activePolls timers nextTimer inflight
       nextPromise mtasks wtasks parent disposed buuModelData nextObject log
       upd_now upd_userGLTFLoader upd_cache upd_activePolls upd_timers
       upd_nextTimer upd_inflight upd_nextPromise upd_mtasks upd_wtasks
       upd_parent upd_disposed upd_buuModelData upd_nextObject upd_log
       fst snd] in *.

Ltac count_tables :=
  unfold outstanding, pending_timers, pending_promises; project;
  rewrite ?count_snoc;
  repeat match goal with
  | |- context [length (filter ?P (remove_key ?k ?l))] =>
      lazymatch goal with
      | _ : length (filter P (remove_key k l)) ≤ _ |- _ => fail
      | _ => pose proof (count_remove_key_le P k l)
      end
  end;
  cbn [timer_job promise_job job_of fst snd];
  repeat case_decide; simplify_eq; try lia.

Section Handlers.

Implicit Types (s : state) (j : job).

Lemma attempt_outstanding j0 s j :
  outstanding j (attempt j0 s)
  ≤ outstanding j s + (if decide (j = j0) then 1 else 0).
Proof.
  destruct j0; unfold_handlers; repeat case_match; count_tables.
Qed.

Lemma onModelError_outstanding tid t err s j :
  outstanding j (onModelError tid t err s)
  ≤ outstanding j s + (if decide (j = ModelJob tid) then 1 else 0).
Proof.
  unfold_handlers; repeat case_match; count_tables.
Qed.

Lemma resume_outstanding k r s j :
  outstanding j (resume k r s)
  ≤ outstanding j s + (if decide (j = job_of k) then 1 else 0).
Proof.
  destruct k; unfold_handlers; repeat case_match; count_tables.
Qed.

Lemma clearTimeout_outstanding h s j :
  outstanding j (clearTimeout h s) ≤ outstanding j s.
Proof. unfold_handlers. count_tables. Qed.

Lemma clearTimeout_fired h due j0 s :
  assoc h (timers s) = Some (due, j0) →
  outstanding j0 (clearTimeout h s) < outstanding j0 s.
Proof.
  intros Ha. unfold outstanding, pending_timers, pending_promises, clearTimeout.
  project.
  pose proof (count_remove_key_lt (λ t, timer_job t = j0) h (due, j0) (timers s) Ha eq_refl).
  lia.
Qed.

Lemma settled_outstanding p s j :
  outstanding j (upd_inflight (remove_key p) s) ≤ outstanding j s.
Proof. count_tables. Qed.

Lemma settled_resumed p k s :
  assoc p (inflight s) = Some k →
  outstanding (job_of k) (upd_inflight (remove_key p) s) < outstanding (job_of k) s.
Proof.
  intros Ha. unfold outstanding, pending_timers, pending_promises. project.
  pose proof (count_remove_key_lt (λ q, promise_job q = job_of k) p k (inflight s) Ha eq_refl).
  lia.
Qed.

Lemma foldr_clearTimeout_inflight hs s :
  inflight (foldr clearTimeout s hs) = inflight s.
Proof. induction hs as [|h hs IH]; [done|]. simpl. by unfold clearTimeout. Qed.

Lemma foldr_clearTimeout_outstanding hs s j :
  outstanding j (foldr clearTimeout s hs) ≤ outstanding j s.
Proof.
  induction hs as [|h hs IH]; [done|]. simpl.
  etrans; [apply clearTimeout_outstanding|done].
Qed.

(** What cancelAllPolls does when it does not throw. *)
Lemma cancelAllPolls_cases s :
  (is_Some (activePolls s !! "hasOwnProperty") ∧ cancelAllPolls s = Throw TypeError)
  ∨ (activePolls s !! "hasOwnProperty" = None
     ∧ cancelAllPolls s
       = Ok (upd_activePolls (λ _, ∅)
               (foldr clearTimeout s (map_to_list (activePolls s)).*2))).
Proof.
  unfold cancelAllPolls, hasOwnProperty.
  destruct (activePolls s !! "hasOwnProperty") as [h|] eqn:Hown.
  - left. split; [by eexists|].
    apply elem_of_map_to_list in Hown.
    destruct (map_to_list (activePolls s)) as [|entry l]; [by apply elem_of_nil in Hown|].
    simpl.
    match goal with |- context [foldr ?f ?a l] =>
      assert (Hl : foldr f a l = Ok s ∨ foldr f a l = Throw TypeError)
        by (clear; induction l as [|x l [IH|IH]]; simpl; rewrite ?IH; auto);
      by destruct Hl as [-> | ->]
    end.
  - right. split; [done|].
    assert (Hfold : ∀ l, Forall (λ entry, activePolls s !! entry.1 = Some entry.2) l →
      foldr (λ entry acc,
               let* s0 := acc in
               let* own := Ok (bool_decide (is_Some (activePolls s !! entry.1))) in
               Ok (if own : bool then clearTimeout entry.2 s0 else s0))
            (Ok s) l
      = Ok (foldr clearTimeout s l.*2)).
    { induction l as [|entry l IH]; [done|]. intros Hall.
      apply Forall_cons in Hall as [Hentry Hall]. cbn [foldr fmap list_fmap].
      rewrite (IH Hall). simpl.
      by rewrite bool_decide_eq_true_2 by (by eexists). }
    rewrite Hfold; [done|].
    apply Forall_forall. intros [id h] Hin. by apply elem_of_map_to_list in Hin.
Qed.

Lemma call_cancelAllPolls (P : state → Prop) s :
  P s →
  P (upd_activePolls (λ _, ∅) (foldr clearTimeout s (map_to_list (activePolls s)).*2)) →
  P (call (cancelAllPolls s) s).
Proof.
  intros Hs Hok. by destruct (cancelAllPolls_cases s) as [[_ ->]|[_ ->]].
Qed.

Lemma call_clearCache (P : state → Prop) s :
  P s →
  P (upd_cache (λ _, ∅)
       (upd_activePolls (λ _, ∅)
          (foldr clearTimeout s (map_to_list (activePolls s)).*2))) →
  P (call (clearCache s) s).
Proof.
  intros Hs Hok. unfold clearCache.
  by destruct (cancelAllPolls_cases s) as [[_ ->]|[_ ->]].
Qed.

Lemma cancelAllPolls_outstanding s j :
  outstanding j (call (cancelAllPolls s) s) ≤ outstanding j s.
Proof.
  apply call_cancelAllPolls; [done|].
  etrans; [|apply (foldr_clearTimeout_outstanding (map_to_list (activePolls s)).*2)].
  by unfold outstanding, pending_timers, pending_promises.
Qed.

Lemma clearCache_outstanding s j :
  outstanding j (call (clearCache s) s) ≤ outstanding j s.
Proof.
  apply call_clearCache; [done|].
  etrans; [|apply (foldr_clearTimeout_outstanding (map_to_list (activePolls s)).*2)].
  by unfold outstanding, pending_timers, pending_promises.
Qed.

(** Only a task that is being created gains an outstanding attempt: for a
    task that exists, each new attempt replaces the one that just ended. *)
Lemma step_outstanding e s s' j :
  step e s = Some s' →
  outstanding j s' ≤ outstanding j s + (if decide (new_job e s = Some j) then 1 else 0).
Proof.
  destruct e; simpl; intros Hstep; simplify_eq.
  - unfold loadModel, createPlaceholderBox, _startModelLoad.
    unfold_handlers. repeat case_match; simplify_eq; count_tables.
  - unfold loadWorld. unfold_handlers. repeat case_match; simplify_eq; count_tables.
  - unfold_handlers. repeat case_match; count_tables.
  - pose proof (cancelAllPolls_outstanding s j). lia.
  - pose proof (clearCache_outstanding s j). lia.
  - count_tables.
  - unfold_handlers. count_tables.
  - case_match; simplify_eq. count_tables.
  - destruct (assoc h (timers s)) as [[due j0]|] eqn:Ha; [|done].
    case_match; simplify_eq.
    pose proof (attempt_outstanding j0 (clearTimeout h s) j).
    pose proof (clearTimeout_outstanding h s j).
    pose proof (clearTimeout_fired h due j0 s Ha).
    case_decide; simplify_eq; lia.
  - destruct (assoc p (inflight s)) as [k|] eqn:Ha; [|done]. simplify_eq.
    pose proof (resume_outstanding k r (upd_inflight (remove_key p) s) j).
    pose proof (settled_outstanding p s j).
    pose proof (settled_resumed p k s Ha).
    case_decide; simplify_eq; lia.
Qed.

Lemma frame_same s s0 :
  host s0 = host s → mtasks s0 = mtasks s → wtasks s0 = wtasks s → frame s s0.
Proof. intros Hh Hm Hw. unfold frame. rewrite Hh, Hm, Hw. naive_solver. Qed.

Lemma frame_refl s : frame s s.
Proof. by apply frame_same. Qed.

Lemma frame_settle wid p s s0 :
  p ≠ Pending →
  host s0 = host s → mtasks s0 = mtasks s → wtasks s0 = wtasks s →
  frame s (settle wid p s0).
Proof.
  intros Hp Hh Hm Hw. unfold settle. rewrite Hw.
  destruct (wtasks s !! wid) as [w|] eqn:Hl; [|by apply frame_same].
  destruct (w_resolved w) eqn:Hr; [by apply frame_same|].
  unfold frame. project. rewrite Hw, length_insert.
  repeat split; try done.
  intros wid' w' Hl'. destruct (decide (wid = wid')) as [<-|Hne].
  - rewrite list_lookup_insert_eq by (by eapply lookup_lt_Some).
    simplify_eq. right. eauto.
  - rewrite list_lookup_insert_ne by done. by left.
Qed.

Ltac frame_tables :=
  first
    [ apply frame_same; reflexivity
    | apply frame_settle; [discriminate|reflexivity..] ].

Lemma attempt_frame j0 s : frame s (attempt j0 s).
Proof. destruct j0; unfold_handlers; repeat case_match; frame_tables. Qed.

Lemma resume_frame k r s : frame s (resume k r s).
Proof.
  destruct k; cbn [resume]; repeat case_match; try apply frame_refl;
    unfold onModelData, onSceneLoaded, loadGLB, onModelError, onWorldData,
      onWorldError, schedule, setTimeout, cancelPoll, emit, await,
      clearTimeout, attach, detach, dispose, newObject, gltfLoaderAvailable,
      threeAvailable, may_poll;
    repeat case_match; simplify_eq; project; frame_tables.
Qed.

Ltac log_tables :=
  project; rewrite <- ?app_assoc;
  eexists; (split; [reflexivity|]);
  repeat first [apply Forall_nil_2 | apply Forall_cons_2];
  unfold obs_for; cbn [obs_job]; try (split; [done|]); try done.

Lemma attempt_log j0 s :
  ∃ l, log (attempt j0 s) = log s ++ l ∧ Forall (obs_for j0 s) l.
Proof.
  destruct j0; unfold_handlers; repeat case_match;
    try (exists []; split; [by rewrite app_nil_r|constructor]);
    log_tables.
  by match goal with H : mtasks _ !! _ = Some _ |- _ => rewrite H end.
Qed.

Lemma resume_log k r s :
  ∃ l, log (resume k r s) = log s ++ l ∧ Forall (obs_for (job_of k) s) l.
Proof.
  destruct k; unfold_handlers; repeat case_match;
    try (exists []; split; [by rewrite app_nil_r|constructor]);
    log_tables.
Qed.

Lemma foldr_clearTimeout_frame hs s : frame s (foldr clearTimeout s hs).
Proof.
  induction hs as [|h hs IH]; [apply frame_refl|]. simpl.
  unfold clearTimeout at 1. destruct IH as (Hh & Hm & Hl & Hw).
  unfold frame. project. done.
Qed.

Lemma foldr_clearTimeout_log hs s : log (foldr clearTimeout s hs) = log s.
Proof. induction hs as [|h hs IH]; [done|]. simpl. by unfold clearTimeout. Qed.

Lemma foldr_clearTimeout_cache hs s : cache (foldr clearTimeout s hs) = cache s.
Proof. induction hs as [|h hs IH]; [done|]. simpl. by unfold clearTimeout. Qed.

(** What [loadModel] does when it does not answer from the cache. *)
Lemma loadModel_fresh id opts s :
  threeAvailable s = true →
  (∀ e, cache s !! cacheKey id = Some e → ce_loaded e = false) →
  let g := nextObject s in
  let p := S (nextObject s) in
  let t := {| m_id := id; m_group := g; m_placeholder := Some p;
              m_poll := default true (opt_poll opts);
              m_pollInterval := or_default (opt_pollInterval opts) 5000;
              m_maxPollTime := or_default (opt_maxPollTime opts) 300000;
              m_startTime := now s |} in
  loadModel id opts s
  = (Some g,
     await (AwaitModel (length (mtasks s)))
       (emit (FetchModel (now s) (length (mtasks s)) id)
          (upd_mtasks (λ l, l ++ [t])
             (upd_cache <[cacheKey id := model_entry g false]>
                (attach p g (upd_nextObject S (upd_nextObject S s))))))).
Proof.
  intros H3 Hc. unfold loadModel, createPlaceholderBox, _startModelLoad, attemptModel,
    newObject.
  rewrite H3. cbn [negb]. unfold threeAvailable in *. project. rewrite H3. project.
  rewrite list_lookup_middle by done.
  destruct (cache s !! cacheKey id) as [e|] eqn:He; [|done].
  specialize (Hc e eq_refl). destruct e as [g' l' d' r']. simpl in Hc. by subst.
Qed.

Lemma loadModel_cached id opts s e :
  threeAvailable s = true →
  cache s !! cacheKey id = Some e → ce_loaded e = true →
  loadModel id opts s = (ce_group e, s).
Proof.
  intros H3 He Hl. unfold loadModel. rewrite H3, He. destruct e; simpl in *. by subst.
Qed.

Lemma loadModel_cases id opts s :
  (loadModel id opts s).2 = s
  ∨ ∃ t s1, m_id t = id ∧ mtasks s1 = mtasks s ++ [t] ∧ host s1 = host s
            ∧ wtasks s1 = wtasks s ∧ timers s1 = timers s ∧ inflight s1 = inflight s
            ∧ log s1 = log s
            ∧ (loadModel id opts s).2 = attempt (ModelJob (length (mtasks s))) s1.
Proof.
  destruct (threeAvailable s) eqn:H3; [|left; unfold loadModel; by rewrite H3].
  assert (Hfresh : (∀ e, cache s !! cacheKey id = Some e → ce_loaded e = false) →
    ∃ t s1, m_id t = id ∧ mtasks s1 = mtasks s ++ [t] ∧ host s1 = host s
            ∧ wtasks s1 = wtasks s ∧ timers s1 = timers s ∧ inflight s1 = inflight s
            ∧ log s1 = log s
            ∧ (loadModel id opts s).2 = attempt (ModelJob (length (mtasks s))) s1).
  { intros Hc. rewrite loadModel_fresh by done.
    set (t := {| m_id := id; m_group := nextObject s |}).
    exists t.
    exists (upd_mtasks (λ l, l ++ [t])
              (upd_cache <[cacheKey id := model_entry (nextObject s) false]>
                 (attach (S (nextObject s)) (nextObject s)
                    (upd_nextObject S (upd_nextObject S s))))).
    repeat (split; [done|]).
    cbn [snd attempt]. unfold attemptModel, attach. project.
    by rewrite list_lookup_middle. }
  destruct (cache s !! cacheKey id) as [e|] eqn:He; [|right; apply Hfresh; naive_solver].
  destruct (ce_loaded e) eqn:Hl.
  - left. by rewrite (loadModel_cached _ _ _ e).
  - right. apply Hfresh. naive_solver.
Qed.

Lemma loadWorld_cases id opts s :
  (loadWorld id opts s).2 = s
  ∨ ∃ w s1, w_id w = id ∧ w_resolved w = false ∧ w_promise w = Pending
            ∧ wtasks s1 = wtasks s ++ [w] ∧ host s1 = host s
            ∧ mtasks s1 = mtasks s ∧ timers s1 = timers s ∧ inflight s1 = inflight s
            ∧ log s1 = log s ∧ cache s1 = cache s
            ∧ (loadWorld id opts s).2 = attempt (WorldJob (length (wtasks s))) s1.
Proof.
  unfold loadWorld.
  destruct (cache s !! worldKey id) as [[g l d [|]]|] eqn:He; [by left|..];
    right; eexists _, _; (split; [|split; [|split; [|split; [|split; [|split;
      [|split; [|split; [|split; [|split]]]]]]]]]); last first;
    try (cbn [snd attempt]; reflexivity); done.
Qed.

End Handlers.

(** ** One turn of the loop *)

Section Steps.

Implicit Types (s : state) (j : job) (e : event).

Lemma cancelAllPolls_frame s : frame s (call (cancelAllPolls s) s).
Proof.
  apply call_cancelAllPolls; [apply frame_refl|].
  destruct (foldr_clearTimeout_frame (map_to_list (activePolls s)).*2 s)
    as (Hh & Hm & Hl & Hw).
  unfold frame. by project.
Qed.

Lemma clearCache_frame s : frame s (call (clearCache s) s).
Proof.
  apply call_clearCache; [apply frame_refl|].
  destruct (foldr_clearTimeout_frame (map_to_list (activePolls s)).*2 s)
    as (Hh & Hm & Hl & Hw).
  unfold frame. by project.
Qed.

Lemma settle_wtask_resolved p w : w_resolved (settle_wtask p w) = true.
Proof. done. Qed.

Lemma frame_trans s1 s2 s3 : frame s1 s2 → frame s2 s3 → frame s1 s3.
Proof.
  intros (Hh & Hm & Hl & Hw) (Hh' & Hm' & Hl' & Hw').
  unfold frame. rewrite Hh', Hm', Hl'. repeat split; try done.
  intros wid w Hlk. destruct (Hw wid w Hlk) as [Hlk1|(Hr & p & Hp & Hlk1)].
  - apply Hw', Hlk1.
  - destruct (Hw' _ _ Hlk1) as [Hlk2|(Hr2 & _)]; [|done]. right. eauto.
Qed.

(** A turn of the loop leaves the host as it is, keeps every closure, and
    creates at most one task. *)
Lemma step_frame e s s' :
  step e s = Some s' →
  frame s s'
  ∨ (∃ id opts t, e = CallLoadModel id opts ∧ m_id t = id
       ∧ host s' = host s ∧ mtasks s' = mtasks s ++ [t] ∧ wtasks s' = wtasks s)
  ∨ (∃ id opts w, e = CallLoadWorld id opts ∧ w_id w = id
       ∧ w_promise w = Pending ∧ w_resolved w = false
       ∧ host s' = host s ∧ mtasks s' = mtasks s ∧ wtasks s' = wtasks s ++ [w]).
Proof.
  destruct e; simpl; intros Hstep; simplify_eq.
  - destruct (loadModel_cases id opts s) as [->|(t & s1 & Hid & Hm & Hh & Hw & _ & _ & _ & ->)];
      [left; apply frame_refl|].
    right; left. exists id, opts, t.
    destruct (attempt_frame (ModelJob (length (mtasks s))) s1) as (Hh' & Hm' & Hl' & Hw').
    repeat split; try congruence.
    revert Hw'. unfold attempt, attemptModel. repeat case_match; by project.
  - destruct (loadWorld_cases id opts s)
      as [->|(w & s1 & Hid & Hr & Hp & Hw & Hh & Hm & _ & _ & _ & _ & ->)];
      [left; apply frame_refl|].
    right; right. exists id, opts, w.
    destruct (attempt_frame (WorldJob (length (wtasks s))) s1) as (Hh' & Hm' & Hl' & Hw').
    repeat split; try congruence.
    unfold attempt, attemptWorld. repeat case_match; by project.
  - left. unfold cancelPoll, clearTimeout. case_match; apply frame_same; done.
  - left. apply cancelAllPolls_frame.
  - left. apply clearCache_frame.
  - left. by apply frame_same.
  - left. by apply frame_same.
  - left. case_match; simplify_eq. by apply frame_same.
  - left. repeat case_match; simplify_eq.
    eapply frame_trans; [|apply attempt_frame]. by apply frame_same.
  - left. repeat case_match; simplify_eq.
    eapply frame_trans; [|apply resume_frame]. by apply frame_same.
Qed.

Lemma step_host e s s' : step e s = Some s' → host s' = host s.
Proof.
  intros Hstep. destruct (step_frame _ _ _ Hstep) as [(Hh & _)|[H|H]]; naive_solver.
Qed.

Lemma step_mtasks e s s' :
  step e s = Some s' →
  mtasks s' = mtasks s
  ∨ ∃ id opts t, e = CallLoadModel id opts ∧ m_id t = id ∧ mtasks s' = mtasks s ++ [t].
Proof.
  intros Hstep. destruct (step_frame _ _ _ Hstep) as [(_ & Hm & _)|[H|H]]; naive_solver.
Qed.

Lemma step_mtasks_lookup e s s' tid t :
  step e s = Some s' → mtasks s !! tid = Some t → mtasks s' !! tid = Some t.
Proof.
  intros Hstep Hl. destruct (step_mtasks _ _ _ Hstep) as [->|(? & ? & ? & _ & _ & ->)];
    [done|]. by apply lookup_app_l_Some.
Qed.

Lemma step_wtasks e s s' wid w :
  step e s = Some s' → wtasks s !! wid = Some w →
  wtasks s' !! wid = Some w
  ∨ (w_resolved w = false
     ∧ ∃ p, p ≠ Pending ∧ wtasks s' !! wid = Some (settle_wtask p w)).
Proof.
  intros Hstep Hl.
  destruct (step_frame _ _ _ Hstep)
    as [(_ & _ & _ & Hw)|[(? & ? & ? & _ & _ & _ & _ & Hw)|(? & ? & ? & _ & _ & _ & _ & _ & _ & Hw)]].
  - auto.
  - left. by rewrite Hw.
  - left. rewrite Hw. by apply lookup_app_l_Some.
Qed.

Lemma step_known e s s' j : step e s = Some s' → known j s → known j s'.
Proof.
  intros Hstep. destruct j as [tid|wid]; simpl.
  - destruct (step_mtasks _ _ _ Hstep) as [->|(? & ? & ? & _ & _ & ->)]; [done|].
    rewrite length_app. lia.
  - intros Hk. destruct (lookup_lt_is_Some_2 _ _ Hk) as [w Hw].
    destruct (step_wtasks _ _ _ _ _ Hstep Hw) as [Hw'|(_ & p & _ & Hw')];
      by eapply lookup_lt_Some.
Qed.

Lemma obs_for_mtasks j0 s s' o :
  mtasks s' = mtasks s → obs_for j0 s o → obs_for j0 s' o.
Proof. unfold obs_for. by intros ->. Qed.

(** Whatever a turn of the loop reports, it reports for the task the turn
    runs for. *)
Lemma step_log e s s' :
  step e s = Some s' →
  ∃ l, log s' = log s ++ l
       ∧ Forall (λ o, ∃ j0, event_job e s = Some j0 ∧ obs_for j0 s' o) l.
Proof.
  assert (Hnil : ∀ (P : obs → Prop) s0, log s0 = log s →
            ∃ l, log s0 = log s ++ l ∧ Forall P l).
  { intros P s0 ->. exists []. by rewrite app_nil_r. }
  destruct e; simpl; intros Hstep; simplify_eq.
  - destruct (loadModel_cases id opts s)
      as [->|(t & s1 & Hid & Hm & Hh & Hw & _ & _ & Hl & ->)]; [by apply Hnil|].
    destruct (attempt_log (ModelJob (length (mtasks s))) s1) as (l & -> & Hall).
    exists l. rewrite Hl. split; [done|].
    eapply Forall_impl; [done|]. intros o Ho. eexists; split; [done|].
    eapply obs_for_mtasks; [|done]. apply attempt_frame.
  - destruct (loadWorld_cases id opts s)
      as [->|(w & s1 & Hid & Hr & Hp & Hw & Hh & Hm & _ & _ & Hl & _ & ->)];
      [by apply Hnil|].
    destruct (attempt_log (WorldJob (length (wtasks s))) s1) as (l & -> & Hall).
    exists l. rewrite Hl. split; [done|].
    eapply Forall_impl; [done|]. intros o Ho. eexists; split; [done|].
    eapply obs_for_mtasks; [|done]. apply attempt_frame.
  - apply Hnil. unfold cancelPoll, clearTimeout. by case_match.
  - apply Hnil. apply call_cancelAllPolls; [done|]. project. apply foldr_clearTimeout_log.
  - apply Hnil. apply call_clearCache; [done|]. project. apply foldr_clearTimeout_log.
  - by apply Hnil.
  - by apply Hnil.
  - case_match; simplify_eq. by apply Hnil.
  - destruct (assoc h (timers s)) as [[due j0]|] eqn:Ha; [|done].
    case_match; simplify_eq.
    destruct (attempt_log j0 (clearTimeout h s)) as (l & -> & Hall).
    exists l. split; [done|].
    eapply Forall_impl; [done|]. intros o Ho. eexists; split; [done|].
    eapply obs_for_mtasks; [|done]. apply attempt_frame.
  - destruct (assoc p (inflight s)) as [k|] eqn:Ha; [|done]. simplify_eq.
    destruct (resume_log k r (upd_inflight (remove_key p) s)) as (l & -> & Hall).
    exists l. split; [done|].
    eapply Forall_impl; [done|]. intros o Ho. eexists; split; [done|].
    eapply obs_for_mtasks; [|done]. apply resume_frame.
Qed.

Lemma timer_outstanding h due j s :
  assoc h (timers s) = Some (due, j) → 0 < outstanding j s.
Proof. intros Ha. pose proof (clearTimeout_fired h due j s Ha). lia. Qed.

Lemma promise_outstanding p k s :
  assoc p (inflight s) = Some k → 0 < outstanding (job_of k) s.
Proof. intros Ha. pose proof (settled_resumed p k s Ha). lia. Qed.

(** The task a turn runs for is one with an attempt under way, or the one
    the turn creates. *)
Lemma event_job_cases e s j :
  event_job e s = Some j → 0 < outstanding j s ∨ new_job e s = Some j.
Proof.
  destruct e; simpl; try done; auto.
  - destruct (assoc h (timers s)) as [[due j0]|] eqn:Ha; [|done].
    intros [= <-]. left. by eapply timer_outstanding.
  - destruct (assoc p (inflight s)) as [k|] eqn:Ha; [|done].
    intros [= <-]. left. by eapply promise_outstanding.
Qed.

Lemma new_job_unknown e s j : new_job e s = Some j → ¬ known j s.
Proof. destruct e; simpl; try done; intros [= <-]; simpl; lia. Qed.

Lemma step_tables_known e s s' :
  tables_known s → step e s = Some s' → tables_known s'.
Proof.
  intros Hk Hstep j Hpos.
  pose proof (step_outstanding e s s' j Hstep) as Hle.
  destruct (decide (0 < outstanding j s)) as [Hold|Hnone].
  { eapply step_known; eauto. }
  case_decide as Hnew; [|lia].
  destruct e; simpl in Hnew; simplify_eq; simpl in Hstep; simplify_eq.
  - destruct (loadModel_cases id opts s)
      as [Heq|(t & s1 & Hid & Hm & Hh & Hw & _ & _ & Hl & Heq)];
      rewrite Heq in *; [lia|].
    unfold known. destruct (attempt_frame (ModelJob (length (mtasks s))) s1) as (_ & -> & _).
    rewrite Hm, length_app. simpl. lia.
  - destruct (loadWorld_cases id opts s)
      as [Heq|(w & s1 & Hid & Hr & Hp & Hw & Hh & Hm & _ & _ & Hl & _ & Heq)];
      rewrite Heq in *; [lia|].
    unfold known. destruct (attempt_frame (WorldJob (length (wtasks s))) s1) as (_ & _ & -> & _).
    rewrite Hw, length_app. simpl. lia.
Qed.

Lemma step_sequential e s s' :
  tables_known s → sequential s → step e s = Some s' → sequential s'.
Proof.
  intros Hk Hseq Hstep j.
  pose proof (step_outstanding e s s' j Hstep) as Hle.
  case_decide as Hnew; [|specialize (Hseq j); lia].
  apply new_job_unknown in Hnew.
  destruct (decide (0 < outstanding j s)) as [Hold|Hnone]; [by apply Hk in Hold|lia].
Qed.

(** A task with no attempt under way stays that way, and nothing more is
    reported for it. *)
Lemma step_idle e s s' j :
  known j s → outstanding j s = 0 → step e s = Some s' →
  outstanding j s' = 0
  ∧ ∃ l, log s' = log s ++ l ∧ Forall (λ o, obs_job o ≠ j) l.
Proof.
  intros Hk Hidle Hstep. split.
  - pose proof (step_outstanding e s s' j Hstep) as Hle.
    case_decide as Hnew; [by apply new_job_unknown in Hnew|lia].
  - destruct (step_log _ _ _ Hstep) as (l & Hl & Hall). exists l. split; [done|].
    eapply Forall_impl; [done|]. intros o (j0 & Hj0 & <- & _) <-.
    destruct (event_job_cases _ _ _ Hj0) as [Hpos|Hnew]; [lia|].
    by apply new_job_unknown in Hnew.
Qed.

End Steps.

(** ** Runs *)

Section Runs.

Implicit Types (s : state) (trace : list event).

Lemma run_invariant (P : state → Prop) trace s s' :
  (∀ e s1 s2, P s1 → step e s1 = Some s2 → P s2) →
  P s → run trace s = Some s' → P s'.
Proof.
  intros Hstep. revert s. induction trace as [|e rest IH]; intros s HP; simpl.
  - by intros [= <-].
  - destruct (step e s) as [s1|] eqn:He; [|done]. eauto.
Qed.

Lemma init_tables_known h t0 : tables_known (init h t0).
Proof. intros j. unfold outstanding, pending_timers, pending_promises. simpl. lia. Qed.

Lemma init_sequential h t0 : sequential (init h t0).
Proof. intros j. unfold outstanding, pending_timers, pending_promises. simpl. lia. Qed.

Lemma run_tables h t0 trace s :
  run trace (init h t0) = Some s → tables_known s ∧ sequential s.
Proof.
  apply (run_invariant (λ s, tables_known s ∧ sequential s)).
  - intros e s1 s2 [Hk Hs] Hstep. split.
    + by eapply step_tables_known.
    + by eapply step_sequential.
  - split; [apply init_tables_known|apply init_sequential].
Qed.

(** *** The cache *)

Lemma cacheKey_inj id id' : cacheKey id = cacheKey id' → id = id'.
Proof. unfold cacheKey. intros Heq. cbn in Heq. by injection Heq. Qed.

Lemma cacheKey_worldKey id id' : cacheKey id ≠ worldKey id'.
Proof. unfold cacheKey, worldKey. intros Heq. cbn in Heq. discriminate. Qed.

Lemma attempt_cache j s : cache (attempt j s) = cache s.
Proof. destruct j; unfold_handlers; by repeat case_match. Qed.

(** A reaction leaves the record under a model key alone, or marks it
    loaded. *)
Lemma resume_model_cache k r s id :
  cache (resume k r s) !! cacheKey id = cache s !! cacheKey id
  ∨ ∃ e, cache s !! cacheKey id = Some e
         ∧ cache (resume k r s) !! cacheKey id = Some (set_loaded e).
Proof.
  destruct k; unfold_handlers; repeat case_match; simplify_eq; project;
    rewrite ?lookup_insert_ne by (apply not_eq_sym, cacheKey_worldKey);
    try (by left);
    (destruct (decide (cacheKey (m_id m) = cacheKey id)) as [Heq|Hne];
       [right; rewrite <- Heq, lookup_insert_eq; eauto
       |left; by rewrite lookup_insert_ne]).
Qed.

Lemma step_model_cache e s s' id :
  step e s = Some s' →
  cache s' !! cacheKey id = cache s !! cacheKey id
  ∨ (e = CallClearCache ∧ cache s' = ∅)
  ∨ (∃ opts g, e = CallLoadModel id opts ∧ threeAvailable s = true
        ∧ (∀ en, cache s !! cacheKey id = Some en → ce_loaded en = false)
        ∧ cache s' !! cacheKey id = Some (model_entry g false))
  ∨ (∃ en, cache s !! cacheKey id = Some en
        ∧ cache s' !! cacheKey id = Some (set_loaded en)).
Proof.
  destruct e; simpl; intros Hstep; simplify_eq.
  - destruct (threeAvailable s) eqn:H3; [|left; unfold loadModel; by rewrite H3].
    assert (Hfresh : (∀ en, cache s !! cacheKey id0 = Some en → ce_loaded en = false) →
      cache (loadModel id0 opts s).2 !! cacheKey id = cache s !! cacheKey id
      ∨ (CallLoadModel id0 opts = CallClearCache ∧ cache (loadModel id0 opts s).2 = ∅)
      ∨ (∃ opts' g, CallLoadModel id0 opts = CallLoadModel id opts'
            ∧ true = true
            ∧ (∀ en, cache s !! cacheKey id = Some en → ce_loaded en = false)
            ∧ cache (loadModel id0 opts s).2 !! cacheKey id = Some (model_entry g false))
      ∨ (∃ en, cache s !! cacheKey id = Some en
            ∧ cache (loadModel id0 opts s).2 !! cacheKey id = Some (set_loaded en))).
    { intros Hfresh. rewrite loadModel_fresh by done.
      cbn [snd]. unfold await, emit, attach. project.
      destruct (decide (id0 = id)) as [->|Hne].
      * right; right; left. eexists _, _. rewrite lookup_insert_eq. eauto.
      * left. rewrite lookup_insert_ne; [done|]. intros Heq. by apply cacheKey_inj in Heq. }
    destruct (cache s !! cacheKey id0) as [en|] eqn:Hen; [|apply Hfresh; naive_solver].
    destruct (ce_loaded en) eqn:Hl; [left; by rewrite (loadModel_cached _ _ _ en)|].
    apply Hfresh. naive_solver.
  - left. destruct (loadWorld_cases id0 opts s)
      as [->|(w & s1 & _ & _ & _ & _ & _ & _ & _ & _ & _ & Hc & ->)]; [done|].
    by rewrite attempt_cache, Hc.
  - left. unfold cancelPoll, clearTimeout. by case_match.
  - left. apply call_cancelAllPolls; [done|]. project. by rewrite foldr_clearTimeout_cache.
  - apply call_clearCache; [by left|]. right; left. done.
  - by left.
  - by left.
  - case_match; simplify_eq. by left.
  - repeat case_match; simplify_eq. left. by rewrite attempt_cache.
  - destruct (assoc p (inflight s)) as [k|] eqn:Ha; [|done]. simplify_eq.
    destruct (resume_model_cache k r (upd_inflight (remove_key p) s) id) as [->|Hset];
      [by left|]. right; right; right. done.
Qed.

Lemma step_model_cache_ok e s s' :
  model_cache_ok s → step e s = Some s' → model_cache_ok s'.
Proof.
  intros Hok Hstep id e' He'. unfold threeAvailable in *.
  rewrite (step_host _ _ _ Hstep).
  destruct (step_model_cache e s s' id Hstep)
    as [Heq|[[_ Hemp]|[(opts & g & _ & H3 & _ & Hnew)|(en & Hen & Hset)]]].
  - rewrite Heq in He'. by eapply Hok.
  - by rewrite Hemp in He'.
  - rewrite Hnew in He'. injection He' as <-. split; [done|]. by eexists.
  - rewrite Hset in He'. injection He' as <-.
    destruct (Hok _ _ Hen) as [H3 Hg]. split; [done|]. by destruct en.
Qed.

Lemma run_model_cache_ok h t0 trace s :
  run trace (init h t0) = Some s → model_cache_ok s.
Proof.
  apply (run_invariant model_cache_ok).
  - intros e s1 s2. apply step_model_cache_ok.
  - intros id e He. cbn [init cache] in He. by rewrite lookup_empty in He.
Qed.

(** A loaded record stays loaded, with its container, until the cache is
    cleared. *)
Lemma step_loaded e s s' id en :
  e ≠ CallClearCache → step e s = Some s' →
  cache s !! cacheKey id = Some en → ce_loaded en = true →
  ∃ en', cache s' !! cacheKey id = Some en' ∧ ce_loaded en' = true
         ∧ ce_group en' = ce_group en.
Proof.
  intros Hne Hstep Hen Hl.
  destruct (step_model_cache e s s' id Hstep)
    as [Heq|[[-> _]|[(opts & g & _ & _ & Hfresh & _)|(en0 & Hen0 & Hset)]]].
  - exists en. by rewrite Heq.
  - done.
  - specialize (Hfresh _ Hen). congruence.
  - simplify_eq. exists (set_loaded en). by destruct en.
Qed.

Lemma run_loaded trace s s' id en :
  no_clearCache trace = true → run trace s = Some s' →
  cache s !! cacheKey id = Some en → ce_loaded en = true →
  ∃ en', cache s' !! cacheKey id = Some en' ∧ ce_loaded en' = true
         ∧ ce_group en' = ce_group en.
Proof.
  revert s en. induction trace as [|e rest IH]; intros s en Hno; simpl.
  - intros [= <-] Hen Hl. by exists en.
  - destruct (step e s) as [s1|] eqn:He; [|done]. intros Hrun Hen Hl.
    simpl in Hno. apply andb_prop in Hno as [Hne Hno].
    destruct (step_loaded e s s1 id en) as (en1 & Hen1 & Hl1 & Hg1); try done.
    { by intros ->. }
    destruct (IH s1 en1 Hno Hrun Hen1 Hl1) as (en' & Hen' & Hl' & Hg').
    exists en'. split; [done|]. split; [done|]. congruence.
Qed.

(** *** The promise of a world task *)

Lemma step_flag_tracks_promise e s s' :
  flag_tracks_promise s → step e s = Some s' → flag_tracks_promise s'.
Proof.
  intros Hflag Hstep wid w' Hw'.
  assert (Hold : ∀ w, wtasks s !! wid = Some w →
            w_resolved w' = false ↔ w_promise w' = Pending).
  { intros w Hw. destruct (step_wtasks _ _ _ _ _ Hstep Hw) as [Heq|(Hr & p & Hp & Heq)];
      rewrite Heq in Hw'; injection Hw' as <-; [by apply (Hflag wid)|].
    apply (Hflag wid) in Hr; [|done]. simpl. rewrite Hr. done. }
  destruct (step_frame _ _ _ Hstep)
    as [(_ & _ & Hlen & _)|[(? & ? & ? & _ & _ & _ & _ & Hw)
       |(? & ? & w0 & _ & _ & Hp0 & Hr0 & _ & _ & Hw)]].
  - destruct (lookup_lt_is_Some_2 (wtasks s) wid) as [w Hw]; [|by eapply Hold].
    rewrite <- Hlen. by eapply lookup_lt_Some.
  - rewrite Hw in Hw'. by eapply Hold.
  - rewrite Hw in Hw'. apply lookup_app_Some in Hw' as [Hw'|[_ Hw']]; [by eapply Hold|].
    apply list_lookup_singleton_Some in Hw' as [_ <-]. by rewrite Hp0, Hr0.
Qed.

Lemma run_flag_tracks_promise h t0 trace s :
  run trace (init h t0) = Some s → flag_tracks_promise s.
Proof.
  apply (run_invariant flag_tracks_promise).
  - intros e s1 s2. apply step_flag_tracks_promise.
  - intros wid w Hw. done.
Qed.

(** A settled promise keeps its outcome. *)
Lemma run_settled trace s s' wid w :
  flag_tracks_promise s → wtasks s !! wid = Some w → w_promise w ≠ Pending →
  run trace s = Some s' → wtasks s' !! wid = Some w.
Proof.
  revert s. induction trace as [|e rest IH]; intros s Hflag Hw Hp; simpl.
  - by intros [= <-].
  - destruct (step e s) as [s1|] eqn:He; [|done]. intros Hrun.
    eapply (IH s1); try done; [by eapply step_flag_tracks_promise|].
    destruct (step_wtasks _ _ _ _ _ He Hw) as [Heq|(Hr & _)]; [done|].
    by apply (Hflag wid) in Hr.
Qed.

Lemma cancelPoll_wtasks key s : wtasks (cancelPoll key s) = wtasks s.
Proof. unfold cancelPoll, clearTimeout. by case_match. Qed.

Lemma cancelPoll_timers key s x : x ∈ timers (cancelPoll key s) → x ∈ timers s.
Proof.
  unfold cancelPoll, clearTimeout. case_match; [|done]. project.
  apply elem_of_remove_key.
Qed.

Lemma settle_timers wid p s : timers (settle wid p s) = timers s.
Proof. unfold settle. by repeat case_match. Qed.

Lemma settle_log wid p s : log (settle wid p s) = log s.
Proof. unfold settle. by repeat case_match. Qed.

Lemma promise_of_settle wid p s w :
  wtasks s !! wid = Some w → w_resolved w = false → w_promise w = Pending →
  promise_of wid (settle wid p s) = Some p.
Proof.
  intros Hw Hr Hp. unfold promise_of, settle. rewrite Hw, Hr. project.
  rewrite list_lookup_insert_eq by (by eapply lookup_lt_Some).
  simpl. by rewrite Hp.
Qed.

Lemma schedule_timers key j d s :
  timers (schedule key j d s)
  = timers s ++ [(nextTimer s, ((now s + Z.max 0 d)%Z, j))].
Proof. done. Qed.

Lemma schedule_wtasks key j d s : wtasks (schedule key j d s) = wtasks s.
Proof. done. Qed.

Lemma get_or_obj o k d :
  get_or (JObj o) k d = Ok (if truthy (prop o k) then prop o k else d).
Proof. unfold get_or, js_or, prop. simpl. by case_match. Qed.

(** On a descriptor object the world result is always produced. *)
Lemma worldResultOf_obj id o :
  worldResultOf id (JObj o)
  = Ok {| worldId := id;
          splatUrl := first_present (fields_of (prop o "splatFiles")) splat_ranks;
          splats := {| lowRes := tier (fields_of (prop o "splatFiles")) "lowRes";
                       mediumRes := tier (fields_of (prop o "splatFiles")) "mediumRes";
                       highRes := tier (fields_of (prop o "splatFiles")) "highRes" |};
          panoramaUrl := tier o "panoMedia";
          thumbnailUrl := tier o "thumbnailMedia";
          colliderMeshUrl := tier o "colliderMesh";
          inputImages := if truthy (prop o "inputImages") then prop o "inputImages"
                         else JArr [];
          caption := if truthy (prop o "caption") then prop o "caption" else JNull;
          displayName := if truthy (prop o "displayName") then prop o "displayName"
                         else JNull;
          status := if truthy (prop o "status") then prop o "status" else JNull;
          raw := JObj o |}.
Proof.
  unfold worldResultOf.
  rewrite resolveSplatUrl_obj, resolveAllSplatUrls_obj, !url_or_null_obj, !get_or_obj.
  reflexivity.
Qed.

(** *** The swap *)

Lemma swaps_of_app tid l1 l2 :
  swaps_of tid (l1 ++ l2) = swaps_of tid l1 ++ swaps_of tid l2.
Proof. apply omap_app. Qed.

Lemma attempt_swaps j s tid : swaps_of tid (log (attempt j s)) = swaps_of tid (log s).
Proof.
  destruct j; unfold_handlers; repeat case_match; project;
    rewrite ?swaps_of_app; cbn; by rewrite ?app_nil_r.
Qed.

(** A reaction that reports a swap starts no further attempt. *)
Lemma resume_swaps k r s tid :
  swaps_of tid (log (resume k r s)) = swaps_of tid (log s)
  ∨ (job_of k = ModelJob tid ∧ ∀ j, outstanding j (resume k r s) ≤ outstanding j s).
Proof.
  destruct k as [tid'|tid' d url|wid]; unfold_handlers; repeat case_match;
    simplify_eq; project; rewrite ?swaps_of_app;
    try (left; cbn; by rewrite ?app_nil_r).
  all: destruct (decide (tid' = tid)) as [->|Hne];
    [right; split; [done|]; intros j; count_tables|left].
  all: unfold swaps_of at 2 3; cbn; rewrite decide_False by done;
    by rewrite ?app_nil_r.
Qed.

Lemma step_swaps e s s' tid :
  step e s = Some s' →
  swaps_of tid (log s') = swaps_of tid (log s)
  ∨ outstanding (ModelJob tid) s' < outstanding (ModelJob tid) s.
Proof.
  intros Hstep. destruct e; simpl in Hstep; simplify_eq;
    try (destruct (step_log _ _ _ Hstep)).
  - left. destruct (loadModel_cases id opts s)
      as [->|(t & s1 & _ & _ & _ & _ & _ & _ & Hl & ->)]; [done|].
    by rewrite attempt_swaps, Hl.
  - left. destruct (loadWorld_cases id opts s)
      as [->|(w & s1 & _ & _ & _ & _ & _ & _ & _ & _ & Hl & _ & ->)]; [done|].
    by rewrite attempt_swaps, Hl.
  - left. unfold cancelPoll, clearTimeout. by case_match.
  - left. apply call_cancelAllPolls; [done|]. project. by rewrite foldr_clearTimeout_log.
  - left. apply call_clearCache; [done|]. project. by rewrite foldr_clearTimeout_log.
  - by left.
  - by left.
  - case_match; simplify_eq. by left.
  - repeat case_match; simplify_eq. left. by rewrite attempt_swaps.
  - destruct (assoc p (inflight s)) as [k|] eqn:Ha; [|done]. simplify_eq.
    destruct (resume_swaps k r (upd_inflight (remove_key p) s) tid) as [->|[Hk Hle]];
      [by left|]. right.
    pose proof (settled_resumed p k s Ha). rewrite Hk in *.
    specialize (Hle (ModelJob tid)). lia.
Qed.

Lemma step_swapped_at_rest e s s' :
  tables_known s → sequential s → swapped_at_rest s →
  step e s = Some s' → swapped_at_rest s'.
Proof.
  intros Hk Hseq Hsw Hstep tid Hne.
  destruct (step_swaps e s s' tid Hstep) as [Heq|Hlt].
  - rewrite Heq in Hne. destruct (Hsw tid Hne) as [Hkn Hidle].
    split; [by eapply step_known|]. by eapply step_idle.
  - split.
    + eapply step_known; [done|]. apply Hk. lia.
    + specialize (Hseq (ModelJob tid)). lia.
Qed.

Lemma run_swapped_at_rest h t0 trace s :
  run trace (init h t0) = Some s → swapped_at_rest s.
Proof.
  intros Hrun.
  cut (tables_known s ∧ sequential s ∧ swapped_at_rest s); [tauto|].
  revert Hrun.
  apply (run_invariant (λ s, tables_known s ∧ sequential s ∧ swapped_at_rest s)).
  - intros e s1 s2 (Hk & Hs & Hsw) Hstep. split; [|split].
    + by eapply step_tables_known.
    + by eapply step_sequential.
    + by eapply step_swapped_at_rest.
  - split; [apply init_tables_known|]. split; [apply init_sequential|].
    intros tid Hne. by destruct Hne.
Qed.

(** What the swap does when the cache record is there. *)
Lemma onSceneLoaded_swap tid t d s en :
  cache s !! cacheKey (m_id t) = Some en →
  onSceneLoaded tid t d s
  = emit (Swap tid (nextObject s) d)
      (cancelPoll (m_id t)
         (upd_cache <[cacheKey (m_id t) := set_loaded en]>
            (upd_buuModelData <[m_group t := d]>
               (upd_parent (λ _, <[nextObject s := m_group t]> (without_placeholder t s).1)
                  (upd_disposed (λ _, (without_placeholder t s).2)
                     (upd_nextObject S s)))))).
Proof.
  intros Hen. unfold onSceneLoaded, without_placeholder, newObject, attach, detach, dispose.
  destruct (m_placeholder t) as [ph|]; project.
  - destruct (decide (parent s !! ph = Some (m_group t))); project; by rewrite Hen.
  - by rewrite Hen.
Qed.

(** *** Tasks at rest *)

Lemma observed_app j l1 l2 : observed j (l1 ++ l2) = observed j l1 ++ observed j l2.
Proof. apply filter_app. Qed.

Lemma run_idle j trace s s' :
  known j s → outstanding j s = 0 → run trace s = Some s' →
  outstanding j s' = 0 ∧ observed j (log s') = observed j (log s).
Proof.
  revert s. induction trace as [|e rest IH]; intros s Hk Hidle; simpl.
  - by intros [= <-].
  - destruct (step e s) as [s1|] eqn:He; [|done]. intros Hrun.
    destruct (step_idle e s s1 j Hk Hidle He) as (Hidle1 & l & Hl & Hall).
    destruct (IH s1 (step_known _ _ _ _ He Hk) Hidle1 Hrun) as [Hidle' Hobs].
    split; [done|]. rewrite Hobs, Hl, observed_app.
    unfold observed at 2. rewrite (filter_none _ l), app_nil_r; [done|].
    intros o Ho. by eapply Forall_forall in Hall.
Qed.


Lemma fetch_times_app id l1 l2 :
  fetch_times id (l1 ++ l2) = fetch_times id l1 ++ fetch_times id l2.
Proof. apply omap_app. Qed.

Lemma fetch_times_none id l :
  Forall (λ o, ∀ time tid, o ≠ FetchModel time tid id) l → fetch_times id l = [].
Proof.
  induction 1 as [|o l Ho _ IH]; [done|].
  change (o :: l) with ([o] ++ l). rewrite fetch_times_app, IH, app_nil_r. destruct o; try done. unfold fetch_times. simpl.
  case_decide; [|done]. subst. by destruct (Ho time tid).
Qed.

Lemma step_quiet id e s s' :
  quiet id s → (∀ opts, e ≠ CallLoadModel id opts) → step e s = Some s' →
  quiet id s' ∧ fetch_times id (log s') = fetch_times id (log s).
Proof.
  intros Hq Hne Hstep.
  assert (Hold : ∀ tid t, mtasks s' !! tid = Some t → m_id t = id →
                          mtasks s !! tid = Some t).
  { intros tid t Hl Hid.
    destruct (step_mtasks _ _ _ Hstep) as [<-|(id' & opts & t' & -> & Hid' & Hm)]; [done|].
    rewrite Hm in Hl. apply lookup_app_Some in Hl as [Hl|[_ Hl]]; [done|].
    apply list_lookup_singleton_Some in Hl as [_ <-]. subst. by destruct (Hne opts). }
  split.
  - intros tid t Hl Hid. specialize (Hold _ _ Hl Hid).
    eapply step_idle; [| |done]; [by eapply lookup_lt_Some|by eapply Hq].
  - destruct (step_log _ _ _ Hstep) as (l & -> & Hall).
    rewrite fetch_times_app, (fetch_times_none id l), app_nil_r; [done|].
    eapply Forall_impl; [done|]. intros o (j0 & Hj0 & <- & Hwf) time tid ->.
    simpl in *. destruct (mtasks s' !! tid) as [t|] eqn:Hl; [|done].
    simpl in Hwf. injection Hwf as Hid. specialize (Hold _ _ Hl Hid).
    destruct (event_job_cases _ _ _ Hj0) as [Hpos|Hnew].
    + rewrite (Hq _ _ Hold Hid) in Hpos. lia.
    + apply new_job_unknown in Hnew. apply Hnew. simpl. by eapply lookup_lt_Some.
Qed.

Lemma run_quiet id trace s s' :
  quiet id s → no_load_of id trace = true → run trace s = Some s' →
  quiet id s' ∧ fetch_times id (log s') = fetch_times id (log s).
Proof.
  revert s. induction trace as [|e rest IH]; intros s Hq Hno; simpl.
  - by intros [= <-].
  - destruct (step e s) as [s1|] eqn:He; [|done]. intros Hrun.
    simpl in Hno. apply andb_prop in Hno as [Hne Hno].
    destruct (step_quiet id e s s1 Hq) as [Hq1 Hf1]; [|done|].
    { intros opts ->. by rewrite bool_decide_eq_true_2 in Hne. }
    destruct (IH s1 Hq1 Hno Hrun) as [Hq' Hf']. split; [done|congruence].
Qed.

(** Cancelling while every task for the ID waits on the registered timer
    leaves no attempt for the ID under way. *)
Lemma cancelPoll_quiet id s :
  nothing_in_flight id s = true → only_registered_timer id s = true →
  quiet id (cancelPoll id s).
Proof.
  unfold nothing_in_flight, only_registered_timer.
  rewrite !forallb_forall. intros Hfl Htm tid t Hl Hid.
  assert (Hm : mtasks (cancelPoll id s) = mtasks s).
  { unfold cancelPoll, clearTimeout. by case_match. }
  rewrite Hm in Hl.
  assert (Hjob : task_of_id id s (ModelJob tid) = true).
  { simpl. rewrite Hl. simpl. subst. by apply bool_decide_eq_true_2. }
  unfold outstanding, pending_timers, pending_promises.
  assert (Hp : filter (λ p, promise_job p = ModelJob tid) (inflight (cancelPoll id s)) = []).
  { replace (inflight (cancelPoll id s)) with (inflight s)
      by (unfold cancelPoll, clearTimeout; by case_match).
    apply filter_none. intros p Hin Hpj.
    apply list_elem_of_In, Hfl in Hin. rewrite Hpj, Hjob in Hin. done. }
  assert (Ht : filter (λ x, timer_job x = ModelJob tid) (timers (cancelPoll id s)) = []).
  { apply filter_none. intros x Hin Hxj.
    assert (Hin0 : x ∈ timers s).
    { revert Hin. unfold cancelPoll, clearTimeout. case_match; [|done].
      project. apply elem_of_remove_key. }
    pose proof Hin0 as Hreg. apply list_elem_of_In, Htm in Hreg.
    rewrite Hxj, Hjob in Hreg. simpl in Hreg. apply bool_decide_eq_true_1 in Hreg.
    revert Hin. unfold cancelPoll, clearTimeout. rewrite Hreg. project.
    unfold remove_key. rewrite list_elem_of_filter. naive_solver. }
  by rewrite Hp, Ht.
Qed.

End Runs.

(** ** The engine's properties *)

Section Claims.

Implicit Types (s : state) (trace : list event) (j : job).

(** Asking twice for a model that is not loaded yet puts two fetches for it
    in flight; when both come back without mesh two timers are pending for the
    ID, and the Poll Registry holds the second only. *)
Lemma second_loadModel_fetches_again :
  let s := after asked_twice (init page 0) in
  let s' := after both_not_ready s in
  run asked_twice (init page 0) = Some s
  ∧ fetches_in_flight "m" s = 2
  ∧ ¬ fetches_in_flight "m" s ≤ 1
  ∧ fetch_times "m" (log s) = [0; 0]%Z
  ∧ length (mtasks s) = 2
  ∧ run both_not_ready s = Some s'
  ∧ timers s' = [(1%positive, (5000%Z, ModelJob 0)); (2%positive, (5000%Z, ModelJob 1))]
  ∧ activePolls s' !! "m" = Some 2%positive.
Proof.
  cbv zeta.
  assert (Hn : fetches_in_flight "m" (after asked_twice (init page 0)) = 2)
    by (vm_compute; reflexivity).
  split; [vm_compute; reflexivity|]. split; [exact Hn|]. split; [lia|].
  split; [vm_compute; reflexivity|].
  split; [vm_compute; reflexivity|].
  split; [vm_compute; reflexivity|].
  split; vm_compute; reflexivity.
Qed.

(** C1, as the code has it: within one task the attempts are sequential, at
    most one of them (a scheduled timer, a fetch or a load in flight) is
    under way at any time; but every call of loadModel for an ID whose mesh is
    not loaded yet starts a task of its own, with its own container, cache
    record and fetch, whether or not a task for that ID is still running. *)
Theorem attempts_sequential_per_task (h : hostenv) (t0 : Z) trace s :
  run trace (init h t0) = Some s →
  (∀ j, outstanding j s ≤ 1)
  ∧ (∀ id opts,
        threeAvailable s = true →
        (∀ e, cache s !! cacheKey id = Some e → ce_loaded e = false) →
        let s' := (loadModel id opts s).2 in
        (loadModel id opts s).1 = Some (nextObject s)
        ∧ cache s' !! cacheKey id = Some (model_entry (nextObject s) false)
        ∧ (∃ t, m_id t = id ∧ m_group t = nextObject s
                ∧ mtasks s' = mtasks s ++ [t])
        ∧ inflight s' = inflight s ++ [(nextPromise s, AwaitModel (length (mtasks s)))]
        ∧ log s' = log s ++ [FetchModel (now s) (length (mtasks s)) id]).
Proof.
  intros Hrun. split; [by apply (run_tables h t0 trace)|].
  intros id opts H3 Hc. cbv zeta. rewrite loadModel_fresh by done.
  cbn [fst snd]. unfold await, emit, attach. project.
  split; [done|]. split; [by rewrite lookup_insert_eq|].
  split; [|done]. eexists. split; [|split]; [| |reflexivity]; done.
Qed.

(** The rule at work after two calls for the same model. *)
Lemma attempts_sequential_per_task_witness :
  run asked_twice (init page 0) = Some (after asked_twice (init page 0))
  ∧ ∀ j, outstanding j (after asked_twice (init page 0)) ≤ 1.
Proof.
  split; [vm_compute; reflexivity|].
  apply (attempts_sequential_per_task page 0 asked_twice).
  vm_compute; reflexivity.
Defined.

(** With a ceiling of 12000 ms and an interval of 5000 ms the task is still
    polling after its third attempt, and a fourth fetch goes out at 15000. *)
Lemma fourth_attempt_fires :
  let s3 := after three_attempts (init page 0) in
  let s4 := after fourth_attempt s3 in
  run three_attempts (init page 0) = Some s3
  ∧ now s3 = 10000%Z
  ∧ fetch_times "m" (log s3) = [0; 5000; 10000]%Z
  ∧ timers s3 = [(3%positive, (15000%Z, ModelJob 0))]
  ∧ errors_of (ModelJob 0) (log s3) = []
  ∧ run fourth_attempt s3 = Some s4
  ∧ fetch_times "m" (log s4) = [0; 5000; 10000; 15000]%Z
  ∧ fetch_times "m" (log s4) ≠ [0; 5000; 10000]%Z
  ∧ errors_of (ModelJob 0) (log s4) = [MaxPollTimeReached "m"].
Proof.
  cbv zeta.
  assert (H4 : fetch_times "m" (log (after fourth_attempt (after three_attempts (init page 0))))
               = [0; 5000; 10000; 15000]%Z) by (vm_compute; reflexivity).
  split; [vm_compute; reflexivity|].
  split; [vm_compute; reflexivity|].
  split; [vm_compute; reflexivity|].
  split; [vm_compute; reflexivity|].
  split; [vm_compute; reflexivity|].
  split; [vm_compute; reflexivity|].
  split; [exact H4|].
  split; [rewrite H4; discriminate|].
  vm_compute; reflexivity.
Qed.

(** C2, as the code has it: when a descriptor without mesh URL arrives and
    polling is on, the next attempt is scheduled if and only if the time
    elapsed since the task started is, at that moment, under the ceiling;
    otherwise the error callback gets the max-poll-time error.  The time at
    which the next attempt would fire is not compared with the ceiling.  With
    a ceiling of 12000 ms and an interval of 5000 ms, fetches that complete at
    once and timers that fire when due, the task fetches four times, at 0,
    5000, 10000 and 15000, and reports the error after the fourth.  The
    handle of the next attempt is entered in the Poll Registry under the
    model ID (for the one ID __proto__ the registry, a plain object, takes
    no entry and stays as it is). *)
Theorem poll_again_while_under_ceiling (tid : nat) (t : mtask) (d u : jsval) s :
  resolveMeshUrl d = Ok u → truthy u = false → m_poll t = true →
  (if (now s - m_startTime t <? m_maxPollTime t)%Z
   then timers (onModelData tid t d s)
        = timers s ++ [(nextTimer s,
                        ((now s + Z.max 0 (m_pollInterval t))%Z, ModelJob tid))]
        ∧ activePolls (onModelData tid t d s) !! m_id t
          = (if decide (m_id t = "__proto__") then activePolls s !! m_id t
             else Some (nextTimer s))
        ∧ log (onModelData tid t d s) = log s ++ [Progress (ModelJob tid) d]
   else timers (onModelData tid t d s) = timers s
        ∧ log (onModelData tid t d s)
          = log s ++ [Progress (ModelJob tid) d;
                      Error (ModelJob tid) (MaxPollTimeReached (m_id t))])
  ∧ run (three_attempts ++ fourth_attempt) (init page 0)
    = Some (after (three_attempts ++ fourth_attempt) (init page 0))
  ∧ fetch_times "m" (log (after (three_attempts ++ fourth_attempt) (init page 0)))
    = [0; 5000; 10000; 15000]%Z
  ∧ errors_of (ModelJob 0) (log (after (three_attempts ++ fourth_attempt) (init page 0)))
    = [MaxPollTimeReached "m"]
  ∧ timers (after (three_attempts ++ fourth_attempt) (init page 0)) = []
  ∧ inflight (after (three_attempts ++ fourth_attempt) (init page 0)) = [].
Proof.
  intros Hurl Hu Hpoll. split.
  - unfold onModelData. rewrite Hurl, Hu. unfold may_poll. rewrite Hpoll.
    unfold schedule, setTimeout, emit. project. cbn [andb negb].
    destruct (now s - m_startTime t <? m_maxPollTime t)%Z; project.
    + split; [done|]. split; [|done]. unfold registry_set.
      case_decide; [done|by rewrite lookup_insert_eq].
    + by rewrite <- app_assoc.
  - split; [vm_compute; reflexivity|].
    split; [vm_compute; reflexivity|].
    split; [vm_compute; reflexivity|].
    split; vm_compute; reflexivity.
Qed.

(** The rule at 10000 ms into a task with a ceiling of 12000 ms. *)
Lemma poll_again_while_under_ceiling_witness :
  let t := {| m_id := "m"; m_group := 0; m_placeholder := Some 1; m_poll := true;
              m_pollInterval := 5000; m_maxPollTime := 12000; m_startTime := 0 |} in
  let s := upd_now (λ _, 10000%Z) (init page 0) in
  resolveMeshUrl not_ready = Ok JNull ∧ truthy JNull = false ∧ m_poll t = true
  ∧ timers (onModelData 0 t not_ready s)
    = [(1%positive, (15000%Z, ModelJob 0))].
Proof.
  cbv zeta. split; [reflexivity|]. split; [reflexivity|]. split; [reflexivity|].
  pose proof (poll_again_while_under_ceiling 0
    {| m_id := "m"; m_group := 0; m_placeholder := Some 1; m_poll := true;
       m_pollInterval := 5000; m_maxPollTime := 12000; m_startTime := 0 |}
    not_ready JNull (upd_now (λ _, 10000%Z) (init page 0))
    eq_refl eq_refl eq_refl) as [Hrule _].
  cbn in Hrule. apply Hrule.
Defined.

(** C3: cancelPoll is to end the polling of a key for good, a stale
    callback included, and the code's own documentation says of cancelPoll
    that it cancels the polling of a model.  The code does not:
    the handlers of an attempt set the next timer without looking at the
    Poll Registry.  Cancelled while its second attempt is in flight, the task
    registers a timer again when the descriptor arrives, and fetches a third
    time. *)
Lemma stale_attempt_polls_on :
  let s := after cancel_in_flight (init page 0) in
  let s' := after late_arrival s in
  run cancel_in_flight (init page 0) = Some s
  ∧ activePolls s !! "m" = None
  ∧ fetch_times "m" (log s) = [0; 5000]%Z
  ∧ run late_arrival s = Some s'
  ∧ activePolls s' !! "m" = Some 2%positive
  ∧ fetch_times "m" (log s') = [0; 5000; 10000]%Z
  ∧ fetch_times "m" (log s') ≠ fetch_times "m" (log s).
Proof.
  cbv zeta.
  assert (H1 : fetch_times "m" (log (after cancel_in_flight (init page 0)))
               = [0; 5000]%Z) by (vm_compute; reflexivity).
  assert (H2 : fetch_times "m" (log (after late_arrival (after cancel_in_flight (init page 0))))
               = [0; 5000; 10000]%Z) by (vm_compute; reflexivity).
  split; [vm_compute; reflexivity|].
  split; [vm_compute; reflexivity|].
  split; [exact H1|].
  split; [vm_compute; reflexivity|].
  split; [vm_compute; reflexivity|].
  split; [exact H2|].
  rewrite H1, H2. discriminate.
Qed.

(** What cancelPoll does reach: it removes the Poll Registry entry of the
    ID, clears the timer registered there, and leaves the cache and the scene
    alone; a task that has nothing in flight and no timer but the registered
    one fetches no more. *)
Lemma cancelPoll_clears_registered_timer (id : string) s trace s' :
  nothing_in_flight id s = true →
  only_registered_timer id s = true →
  no_load_of id trace = true →
  run trace (cancelPoll id s) = Some s' →
  activePolls (cancelPoll id s) !! id = None
  ∧ cache (cancelPoll id s) = cache s
  ∧ parent (cancelPoll id s) = parent s
  ∧ log (cancelPoll id s) = log s
  ∧ fetch_times id (log s') = fetch_times id (log s)
  ∧ quiet id s'.
Proof.
  intros Hfl Htm Hno Hrun.
  assert (Hreg : activePolls (cancelPoll id s) !! id = None).
  { unfold cancelPoll. destruct (activePolls s !! id) eqn:Hl; [|done].
    project. apply lookup_delete_eq. }
  assert (Hsame : cache (cancelPoll id s) = cache s ∧ parent (cancelPoll id s) = parent s
                  ∧ log (cancelPoll id s) = log s).
  { unfold cancelPoll, clearTimeout. by case_match. }
  destruct Hsame as (Hc & Hp & Hl).
  destruct (run_quiet id trace _ s' (cancelPoll_quiet id s Hfl Htm) Hno Hrun) as [Hq Hf].
  rewrite Hl in Hf. done.
Qed.

(** The same defect of the registry seen from the other side: a handle is
    never entered under the ID __proto__, so that cancelPoll finds nothing to
    clear even though the task only waits on its timer, and the task fetches
    again. *)
Lemma cancelPoll_misses_proto_id :
  let s := after proto_waiting (init page 0) in
  let s' := after proto_cancelled s in
  run proto_waiting (init page 0) = Some s
  ∧ inflight s = []
  ∧ timers s = [(1%positive, (5000%Z, ModelJob 0))]
  ∧ activePolls s = ∅
  ∧ cancelPoll "__proto__" s = s
  ∧ run proto_cancelled s = Some s'
  ∧ fetch_times "__proto__" (log s) = [0]%Z
  ∧ fetch_times "__proto__" (log s') = [0; 5000]%Z.
Proof.
  cbv zeta.
  split; [vm_compute; reflexivity|].
  split; [vm_compute; reflexivity|].
  split; [vm_compute; reflexivity|].
  split; [vm_compute; reflexivity|].
  split; [vm_compute; reflexivity|].
  split; [vm_compute; reflexivity|].
  split; vm_compute; reflexivity.
Qed.

(** C7: once the cache record of a model ID is marked loaded, loadModel
    for that ID returns the cached container and changes nothing (no fetch, no
    task), and the record stays loaded, with the same container, through
    everything that happens short of clearCache. *)
Theorem loaded_model_served_from_cache (h : hostenv) (t0 : Z) trace s
    (id : string) (en : entry) :
  run trace (init h t0) = Some s →
  cache s !! cacheKey id = Some en → ce_loaded en = true →
  (∃ g, ce_group en = Some g ∧ ∀ opts, loadModel id opts s = (Some g, s))
  ∧ (∀ trace' s', no_clearCache trace' = true → run trace' s = Some s' →
        ∃ en', cache s' !! cacheKey id = Some en' ∧ ce_loaded en' = true
               ∧ ce_group en' = ce_group en).
Proof.
  intros Hrun Hen Hl. split.
  - destruct (run_model_cache_ok h t0 trace s Hrun id en Hen) as [H3 [g Hg]].
    exists g. split; [done|]. intros opts.
    by rewrite (loadModel_cached id opts s en), Hg.
  - intros trace' s' Hno Hrun'. by eapply run_loaded.
Qed.

(** Model m after its swap. *)
Lemma loaded_model_served_from_cache_witness :
  let s := after loaded_run (init page 0) in
  run loaded_run (init page 0) = Some s
  ∧ cache s !! cacheKey "m" = Some (model_entry 0 true)
  ∧ ce_loaded (model_entry 0 true) = true
  ∧ ∃ g, ce_group (model_entry 0 true) = Some g
         ∧ ∀ opts, loadModel "m" opts s = (Some g, s).
Proof.
  cbv zeta.
  split; [vm_compute; reflexivity|].
  split; [vm_compute; reflexivity|].
  split; [reflexivity|].
  apply (loaded_model_served_from_cache page 0 loaded_run
           (after loaded_run (init page 0)) "m" (model_entry 0 true));
    vm_compute; reflexivity.
Defined.

(** A placeholder the caller took out of the container is not disposed by
    the swap. *)
Lemma removed_placeholder_not_released :
  let s := after removed_placeholder_run (init page 0) in
  run removed_placeholder_run (init page 0) = Some s
  ∧ (m_placeholder <$> mtasks s !! 0) = Some (Some 1)
  ∧ swaps_of 0 (log s) = [(2, ready)]
  ∧ parent s !! 2 = Some 0
  ∧ cache s !! cacheKey "m" = Some (model_entry 0 true)
  ∧ 1 ∉ disposed s.
Proof.
  cbv zeta.
  split; [vm_compute; reflexivity|].
  split; [vm_compute; reflexivity|].
  split; [vm_compute; reflexivity|].
  split; [vm_compute; reflexivity|].
  split; [vm_compute; reflexivity|].
  apply (bool_decide_eq_false_1 (1 ∈ disposed (after removed_placeholder_run (init page 0)))).
  vm_compute; reflexivity.
Qed.

(** When the cache was cleared while the mesh was loading, the swap handler
    puts the scene into the container and then fails on the missing cache
    record: onSwap is not called, the failure goes to onError, and the task
    schedules another attempt. *)
Lemma swap_without_cache_record_throws :
  let s := after cleared_while_loading (init page 0) in
  run cleared_while_loading (init page 0) = Some s
  ∧ parent s !! 2 = Some 0
  ∧ cache s !! cacheKey "m" = None
  ∧ swaps_of 0 (log s) = []
  ∧ errors_of (ModelJob 0) (log s) = [TypeError]
  ∧ timers s = [(1%positive, (5000%Z, ModelJob 0))].
Proof.
  cbv zeta.
  split; [vm_compute; reflexivity|].
  split; [vm_compute; reflexivity|].
  split; [vm_compute; reflexivity|].
  split; [vm_compute; reflexivity|].
  split; vm_compute; reflexivity.
Qed.

(** C8, as the code has it: when the mesh of a task has loaded and the cache
    record of its model ID is there, the swap happens in one turn of the
    loop.  If the placeholder still hangs in the task's container it is taken
    out and its geometry and material are disposed; if the caller removed it,
    it is neither detached nor disposed, and that is no error.  The scene is
    put into the container, the record is marked loaded, the Poll Registry
    entry of the ID is cleared, onSwap is called with the scene and the
    descriptor, for the first and only time, and nothing more is ever fetched,
    loaded or reported for the task. *)
Theorem swap_on_load (h : hostenv) (t0 : Z) trace s (p tid : nat) (t : mtask)
    (d url v : jsval) (en : entry) :
  run trace (init h t0) = Some s →
  assoc p (inflight s) = Some (AwaitGLB tid d url) →
  mtasks s !! tid = Some t →
  cache s !! cacheKey (m_id t) = Some en →
  ∃ s', step (Settles p (Ok v)) s = Some s'
    ∧ parent s' = <[nextObject s := m_group t]> (without_placeholder t s).1
    ∧ disposed s' = (without_placeholder t s).2
    ∧ cache s' = <[cacheKey (m_id t) := set_loaded en]> (cache s)
    ∧ activePolls s' !! m_id t = None
    ∧ swaps_of tid (log s) = []
    ∧ log s' = log s ++ [Swap tid (nextObject s) d]
    ∧ ∀ trace' s'', run trace' s' = Some s'' →
        outstanding (ModelJob tid) s'' = 0
        ∧ observed (ModelJob tid) (log s'') = observed (ModelJob tid) (log s')
        ∧ swaps_of tid (log s'') = [(nextObject s, d)].
Proof.
  intros Hrun Hp Ht Hen.
  destruct (run_tables h t0 trace s Hrun) as [Hk Hseq].
  pose proof (run_swapped_at_rest h t0 trace s Hrun) as Hsw.
  pose proof (promise_outstanding p _ s Hp) as Hpos. cbn [job_of] in Hpos.
  assert (Hnone : swaps_of tid (log s) = []).
  { destruct (swaps_of tid (log s)) eqn:Hs; [done|].
    destruct (Hsw tid) as [_ Hz]; [by rewrite Hs|]. lia. }
  eexists. split.
  { simpl. rewrite Hp. cbn [resume]. project. rewrite Ht.
    rewrite (onSceneLoaded_swap tid t d _ en) by done. reflexivity. }
  unfold emit, cancelPoll, clearTimeout. project.
  split; [by case_match|]. split; [by case_match|]. split; [by case_match|].
  split. { case_match; project; [apply lookup_delete_eq|done]. }
  split; [done|]. split; [by case_match|].
  intros trace' s'' Hrun'.
  match type of Hrun' with run _ ?s1 = _ => set (s' := s1) in * end.
  assert (Hidle : outstanding (ModelJob tid) s' = 0).
  { pose proof (settled_resumed p _ s Hp) as Hlt. cbn [job_of] in Hlt.
    specialize (Hseq (ModelJob tid)).
    assert (outstanding (ModelJob tid) s'
            ≤ outstanding (ModelJob tid) (upd_inflight (remove_key p) s)); [|lia].
    subst s'. case_match; count_tables. }
  assert (Hknown : known (ModelJob tid) s').
  { simpl. subst s'. replace (mtasks _) with (mtasks s) by (by case_match).
    by eapply lookup_lt_Some. }
  destruct (run_idle _ trace' s' s'' Hknown Hidle Hrun') as [Hidle' Hobs].
  split; [done|]. split; [done|].
  assert (Hsw' : ∀ l, swaps_of tid l = swaps_of tid (observed (ModelJob tid) l)).
  { induction l as [|o l IH]; [done|]. unfold observed. rewrite filter_cons.
    change (o :: l) with ([o] ++ l). rewrite swaps_of_app, IH.
    case_decide as Ho.
    - change (o :: filter _ l) with ([o] ++ observed (ModelJob tid) l).
      by rewrite swaps_of_app.
    - destruct o; try done. unfold swaps_of at 1. cbn.
      rewrite decide_False; [done|]. intros ->. by destruct Ho. }
  rewrite Hsw', Hobs, <- Hsw'. subst s'.
  replace (log _) with (log s ++ [Swap tid (nextObject s) d]) by (by case_match).
  rewrite swaps_of_app, Hnone. unfold swaps_of. cbn. by rewrite decide_True.
Qed.

(** The swap of model m. *)
Lemma swap_on_load_witness :
  let s := after [CallLoadModel "m" defaults; Settles 0 (Ok ready)] (init page 0) in
  let t := {| m_id := "m"; m_group := 0; m_placeholder := Some 1; m_poll := true;
              m_pollInterval := 5000; m_maxPollTime := 300000; m_startTime := 0 |} in
  run [CallLoadModel "m" defaults; Settles 0 (Ok ready)] (init page 0) = Some s
  ∧ assoc 1 (inflight s) = Some (AwaitGLB 0 ready (JStr "b.glb"))
  ∧ mtasks s !! 0 = Some t
  ∧ cache s !! cacheKey "m" = Some (model_entry 0 false)
  ∧ ∃ s', step (Settles 1 (Ok JNull)) s = Some s'
          ∧ log s' = log s ++ [Swap 0 (nextObject s) ready]
          ∧ cache s' = <[cacheKey "m" := set_loaded (model_entry 0 false)]> (cache s).
Proof.
  cbv zeta.
  split; [vm_compute; reflexivity|].
  split; [vm_compute; reflexivity|].
  split; [vm_compute; reflexivity|].
  split; [vm_compute; reflexivity|].
  destruct (swap_on_load page 0 [CallLoadModel "m" defaults; Settles 0 (Ok ready)]
              (after [CallLoadModel "m" defaults; Settles 0 (Ok ready)] (init page 0))
              1 0
              {| m_id := "m"; m_group := 0; m_placeholder := Some 1; m_poll := true;
                 m_pollInterval := 5000; m_maxPollTime := 300000; m_startTime := 0 |}
              ready (JStr "b.glb") JNull (model_entry 0 false))
    as (s' & Hstep & _ & _ & Hcache & _ & _ & Hlog & _);
    try (vm_compute; reflexivity).
  exists s'. split; [exact Hstep|]. split; [exact Hlog|exact Hcache].
Defined.

(** With polling on and every fetch failing, the first failure leaves the
    promise pending and the fourth, past the ceiling, rejects it. *)
Lemma world_rejected_while_polling :
  let s1 := after (take 2 failing_world_run) (init page 0) in
  let s := after failing_world_run (init page 0) in
  run failing_world_run (init page 0) = Some s
  ∧ (w_poll <$> wtasks s !! 0) = Some true
  ∧ promise_of 0 s1 = Some Pending
  ∧ world_fetch_times "w" (log s1) = [0%Z]
  ∧ promise_of 0 s = Some (Rejected (HostError 503))
  ∧ world_fetch_times "w" (log s) = [0; 5000; 10000; 15000]%Z.
Proof.
  cbv zeta.
  split; [vm_compute; reflexivity|].
  split; [vm_compute; reflexivity|].
  split; [vm_compute; reflexivity|].
  split; [vm_compute; reflexivity|].
  split; vm_compute; reflexivity.
Qed.

(** C6, as the code has it: while the promise of a world task is pending,
    the first descriptor that arrives resolves it with the result built from
    that descriptor, ready or not, whatever the polling options and the time
    elapsed, and the task polls on exactly when the result is not ready and
    the budget allows; a fetch that fails is reported and then either retried,
    the promise staying pending, when polling is on and the time elapsed is
    under the ceiling, or else it rejects the promise with that error.  A
    promise that is settled keeps its outcome. *)
Theorem world_promise_settles (h : hostenv) (t0 : Z) trace s (p wid : nat) (w : wtask) :
  run trace (init h t0) = Some s →
  assoc p (inflight s) = Some (AwaitWorld wid) →
  wtasks s !! wid = Some w →
  w_promise w = Pending →
  (∀ o, ∃ r s',
      worldResultOf (w_id w) (JObj o) = Ok r
      ∧ step (Settles p (Ok (JObj o))) s = Some s'
      ∧ promise_of wid s' = Some (Fulfilled r)
      ∧ pending_timers (WorldJob wid) s'
        = if negb (isReady r)
             && may_poll (w_poll w) (w_startTime w) (w_maxPollTime w) s
          then 1 else 0)
  ∧ (∀ err, ∃ s',
      step (Settles p (Throw err)) s = Some s'
      ∧ log s' = log s ++ [Error (WorldJob wid) err]
      ∧ promise_of wid s'
        = Some (if may_poll (w_poll w) (w_startTime w) (w_maxPollTime w) s
                then Pending else Rejected err)
      ∧ pending_timers (WorldJob wid) s'
        = if may_poll (w_poll w) (w_startTime w) (w_maxPollTime w) s then 1 else 0)
  ∧ (∀ wid' w' trace' s',
      wtasks s !! wid' = Some w' → w_promise w' ≠ Pending →
      run trace' s = Some s' → promise_of wid' s' = Some (w_promise w')).
Proof.
  intros Hrun Hp Hw Hpend.
  destruct (run_tables h t0 trace s Hrun) as [Hk Hseq].
  pose proof (run_flag_tracks_promise h t0 trace s Hrun) as Hflag.
  assert (Hres : w_resolved w = false) by (by apply (Hflag wid)).
  assert (Hnot : pending_timers (WorldJob wid) s = 0).
  { pose proof (promise_outstanding p _ s Hp) as Hpos. cbn [job_of] in Hpos.
    pose proof (settled_resumed p _ s Hp) as Hlt. cbn [job_of] in Hlt.
    specialize (Hseq (WorldJob wid)). unfold outstanding in *.
    unfold pending_timers, pending_promises in *. project. lia. }
  assert (Hcount : ∀ ts : list (positive * (Z * job)),
            (∀ x, x ∈ ts → x ∈ timers s) →
            length (filter (λ x, timer_job x = WorldJob wid) ts) = 0).
  { intros ts Hsub. rewrite (filter_none _ ts); [done|].
    intros x Hx Hj. apply Hsub in Hx.
    unfold pending_timers in Hnot. apply length_zero_iff_nil in Hnot.
    by apply (filter_nil_not_elem_of _ _ x Hnot Hj). }
  split; [|split].
  - intros o. pose proof (worldResultOf_obj (w_id w) o) as Hr.
    match type of Hr with _ = Ok ?x => set (r := x) in Hr; clearbody r end.
    exists r. eexists. split; [exact Hr|].
    split.
    { simpl. rewrite Hp. cbn [resume]. project. rewrite Hw. reflexivity. }
    set (s0 := upd_inflight (remove_key p) s).
    assert (Hw0 : ∀ ob, wtasks (emit ob s0) !! wid = Some w) by done.
    unfold onWorldData. rewrite Hr. fold (isReady r).
    assert (Hmay : ∀ ob, may_poll (w_poll w) (w_startTime w) (w_maxPollTime w) (emit ob s0)
                  = may_poll (w_poll w) (w_startTime w) (w_maxPollTime w) s) by done.
    rewrite Hmay. unfold pending_timers.
    destruct (isReady r); cbn [negb andb].
    + split.
      * unfold promise_of, emit at 1. project.
        apply (promise_of_settle _ _ _ w); try done.
        by rewrite cancelPoll_wtasks.
      * unfold emit at 1. project. rewrite settle_timers. apply Hcount.
        intros x Hx. by apply cancelPoll_timers in Hx.
    + destruct (may_poll (w_poll w) (w_startTime w) (w_maxPollTime w) s).
      * split.
        -- unfold promise_of. rewrite schedule_wtasks.
           by apply (promise_of_settle _ _ _ w).
        -- rewrite schedule_timers, settle_timers, count_snoc, Hcount by done.
           by rewrite decide_True.
      * assert (Hgoal : promise_of wid (settle wid (Fulfilled r)
                            (emit (Progress (WorldJob wid) (JObj o)) s0))
                        = Some (Fulfilled r)
                        ∧ length (filter (λ t, timer_job t = WorldJob wid)
                            (timers (settle wid (Fulfilled r)
                               (emit (Progress (WorldJob wid) (JObj o)) s0)))) = 0).
        { split; [by apply (promise_of_settle _ _ _ w)|].
          rewrite settle_timers. by apply Hcount. }
        by destruct (w_poll w).
  - intros err. eexists. split.
    { simpl. rewrite Hp. cbn [resume]. project. rewrite Hw. reflexivity. }
    set (s0 := upd_inflight (remove_key p) s).
    unfold onWorldError.
    assert (Hmay : ∀ ob, may_poll (w_poll w) (w_startTime w) (w_maxPollTime w) (emit ob s0)
                  = may_poll (w_poll w) (w_startTime w) (w_maxPollTime w) s) by done.
    rewrite Hmay. unfold pending_timers.
    destruct (may_poll (w_poll w) (w_startTime w) (w_maxPollTime w) s).
    + split; [done|]. split.
      * unfold promise_of. rewrite schedule_wtasks.
        change (wtasks (emit (Error (WorldJob wid) err) s0)) with (wtasks s).
        rewrite Hw. simpl. by rewrite Hpend.
      * rewrite schedule_timers, count_snoc.
        change (timers (emit (Error (WorldJob wid) err) s0)) with (timers s).
        rewrite Hcount by done. by rewrite decide_True.
    + split; [by rewrite settle_log|].
      split; [by apply (promise_of_settle _ _ _ w)|].
      rewrite settle_timers. by apply Hcount.
  - intros wid' w' trace' s' Hw' Hp' Hrun'. unfold promise_of.
    by rewrite (run_settled trace' s s' wid' w' Hflag Hw' Hp' Hrun').
Qed.

(** A first fetch that fails after the ceiling, with polling on. *)
Lemma world_promise_settles_witness :
  let s := after [CallLoadWorld "w" short_poll; Tick 12000] (init page 0) in
  let w := {| w_id := "w"; w_poll := true; w_pollInterval := 5000;
              w_maxPollTime := 12000; w_startTime := 0; w_resolved := false;
              w_promise := Pending |} in
  run [CallLoadWorld "w" short_poll; Tick 12000] (init page 0) = Some s
  ∧ assoc 0 (inflight s) = Some (AwaitWorld 0)
  ∧ wtasks s !! 0 = Some w
  ∧ w_promise w = Pending
  ∧ ∃ s', step (Settles 0 (Throw (HostError 503))) s = Some s'
          ∧ promise_of 0 s' = Some (Rejected (HostError 503)).
Proof.
  cbv zeta.
  split; [vm_compute; reflexivity|].
  split; [vm_compute; reflexivity|].
  split; [vm_compute; reflexivity|].
  split; [reflexivity|].
  destruct (world_promise_settles page 0 [CallLoadWorld "w" short_poll; Tick 12000]
              (after [CallLoadWorld "w" short_poll; Tick 12000] (init page 0)) 0 0
              {| w_id := "w"; w_poll := true; w_pollInterval := 5000;
                 w_maxPollTime := 12000; w_startTime := 0; w_resolved := false;
                 w_promise := Pending |})
    as (_ & Herr & _); try (vm_compute; reflexivity).
  destruct (Herr (HostError 503)) as (s' & Hstep & _ & Hprom & _).
  exists s'. split; [exact Hstep|exact Hprom].
Defined.

End Claims.

(** ** More about the resolvers *)

Section MoreResolvers.

Implicit Types (o : gmap string jsval) (k : string) (v u d : jsval).

Lemma resolveMeshUrl_fields v :
  nullish v = false → resolveMeshUrl v = Ok (first_present (fields_of v) mesh_ranks).
Proof.
  destruct v; try discriminate; intros _; try reflexivity.
  apply resolveMeshUrl_obj.
Qed.

Lemma falsy_fields v : truthy v = false → first_present (fields_of v) mesh_ranks = JNull.
Proof. destruct v; try discriminate; intros _; reflexivity. Qed.

Lemma resolveAllFormats_obj o :
  resolveAllFormats (JObj o)
  = Ok {| glb := first_present o mesh_ranks;
          obj := first_present (fields_of (prop o "obj")) mesh_ranks;
          fbx := first_present (fields_of (prop o "fbx")) mesh_ranks |}.
Proof.
  unfold resolveAllFormats. rewrite resolveMeshUrl_obj. simpl.
  fold (prop o "obj") (prop o "fbx").
  assert (Hslot : ∀ v, (if truthy v then resolveMeshUrl v else Ok JNull)
                       = Ok (first_present (fields_of v) mesh_ranks)).
  { intros v. destruct (truthy v) eqn:Hv.
    - by apply resolveMeshUrl_fields, truthy_not_nullish.
    - by rewrite falsy_fields. }
  by rewrite !Hslot.
Qed.

(** X1: the formats resolver answers the mesh resolver's question three times:
    its glb slot is what resolveMeshUrl returns for the descriptor, and its
    obj and fbx slots are the first present URL, in the order texturedMesh,
    optimizedMesh, mesh, of what the descriptor holds under obj and under
    fbx; a format that is missing, or is not an object, gives null. *)
Theorem resolveAllFormats_slots o :
  ∃ f, resolveAllFormats (JObj o) = Ok f
       ∧ resolveMeshUrl (JObj o) = Ok (glb f)
       ∧ obj f = first_present (fields_of (prop o "obj")) mesh_ranks
       ∧ fbx f = first_present (fields_of (prop o "fbx")) mesh_ranks
       ∧ (truthy (prop o "obj") = false → obj f = JNull)
       ∧ (truthy (prop o "fbx") = false → fbx f = JNull).
Proof.
  eexists. split; [apply resolveAllFormats_obj|]. simpl.
  split; [apply resolveMeshUrl_obj|]. split; [done|]. split; [done|].
  split; apply falsy_fields.
Qed.

(** X2: the resolvers throw a TypeError on a descriptor that is null or
    undefined, and on nothing else. *)
Theorem resolvers_throw_on_nullish_only d :
  if nullish d
  then resolveMeshUrl d = Throw TypeError
       ∧ resolveAllFormats d = Throw TypeError
       ∧ resolveSplatUrl d = Throw TypeError
       ∧ resolveAllSplatUrls d = Throw TypeError
  else (∃ u, resolveMeshUrl d = Ok u)
       ∧ (∃ f, resolveAllFormats d = Ok f)
       ∧ (∃ u, resolveSplatUrl d = Ok u)
       ∧ (∃ t, resolveAllSplatUrls d = Ok t).
Proof.
  destruct d as [| |b|n|s|items|o]; simpl; try done;
    try (repeat split; eexists; reflexivity).
  split; [by rewrite resolveMeshUrl_obj; eexists|].
  split; [by rewrite resolveAllFormats_obj; eexists|].
  split; [by rewrite resolveSplatUrl_obj; eexists|].
  by rewrite resolveAllSplatUrls_obj; eexists.
Qed.

Lemma tier_present o k u : present_url o k = Some u → tier o k = u ∧ truthy u = true.
Proof. intros H. unfold tier. rewrite H. split; [done|]. by eapply present_url_shaped. Qed.

Lemma tier_absent o k : present_url o k = None → tier o k = JNull.
Proof. intros H. unfold tier. by rewrite H. Qed.

Lemma first_present_best_tier o :
  first_present o splat_ranks
  = best_tier {| lowRes := tier o "lowRes"; mediumRes := tier o "mediumRes";
                 highRes := tier o "highRes" |}.
Proof.
  unfold best_tier, splat_ranks. cbn [first_present highRes mediumRes lowRes].
  destruct (present_url o "highRes") as [u1|] eqn:H1.
  { destruct (tier_present _ _ _ H1) as [-> ->]. done. }
  rewrite (tier_absent _ _ H1). cbn [truthy].
  destruct (present_url o "mediumRes") as [u2|] eqn:H2.
  { destruct (tier_present _ _ _ H2) as [-> ->]. done. }
  rewrite (tier_absent _ _ H2). cbn [truthy].
  destruct (present_url o "lowRes") as [u3|] eqn:H3.
  { by destruct (tier_present _ _ _ H3) as [-> _]. }
  by rewrite (tier_absent _ _ H3).
Qed.

(** X3: the best-pick splat resolver and the all-tiers resolver agree: the best
    pick is the highest tier the all-tiers result has a URL for, and null
    exactly when that result has none. *)
Theorem resolveSplatUrl_is_best_tier o :
  ∃ u t, resolveSplatUrl (JObj o) = Ok u
         ∧ resolveAllSplatUrls (JObj o) = Ok t
         ∧ u = best_tier t
         ∧ (u = JNull ↔ lowRes t = JNull ∧ mediumRes t = JNull ∧ highRes t = JNull).
Proof.
  rewrite resolveSplatUrl_obj, resolveAllSplatUrls_obj.
  eexists _, _. split; [done|]. split; [done|].
  split; [apply first_present_best_tier|].
  rewrite first_present_best_tier. unfold best_tier. simpl.
  set (files := fields_of (prop o "splatFiles")).
  pose proof (tier_shaped files "highRes") as Hh.
  pose proof (tier_shaped files "mediumRes") as Hm.
  pose proof (tier_shaped files "lowRes") as Hl.
  destruct (tier files "highRes") eqn:Eh; simpl in *; try discriminate;
    destruct (tier files "mediumRes") eqn:Em; simpl in *; try discriminate;
    rewrite ?Hh, ?Hm; naive_solver.
Qed.

End MoreResolvers.

(** ** The splat shown for a world *)

Section WorldSplat.

Implicit Types (o : gmap string jsval) (r : worldResult).

Lemma best_tier_truthy (t : splatUrls) :
  url_or_null_shaped (lowRes t) = true →
  truthy (best_tier t)
  = truthy (highRes t) || truthy (mediumRes t) || truthy (lowRes t).
Proof.
  unfold best_tier. intros _.
  destruct (truthy (highRes t)) eqn:Hh; [done|].
  destruct (truthy (mediumRes t)) eqn:Hm; [done|]. done.
Qed.

(** X4: whatever resolution the caller prefers, [loadWorldSplat] finds a splat
    URL exactly when the world has one in some tier: a preferred tier that is
    there is taken, and one that is not there falls back to the best
    available. *)
Theorem pickSplatUrl_finds_what_exists (id : string) o r (res : option string) :
  worldResultOf id (JObj o) = Ok r →
  truthy (pickSplatUrl res r) = truthy (splatUrl r)
  ∧ pickSplatUrl None r = splatUrl r
  ∧ pickSplatUrl (Some "auto") r = splatUrl r
  ∧ pickSplatUrl (Some "high") r
    = (if truthy (highRes (splats r)) then highRes (splats r) else splatUrl r)
  ∧ pickSplatUrl (Some "medium") r
    = (if truthy (mediumRes (splats r)) then mediumRes (splats r) else splatUrl r)
  ∧ pickSplatUrl (Some "low") r
    = (if truthy (lowRes (splats r)) then lowRes (splats r) else splatUrl r).
Proof.
  intros Hr. rewrite worldResultOf_obj in Hr.
  assert (Hbest : splatUrl r = best_tier (splats r)).
  { injection Hr as <-. apply first_present_best_tier. }
  assert (Hlow : url_or_null_shaped (lowRes (splats r)) = true).
  { injection Hr as <-. apply tier_shaped. }
  clear Hr. split; [|by repeat split].
  unfold pickSplatUrl. rewrite Hbest, (best_tier_truthy _ Hlow).
  repeat match goal with
  | |- context [if ?b && truthy ?x then _ else _] =>
      destruct b; cbn [andb]; [destruct (truthy x) eqn:?|]
  end;
    rewrite ?(best_tier_truthy _ Hlow);
    repeat match goal with H : truthy _ = _ |- _ => rewrite H end;
    rewrite ?orb_true_r; done.
Qed.

Lemma pickSplatUrl_finds_what_exists_witness :
  let o : gmap string jsval :=
    {["splatFiles" := JObj {["lowRes" := JObj {["url" := JStr "x"]}]}]} in
  ∃ r, worldResultOf "w" (JObj o) = Ok r
       ∧ truthy (pickSplatUrl (Some "high") r) = truthy (splatUrl r).
Proof.
  cbv zeta. eexists. split; [apply worldResultOf_obj|].
  eapply (pickSplatUrl_finds_what_exists "w"), worldResultOf_obj.
Defined.

End WorldSplat.

(** ** The viewer configuration *)

Section ViewerConfig.

Implicit Types (d viewerOpts cfg : gmap string jsval) (k : string).

Lemma viewerDefaults_keys GS3D d k :
  viewerDefaults GS3D = Ok d → is_Some (d !! k) →
  k ∈ ["gpuAcceleratedSort"; "sharedMemoryForWorkers"; "sphericalHarmonicsDegree";
       "logLevel"; "sceneRevealMode"].
Proof.
  intros Hd Hk.
  destruct (decide (k ∈ ["gpuAcceleratedSort"; "sharedMemoryForWorkers";
                         "sphericalHarmonicsDegree"; "logLevel"; "sceneRevealMode"]))
    as [|Hn]; [done|].
  exfalso. rewrite !not_elem_of_cons in Hn. destruct Hn as (? & ? & ? & ? & ? & _).
  unfold viewerDefaults in Hd.
  destruct (get GS3D "LogLevel") as [level|]; [|done]. cbn [bind] in Hd.
  destruct (get GS3D "SceneRevealMode") as [mode|];
    [|destruct (truthy level); [destruct (get level "None")|]; done].
  destruct (truthy level); [destruct (get level "None") as [none|]; [|done]|];
    cbn [bind] in Hd;
    (destruct (truthy mode); [destruct (get mode "Gradual") as [gradual|]; [|done]|]);
    cbn [bind] in Hd; simplify_eq; simplify_map_eq; by destruct Hk.
Qed.

Lemma hasOwnProperty_own {V} (o : gmap string V) k :
  o !! "hasOwnProperty" = None → is_Some (o !! k) → hasOwnProperty o k = Ok true.
Proof.
  intros Hnone Hk. unfold hasOwnProperty. rewrite Hnone.
  by rewrite bool_decide_eq_true_2.
Qed.

(** The first loop. *)
Lemma defaults_loop d viewerOpts :
  d !! "hasOwnProperty" = None →
  ∃ cfg,
    map_fold (λ key dv acc,
                let* cfg := acc in
                let* own := hasOwnProperty d key in
                Ok (if own : bool
                    then <[key := if is_undefined (prop viewerOpts key) then dv
                                  else prop viewerOpts key]> cfg
                    else cfg))
             (Ok ∅) d = Ok cfg
    ∧ ∀ k, cfg !! k
           = (λ dv, if is_undefined (prop viewerOpts k) then dv else prop viewerOpts k)
               <$> d !! k.
Proof.
  intros Hnone.
  set (f := λ (key : string) (dv : jsval) (acc : result (gmap string jsval)), _).
  assert (Hind : ∀ m, m ⊆ d → ∃ cfg, map_fold f (Ok ∅) m = Ok cfg
            ∧ ∀ k, cfg !! k
                = (λ dv, if is_undefined (prop viewerOpts k) then dv
                         else prop viewerOpts k) <$> m !! k); [|by apply Hind].
  intros m. apply (map_fold_weak_ind (λ r m, m ⊆ d → ∃ cfg, r = Ok cfg ∧ ∀ k, cfg !! k
                = (λ dv, if is_undefined (prop viewerOpts k) then dv
                         else prop viewerOpts k) <$> m !! k)).
  - intros _. exists ∅. split; [done|]. intros k. by rewrite !lookup_empty.
  - intros i x m0 r Hi IH Hsub.
    assert (Hx : d !! i = Some x).
    { eapply lookup_weaken; [|done]. apply lookup_insert_eq. }
    destruct IH as (cfg & -> & Hcfg).
    { etrans; [|done]. by apply insert_subseteq. }
    unfold f. cbn [bind]. rewrite hasOwnProperty_own by (try done; by eexists).
    cbn [bind]. eexists. split; [done|]. intros k.
    destruct (decide (i = k)) as [->|Hne].
    + by rewrite !lookup_insert_eq.
    + by rewrite !lookup_insert_ne.
Qed.

(** The second loop, when it does not throw. *)
Lemma extras_loop cfg0 viewerOpts :
  viewerOpts !! "hasOwnProperty" = None →
  ∃ cfg,
    map_fold (λ key ov acc,
                let* cfg := acc in
                let* own := hasOwnProperty viewerOpts key in
                Ok (if (own : bool) && reads_undefined cfg key
                    then <[key := ov]> cfg else cfg))
             (Ok cfg0) viewerOpts = Ok cfg
    ∧ ∀ k, cfg !! k
           = match viewerOpts !! k with
             | Some ov => if reads_undefined cfg0 k then Some ov else cfg0 !! k
             | None => cfg0 !! k
             end.
Proof.
  intros Hnone.
  set (f := λ (key : string) (ov : jsval) (acc : result (gmap string jsval)), _).
  assert (Hind : ∀ m, m ⊆ viewerOpts → ∃ cfg, map_fold f (Ok cfg0) m = Ok cfg
            ∧ ∀ k, cfg !! k
                = match m !! k with
                  | Some ov => if reads_undefined cfg0 k then Some ov else cfg0 !! k
                  | None => cfg0 !! k
                  end); [|by apply Hind].
  intros m. apply (map_fold_weak_ind (λ r m, m ⊆ viewerOpts → ∃ cfg, r = Ok cfg
            ∧ ∀ k, cfg !! k
                = match m !! k with
                  | Some ov => if reads_undefined cfg0 k then Some ov else cfg0 !! k
                  | None => cfg0 !! k
                  end)).
  - intros _. exists cfg0. split; [done|]. intros k. by rewrite lookup_empty.
  - intros i x m0 r Hi IH Hsub.
    assert (Hx : viewerOpts !! i = Some x).
    { eapply lookup_weaken; [|done]. apply lookup_insert_eq. }
    destruct IH as (cfg & -> & Hcfg).
    { etrans; [|done]. by apply insert_subseteq. }
    unfold f. cbn [bind]. rewrite hasOwnProperty_own by (try done; by eexists).
    cbn [bind andb].
    assert (Hread : reads_undefined cfg i = reads_undefined cfg0 i).
    { unfold reads_undefined. by rewrite Hcfg, Hi. }
    rewrite Hread. eexists. split; [done|]. intros k.
    destruct (decide (i = k)) as [->|Hne].
    + rewrite lookup_insert_eq.
      destruct (reads_undefined cfg0 k); [by rewrite lookup_insert_eq|].
      by rewrite Hcfg, Hi.
    + rewrite (lookup_insert_ne m0) by done.
      destruct (reads_undefined cfg0 i); [rewrite lookup_insert_ne by done|]; apply Hcfg.
Qed.

(** The second loop throws in its first round when the caller's object has
    a key named hasOwnProperty. *)
Lemma extras_loop_throws cfg0 viewerOpts :
  is_Some (viewerOpts !! "hasOwnProperty") →
  map_fold (λ key ov acc,
              let* cfg := acc in
              let* own := hasOwnProperty viewerOpts key in
              Ok (if (own : bool) && reads_undefined cfg key
                  then <[key := ov]> cfg else cfg))
           (Ok cfg0) viewerOpts = Throw TypeError.
Proof.
  intros [v Hv].
  set (f := λ (key : string) (ov : jsval) (acc : result (gmap string jsval)), _).
  assert (Hind : (viewerOpts = ∅ ∧ map_fold f (Ok cfg0) viewerOpts = Ok cfg0)
                 ∨ map_fold f (Ok cfg0) viewerOpts = Throw TypeError).
  { apply (map_fold_weak_ind (λ r m, (m = ∅ ∧ r = Ok cfg0) ∨ r = Throw TypeError)).
    - by left.
    - intros i x m r _ [[_ ->]| ->]; right; unfold f, hasOwnProperty; by rewrite Hv. }
  destruct Hind as [[Hempty _]|?]; [|done].
  by rewrite Hempty, lookup_empty in Hv.
Qed.

(** X5: the viewer configuration loadSplat builds from the defaults and a
    plain object of caller's options.  Under a key of the defaults the
    caller's value wins unless it is undefined; a key only the caller has is
    taken over, unless it is the name of a member of Object.prototype, which
    the copy loop takes for already set and leaves out.  A caller's key named
    hasOwnProperty makes the copy loop throw a TypeError. *)
Theorem viewerConfig_caller_wins (GS3D : jsval) d viewerOpts :
  viewerDefaults GS3D = Ok d →
  match viewerOpts !! "hasOwnProperty" with
  | Some _ => viewerConfig GS3D viewerOpts = Throw TypeError
  | None =>
      ∃ cfg, viewerConfig GS3D viewerOpts = Ok cfg
             ∧ ∀ k, cfg !! k
                    = match d !! k with
                      | Some dv => Some (if is_undefined (prop viewerOpts k) then dv
                                         else prop viewerOpts k)
                      | None => if proto_member k then None else viewerOpts !! k
                      end
  end.
Proof.
  intros Hd. unfold viewerConfig. rewrite Hd. cbn [bind].
  assert (Hnone : d !! "hasOwnProperty" = None).
  { destruct (d !! "hasOwnProperty") as [v|] eqn:Hv; [|done].
    assert (Hin : is_Some (d !! "hasOwnProperty")) by by eexists.
    apply (viewerDefaults_keys GS3D) in Hin; [|done].
    rewrite !elem_of_cons, elem_of_nil in Hin. naive_solver. }
  destruct (defaults_loop d viewerOpts Hnone) as (cfg1 & -> & Hcfg1). cbn [bind].
  destruct (viewerOpts !! "hasOwnProperty") as [v|] eqn:Hown.
  { apply extras_loop_throws. by eexists. }
  destruct (extras_loop cfg1 viewerOpts Hown) as (cfg & -> & Hcfg).
  exists cfg. split; [done|]. intros k. rewrite Hcfg. unfold reads_undefined.
  rewrite (Hcfg1 k). unfold prop.
  destruct (d !! k) as [dv|] eqn:Hdk; simpl.
  - destruct (viewerOpts !! k) as [ov|]; simpl; [|done].
    destruct (is_undefined ov) eqn:Ho; simpl; [|by rewrite Ho].
    destruct (is_undefined dv) eqn:Hdv; [|done].
    by destruct ov, dv.
  - destruct (viewerOpts !! k) as [ov|]; simpl; by destruct (proto_member k).
Qed.

Lemma viewerConfig_caller_wins_witness :
  let GS3D := JObj ∅ in
  let viewerOpts : gmap string jsval :=
    {["sharedMemoryForWorkers" := JBool false; "toString" := JStr "x";
      "antialiased" := JBool true]} in
  ∃ d cfg, viewerDefaults GS3D = Ok d
           ∧ viewerConfig GS3D viewerOpts = Ok cfg
           ∧ cfg !! "sharedMemoryForWorkers" = Some (JBool false)
           ∧ cfg !! "gpuAcceleratedSort" = Some (JBool true)
           ∧ cfg !! "antialiased" = Some (JBool true)
           ∧ cfg !! "toString" = None.
Proof.
  cbv zeta. eexists.
  pose proof (viewerConfig_caller_wins (JObj ∅) _
                {["sharedMemoryForWorkers" := JBool false; "toString" := JStr "x";
                  "antialiased" := JBool true]} eq_refl) as H.
  change (_ !! "hasOwnProperty") with (@None jsval) in H.
  destruct H as (cfg & Hcfg & Hlk).
  exists cfg. split; [reflexivity|]. split; [exact Hcfg|].
  rewrite !Hlk. repeat split; vm_compute; reflexivity.
Defined.

End ViewerConfig.

(** ** Endpoint URLs *)

Section Urls.

Implicit Types (b base path id : string).

Lemma append_not_empty b c rest : b +:+ String c rest ≠ EmptyString.
Proof. by destruct b. Qed.

Lemma last_char_slash b : last_char (b +:+ String slash EmptyString) = Some slash.
Proof.
  induction b as [|c b IH]; [done|].
  change (String c b +:+ ?x) with (String c (b +:+ x)).
  cbn [last_char]. rewrite IH.
  destruct (b +:+ String slash EmptyString) eqn:Hb; [|done].
  by apply append_not_empty in Hb.
Qed.

Lemma drop_last_slash b : drop_last (b +:+ String slash EmptyString) = b.
Proof.
  induction b as [|c b IH]; [done|].
  change (String c b +:+ ?x) with (String c (b +:+ x)).
  cbn [drop_last]. rewrite IH.
  destruct (b +:+ String slash EmptyString) eqn:Hb; [|done].
  by apply append_not_empty in Hb.
Qed.

Lemma drop_last_snoc base :
  last_char base = Some slash → base = drop_last base +:+ String slash EmptyString.
Proof.
  induction base as [|c base IH]; [done|]. cbn [last_char drop_last].
  destruct base as [|c' base']; [by intros [= ->]|].
  intros H. specialize (IH H). change (String c ?x +:+ ?y) with (String c (x +:+ y)).
  by rewrite <- IH.
Qed.

Lemma append_cancel b x y : b +:+ x = b +:+ y → x = y.
Proof.
  induction b as [|c b IH]; [done|].
  change (String c b +:+ ?z) with (String c (b +:+ z)). intros [= H]. auto.
Qed.

(** X6: an endpoint address is the base URL without its one trailing slash,
    if it has one, followed by the path; a base URL that does not end in a
    slash is used as it is. *)
Theorem apiUrl_strips_one_slash b path :
  apiUrl (b +:+ String slash EmptyString) path = b +:+ path
  ∧ (apiUrl b path = b +:+ path ∨ last_char b = Some slash)
  ∧ apiUrl EmptyString path = path.
Proof.
  unfold apiUrl. split; [|split; [|done]].
  - by rewrite decide_True, drop_last_slash by apply last_char_slash.
  - case_decide; [by right|by left].
Qed.

(** X7: for one base URL, different IDs are fetched from different addresses,
    and a model is never fetched from the address of a world. *)
Theorem endpoint_urls_distinct base id id' :
  (modelUrl base id = modelUrl base id' → id = id')
  ∧ (worldUrl base id = worldUrl base id' → id = id')
  ∧ modelUrl base id ≠ worldUrl base id'.
Proof.
  unfold modelUrl, worldUrl, apiUrl.
  repeat split; try intros H; apply append_cancel in H; cbn in H;
    by simplify_eq.
Qed.

Lemma endpoint_urls_distinct_witness :
  modelUrl defaultApiUrl "a" = modelUrl defaultApiUrl "a" ∧ "a" = "a".
Proof.
  split; [reflexivity|].
  apply (endpoint_urls_distinct defaultApiUrl "a" "a"). reflexivity.
Defined.

End Urls.

(** ** Cancelling and clearing *)

Section Cancelling.

Implicit Types (s : state) (trace : list event) (id : string).

(** X8: cancelling a key twice is cancelling it once, and cancelling a key the
    Poll Registry does not hold changes nothing. *)
Theorem cancelPoll_idempotent id s :
  cancelPoll id (cancelPoll id s) = cancelPoll id s
  ∧ (cancelPoll id s = s ∨ is_Some (activePolls s !! id)).
Proof.
  unfold cancelPoll at 2 3 4. destruct (activePolls s !! id) as [h|] eqn:Hl.
  - split; [|right; by eexists]. unfold cancelPoll, clearTimeout. project.
    by rewrite lookup_delete_eq.
  - split; [|by left]. unfold cancelPoll. by rewrite Hl.
Qed.

Lemma foldr_clearTimeout_timers hs s x :
  x ∈ timers (foldr clearTimeout s hs) ↔ x ∈ timers s ∧ x.1 ∉ hs.
Proof.
  induction hs as [|h hs IH]; simpl.
  - split; [intros ?; split; [done|]; apply not_elem_of_nil|tauto].
  - unfold clearTimeout at 1. project. unfold remove_key.
    rewrite list_elem_of_filter, IH, not_elem_of_cons. tauto.
Qed.

Lemma registered_handle s h :
  h ∈ (map_to_list (activePolls s)).*2 ↔ ∃ id, activePolls s !! id = Some h.
Proof.
  rewrite list_elem_of_fmap. split.
  - intros ([id h'] & -> & Hin). exists id. by apply elem_of_map_to_list in Hin.
  - intros (id & Hid). exists (id, h). split; [done|]. by apply elem_of_map_to_list.
Qed.

Lemma cancelAllPolls_ok s s1 :
  cancelAllPolls s = Ok s1 →
  activePolls s !! "hasOwnProperty" = None
  ∧ s1 = upd_activePolls (λ _, ∅)
           (foldr clearTimeout s (map_to_list (activePolls s)).*2).
Proof.
  intros Hok. destruct (cancelAllPolls_cases s) as [[_ Hthrow]|[Hnone Heq]].
  - congruence.
  - split; [done|]. congruence.
Qed.

Lemma cancelAllPolls_timers s s1 x :
  cancelAllPolls s = Ok s1 →
  x ∈ timers s1 ↔ x ∈ timers s ∧ ∀ id, activePolls s !! id ≠ Some x.1.
Proof.
  intros [_ ->]%cancelAllPolls_ok. project.
  rewrite foldr_clearTimeout_timers, registered_handle. naive_solver.
Qed.

Lemma cancelAllPolls_fields s s1 :
  cancelAllPolls s = Ok s1 →
  activePolls s1 = ∅ ∧ inflight s1 = inflight s ∧ cache s1 = cache s
  ∧ log s1 = log s ∧ host s1 = host s ∧ nextObject s1 = nextObject s
  ∧ now s1 = now s ∧ mtasks s1 = mtasks s ∧ wtasks s1 = wtasks s.
Proof.
  intros [_ ->]%cancelAllPolls_ok. project.
  generalize ((map_to_list (activePolls s)).*2). intros hs.
  induction hs as [|h hs IH]; [done|].
  change (foldr clearTimeout s (h :: hs))
    with (upd_timers (remove_key h) (foldr clearTimeout s hs)).
  by project.
Qed.

(** X9: cancelAllPolls asks the Poll Registry itself for hasOwnProperty.
    While no model named hasOwnProperty is registered, it empties the
    registry and clears exactly the timers whose handles the registry held:
    a pending timer whose handle was overwritten in the registry stays
    pending; promises in flight, the cache and the log are left alone.
    Once a model named hasOwnProperty is registered, it throws a TypeError
    and nothing is cleared. *)
Theorem cancelAllPolls_clears_registered s :
  match activePolls s !! "hasOwnProperty" with
  | Some _ => cancelAllPolls s = Throw TypeError ∧ call (cancelAllPolls s) s = s
  | None =>
      ∃ s1, cancelAllPolls s = Ok s1
            ∧ activePolls s1 = ∅
            ∧ (∀ x, x ∈ timers s1
                    ↔ x ∈ timers s ∧ ∀ id, activePolls s !! id ≠ Some x.1)
            ∧ inflight s1 = inflight s
            ∧ cache s1 = cache s
            ∧ log s1 = log s
  end.
Proof.
  destruct (cancelAllPolls_cases s) as [[[h Hown] Hthrow]|[Hnone Heq]].
  - rewrite Hown. by rewrite Hthrow.
  - rewrite Hnone. eexists. split; [done|].
    destruct (cancelAllPolls_fields s _ Heq) as (Hr & Hfl & Hc & Hl & _).
    split; [done|]. split; [intros x; by apply cancelAllPolls_timers|done].
Qed.

Lemma step_at_rest e s s' :
  timers s = [] → inflight s = [] →
  (∀ id opts, e ≠ CallLoadModel id opts) → (∀ id opts, e ≠ CallLoadWorld id opts) →
  step e s = Some s' →
  timers s' = [] ∧ inflight s' = [] ∧ log s' = log s.
Proof.
  intros Ht Hi Hm Hw.
  assert (Hcleared : ∀ hs, timers (foldr clearTimeout s hs) = []
                           ∧ inflight (foldr clearTimeout s hs) = []
                           ∧ log (foldr clearTimeout s hs) = log s).
  { intros hs. rewrite foldr_clearTimeout_inflight, foldr_clearTimeout_log.
    split; [|done]. apply elem_of_nil_inv. intros x Hx.
    apply foldr_clearTimeout_timers in Hx as [Hx _]. rewrite Ht in Hx.
    by apply elem_of_nil in Hx. }
  destruct e; simpl; try (intros [= <-]).
  - by destruct (Hm id opts).
  - by destruct (Hw id opts).
  - unfold cancelPoll, clearTimeout. case_match; project; by rewrite ?Ht.
  - apply call_cancelAllPolls; [done|]. project. apply Hcleared.
  - apply call_clearCache; [done|]. project. apply Hcleared.
  - done.
  - done.
  - case_match; [|done]. by intros [= <-].
  - by rewrite Ht.
  - by rewrite Hi.
Qed.

(** X10: when cancelAllPolls returns (no model named hasOwnProperty is
    registered), nothing is in flight and every pending timer is registered,
    it brings the engine to rest: until the caller loads something again no
    timer is pending, nothing is in flight, and no collaborator or callback
    is called. *)
Theorem cancelAllPolls_stops_everything s s1 trace s' :
  cancelAllPolls s = Ok s1 →
  inflight s = [] → all_timers_registered s = true → no_loads trace = true →
  run trace s1 = Some s' →
  timers s' = [] ∧ inflight s' = [] ∧ log s' = log s.
Proof.
  intros Hok Hfl Hreg Hno Hrun.
  destruct (cancelAllPolls_fields s s1 Hok) as (_ & Hfl' & _ & Hlog & _).
  assert (Ht0 : timers s1 = []).
  { apply elem_of_nil_inv. intros x Hx.
    apply (cancelAllPolls_timers s s1 x Hok) in Hx as [Hx Hnot].
    unfold all_timers_registered in Hreg. rewrite forallb_forall in Hreg.
    apply list_elem_of_In, Hreg, bool_decide_eq_true_1, registered_handle in Hx
      as [id Hid]. by apply (Hnot id). }
  rewrite <- Hlog. rewrite Hfl in Hfl'.
  revert Hrun Ht0 Hfl'. generalize s1. clear Hlog Hreg Hfl Hok.
  induction trace as [|e rest IH]; intros s0; simpl.
  - by intros [= <-].
  - destruct (step e s0) as [s2|] eqn:He; [|done]. intros Hrun Ht Hi.
    simpl in Hno. apply andb_prop in Hno as [Hne Hno].
    destruct (step_at_rest e s0 s2 Ht Hi) as (Ht1 & Hi1 & <-); try done;
      try (intros ? ? ->; done).
    by apply IH.
Qed.

Lemma cancelAllPolls_stops_everything_witness :
  let s := after three_attempts (init page 0) in
  let s1 := call (cancelAllPolls s) s in
  let trace := [Tick 600000; CallCancelPoll "m"; Tick 1] in
  cancelAllPolls s = Ok s1
  ∧ inflight s = [] ∧ all_timers_registered s = true ∧ no_loads trace = true
  ∧ run trace s1 = Some (after trace s1)
  ∧ log (after trace s1) = log s.
Proof.
  cbv zeta.
  split; [vm_compute; reflexivity|].
  split; [vm_compute; reflexivity|].
  split; [vm_compute; reflexivity|].
  split; [vm_compute; reflexivity|].
  split; [vm_compute; reflexivity|].
  apply (cancelAllPolls_stops_everything (after three_attempts (init page 0))
           (call (cancelAllPolls (after three_attempts (init page 0)))
              (after three_attempts (init page 0)))
           [Tick 600000; CallCancelPoll "m"; Tick 1]);
    vm_compute; reflexivity.
Defined.

(** X11: clearCache first calls cancelAllPolls.  While no model named
    hasOwnProperty is registered, it empties the cache and the Poll Registry
    and leaves what is in flight alone: right after it neither cache query
    finds anything, and a load of any ID made then starts over with a fetch,
    whether or not the ID was loaded before.  Once a model named
    hasOwnProperty is registered, cancelAllPolls throws and the cache is not
    emptied. *)
Theorem clearCache_forces_refetch id (opts : options) s :
  match activePolls s !! "hasOwnProperty" with
  | Some _ => clearCache s = Throw TypeError ∧ call (clearCache s) s = s
  | None =>
      ∃ s1, clearCache s = Ok s1
        ∧ cache s1 = ∅
        ∧ activePolls s1 = ∅
        ∧ inflight s1 = inflight s
        ∧ getCachedModel id s1 = None
        ∧ getCachedWorld id s1 = None
        ∧ (if threeAvailable s
           then (loadModel id opts s1).1 = Some (nextObject s)
                ∧ log (loadModel id opts s1).2
                  = log s ++ [FetchModel (now s) (length (mtasks s)) id]
           else loadModel id opts s1 = (None, s1))
        ∧ (loadWorld id opts s1).1 = OfTask (length (wtasks s))
        ∧ log (loadWorld id opts s1).2
          = log s ++ [FetchWorld (now s) (length (wtasks s)) id]
  end.
Proof.
  unfold clearCache.
  destruct (cancelAllPolls_cases s) as [[[h Hown] Hthrow]|[Hnone Heq]].
  { rewrite Hown. by rewrite Hthrow. }
  rewrite Hnone.
  destruct (cancelAllPolls_fields s _ Heq)
    as (Hr & Hfl & _ & Hlog & Hhost & Hobj & Hnow & Hm & Hw).
  rewrite Heq. cbn [bind]. eexists. split; [done|].
  set (s1 := upd_cache _ _).
  assert (Hc : cache s1 = ∅) by done.
  assert (H3 : threeAvailable s1 = threeAvailable s)
    by (unfold threeAvailable, s1; project; by rewrite Hhost).
  split; [done|]. split; [done|]. split; [done|].
  split; [unfold getCachedModel; by rewrite Hc, lookup_empty|].
  split; [unfold getCachedWorld; by rewrite Hc, lookup_empty|].
  split.
  - destruct (threeAvailable s) eqn:Hthree.
    + rewrite loadModel_fresh; [|done|by intros e; rewrite Hc, lookup_empty].
      cbn [fst snd]. unfold await, emit, attach, s1. project.
      by rewrite Hobj, Hlog, Hnow, Hm.
    + unfold loadModel. by rewrite H3.
  - unfold loadWorld. rewrite Hc, lookup_empty. cbn [fst snd].
    unfold attemptWorld. project. rewrite list_lookup_middle by done.
    unfold await, emit, s1. project. by rewrite Hw, Hlog, Hnow.
Qed.

End Cancelling.

(** ** What the cache holds *)

Section CacheContents.

Implicit Types (s : state) (trace : list event) (id : string).

(** X12: the cache keeps the container of the latest loadModel call for an ID
    until the next such call or a clearCache; meanwhile the loaded flag can
    only go from false to true. *)
Theorem cached_container_stays id trace s s' (g : option nat) (l : bool) :
  no_load_of id trace = true → no_clearCache trace = true →
  run trace s = Some s' →
  getCachedModel id s = Some (g, l) →
  ∃ l', getCachedModel id s' = Some (g, l') ∧ (l = true → l' = true).
Proof.
  revert s l. induction trace as [|e rest IH]; intros s l Hno Hnc; simpl.
  - intros [= <-] Hg. by exists l.
  - destruct (step e s) as [s1|] eqn:He; [|done]. intros Hrun Hg.
    simpl in Hno, Hnc.
    apply andb_prop in Hno as [Hne Hno]. apply andb_prop in Hnc as [Hnec Hnc].
    assert (H1 : ∃ l1, getCachedModel id s1 = Some (g, l1) ∧ (l = true → l1 = true)).
    { unfold getCachedModel in *.
      destruct (cache s !! cacheKey id) as [en|] eqn:Hen; [|done].
      injection Hg as <- <-.
      destruct (step_model_cache e s s1 id He)
        as [->|[[-> _]|[(opts & g' & -> & _)|(en0 & Hen0 & ->)]]].
      - rewrite Hen. eauto.
      - done.
      - by rewrite bool_decide_eq_true_2 in Hne.
      - simplify_eq. exists true. by destruct en. }
    destruct H1 as (l1 & Hg1 & Hl1).
    destruct (IH s1 l1 Hno Hnc Hrun Hg1) as (l' & Hg' & Hl').
    exists l'. split; [done|]. auto.
Qed.

Lemma cached_container_stays_witness :
  let s := after [CallLoadModel "m" defaults] (init page 0) in
  let trace := [Settles 0 (Ok ready); CallLoadModel "n" defaults; Settles 1 (Ok JNull)] in
  no_load_of "m" trace = true ∧ no_clearCache trace = true
  ∧ run trace s = Some (after trace s)
  ∧ getCachedModel "m" s = Some (Some 0, false)
  ∧ ∃ l', getCachedModel "m" (after trace s) = Some (Some 0, l') ∧ (false = true → l' = true).
Proof.
  cbv zeta.
  split; [vm_compute; reflexivity|].
  split; [vm_compute; reflexivity|].
  split; [vm_compute; reflexivity|].
  split; [vm_compute; reflexivity|].
  apply (cached_container_stays "m"
           [Settles 0 (Ok ready); CallLoadModel "n" defaults; Settles 1 (Ok JNull)]
           (after [CallLoadModel "m" defaults] (init page 0)));
    vm_compute; reflexivity.
Defined.

Lemma swaps_of_snoc tid l scene d : swaps_of tid (l ++ [Swap tid scene d]) ≠ [].
Proof.
  rewrite swaps_of_app. unfold swaps_of at 2. cbn. rewrite decide_True by done.
  by destruct (swaps_of tid l).
Qed.

Lemma swaps_of_grows tid l l' : swaps_of tid l ≠ [] → swaps_of tid (l ++ l') ≠ [].
Proof. rewrite swaps_of_app. by destruct (swaps_of tid l). Qed.

(** A reaction that marks a model record loaded is the swap of a task for
    that model, and reports it. *)
Lemma resume_marks_loaded k r s id :
  cache (resume k r s) !! cacheKey id = cache s !! cacheKey id
  ∨ ∃ tid t, job_of k = ModelJob tid ∧ mtasks s !! tid = Some t ∧ m_id t = id
             ∧ swaps_of tid (log (resume k r s)) ≠ [].
Proof.
  destruct k as [tid|tid d url|wid]; unfold_handlers; repeat case_match;
    simplify_eq; project;
    rewrite ?lookup_insert_ne by (apply not_eq_sym, cacheKey_worldKey);
    try (by left).
  all: match goal with Ht : mtasks _ !! _ = Some ?t |- _ =>
         destruct (decide (cacheKey (m_id t) = cacheKey id)) as [Heq|Hne];
           [right; apply cacheKey_inj in Heq; exists tid, t;
            repeat split; try done; apply swaps_of_snoc
           |left; by rewrite lookup_insert_ne]
       end.
Qed.

Lemma step_marks_loaded e s s' id :
  step e s = Some s' →
  cache s' !! cacheKey id = cache s !! cacheKey id
  ∨ cache s' !! cacheKey id = None
  ∨ (∃ g, cache s' !! cacheKey id = Some (model_entry g false))
  ∨ (∃ tid t, mtasks s' !! tid = Some t ∧ m_id t = id
              ∧ swaps_of tid (log s') ≠ []).
Proof.
  destruct e; simpl; intros Hstep; simplify_eq.
  - destruct (threeAvailable s) eqn:H3; [|left; unfold loadModel; by rewrite H3].
    assert (Hfresh : (∀ en, cache s !! cacheKey id0 = Some en → ce_loaded en = false) →
      cache (loadModel id0 opts s).2 !! cacheKey id = cache s !! cacheKey id
      ∨ (∃ g, cache (loadModel id0 opts s).2 !! cacheKey id = Some (model_entry g false))).
    { intros Hfresh. rewrite loadModel_fresh by done.
      cbn [snd]. unfold await, emit, attach. project.
      destruct (decide (id0 = id)) as [->|Hne].
      - right. eexists. by rewrite lookup_insert_eq.
      - left. rewrite lookup_insert_ne; [done|]. intros Heq. by apply cacheKey_inj in Heq. }
    destruct (cache s !! cacheKey id0) as [en|] eqn:Hen;
      [|destruct Hfresh; [naive_solver|by left|by right; right; left]].
    destruct (ce_loaded en) eqn:Hl; [left; by rewrite (loadModel_cached _ _ _ en)|].
    destruct Hfresh; [naive_solver|by left|by right; right; left].
  - left. destruct (loadWorld_cases id0 opts s)
      as [->|(w & s1 & _ & _ & _ & _ & _ & _ & _ & _ & _ & Hc & ->)]; [done|].
    by rewrite attempt_cache, Hc.
  - left. unfold cancelPoll, clearTimeout. by case_match.
  - left. apply call_cancelAllPolls; [done|]. project. by rewrite foldr_clearTimeout_cache.
  - apply call_clearCache; [by left|]. right; left. project. apply lookup_empty.
  - by left.
  - by left.
  - case_match; simplify_eq. by left.
  - repeat case_match; simplify_eq. left. by rewrite attempt_cache.
  - destruct (assoc p (inflight s)) as [k|] eqn:Ha; [|done]. simplify_eq.
    destruct (resume_marks_loaded k r (upd_inflight (remove_key p) s) id)
      as [->|(tid & t & _ & Ht & Hid & Hsw)]; [by left|].
    right; right; right. exists tid, t. split; [|done].
    destruct (resume_frame k r (upd_inflight (remove_key p) s)) as (_ & -> & _). done.
Qed.

Lemma step_loaded_by_swap e s s' :
  loaded_by_swap s → step e s = Some s' → loaded_by_swap s'.
Proof.
  intros Hinv Hstep id en Hen Hl.
  destruct (step_marks_loaded e s s' id Hstep) as [Heq|[Hnone|[[g Hnew]|Hswap]]].
  - rewrite Heq in Hen. destruct (Hinv id en Hen Hl) as (tid & t & Ht & Hid & Hsw).
    exists tid, t. split; [by eapply step_mtasks_lookup|]. split; [done|].
    destruct (step_log _ _ _ Hstep) as (l & -> & _). by apply swaps_of_grows.
  - by rewrite Hnone in Hen.
  - rewrite Hnew in Hen. by simplify_eq.
  - done.
Qed.

(** X13: getCachedModel reports a model as loaded only after onSwap has been
    called for a task of that model. *)
Theorem loaded_flag_follows_swap (h : hostenv) (t0 : Z) trace s id (g : option nat) :
  run trace (init h t0) = Some s →
  getCachedModel id s = Some (g, true) →
  ∃ tid t, mtasks s !! tid = Some t ∧ m_id t = id ∧ swaps_of tid (log s) ≠ [].
Proof.
  intros Hrun Hg.
  assert (Hinv : loaded_by_swap s).
  { revert Hrun. apply (run_invariant loaded_by_swap).
    - intros e s1 s2. apply step_loaded_by_swap.
    - intros id' e He. cbn [init cache] in He. by rewrite lookup_empty in He. }
  unfold getCachedModel in Hg.
  destruct (cache s !! cacheKey id) as [en|] eqn:Hen; [|done].
  injection Hg as _ Hl. by eapply Hinv.
Qed.

Lemma loaded_flag_follows_swap_witness :
  run loaded_run (init page 0) = Some (after loaded_run (init page 0))
  ∧ getCachedModel "m" (after loaded_run (init page 0)) = Some (Some 0, true)
  ∧ ∃ tid t, mtasks (after loaded_run (init page 0)) !! tid = Some t ∧ m_id t = "m"
             ∧ swaps_of tid (log (after loaded_run (init page 0))) ≠ [].
Proof.
  split; [vm_compute; reflexivity|].
  split; [vm_compute; reflexivity|].
  apply (loaded_flag_follows_swap page 0 loaded_run _ "m" (Some 0));
    vm_compute; reflexivity.
Defined.

Lemma worldKey_inj id id' : worldKey id = worldKey id' → id = id'.
Proof. unfold worldKey. intros Heq. cbn in Heq. by injection Heq. Qed.

Lemma worldResultOf_worldId id d r : worldResultOf id d = Ok r → worldId r = id ∧ raw r = d.
Proof.
  unfold worldResultOf.
  repeat match goal with
  | |- bind ?x _ = _ → _ => destruct x; cbn [bind]; [|done]
  end.
  by intros [= <-].
Qed.

(** A reaction leaves the record under a world key alone, or replaces it by
    a ready result for that world. *)
Lemma resume_world_cache k r s id :
  cache (resume k r s) !! worldKey id = cache s !! worldKey id
  ∨ ∃ res, cache (resume k r s) !! worldKey id = Some (world_entry res)
           ∧ isReady res = true ∧ worldId res = id.
Proof.
  destruct k as [tid|tid d url|wid]; unfold_handlers; repeat case_match;
    simplify_eq; project;
    rewrite ?lookup_insert_ne by apply cacheKey_worldKey;
    try (by left).
  all: match goal with
       | Hr : worldResultOf (w_id ?w) _ = Ok ?a |- _ =>
           destruct (decide (worldKey (w_id w) = worldKey id)) as [Heq|Hne];
             [right; exists a; rewrite Heq, lookup_insert_eq;
              apply worldKey_inj in Heq; apply worldResultOf_worldId in Hr as [Hr _];
              split; [done|]; split; [done|congruence]
             |left; by rewrite lookup_insert_ne]
       end.
Qed.

Lemma step_world_cache e s s' id :
  step e s = Some s' →
  cache s' !! worldKey id = cache s !! worldKey id
  ∨ cache s' !! worldKey id = None
  ∨ ∃ res, cache s' !! worldKey id = Some (world_entry res)
           ∧ isReady res = true ∧ worldId res = id.
Proof.
  destruct e; simpl; intros Hstep; simplify_eq.
  - left. destruct (threeAvailable s) eqn:H3; [|unfold loadModel; by rewrite H3].
    destruct (cache s !! cacheKey id0) as [en|] eqn:Hen.
    + destruct (ce_loaded en) eqn:Hl; [by rewrite (loadModel_cached _ _ _ en)|].
      rewrite loadModel_fresh by naive_solver. cbn [snd]. unfold await, emit, attach.
      project. by rewrite lookup_insert_ne by apply cacheKey_worldKey.
    + rewrite loadModel_fresh by naive_solver. cbn [snd]. unfold await, emit, attach.
      project. by rewrite lookup_insert_ne by apply cacheKey_worldKey.
  - left. destruct (loadWorld_cases id0 opts s)
      as [->|(w & s1 & _ & _ & _ & _ & _ & _ & _ & _ & _ & Hc & ->)]; [done|].
    by rewrite attempt_cache, Hc.
  - left. unfold cancelPoll, clearTimeout. by case_match.
  - left. apply call_cancelAllPolls; [done|]. project. by rewrite foldr_clearTimeout_cache.
  - apply call_clearCache; [by left|]. right; left. project. apply lookup_empty.
  - by left.
  - by left.
  - case_match; simplify_eq. by left.
  - repeat case_match; simplify_eq. left. by rewrite attempt_cache.
  - destruct (assoc p (inflight s)) as [k|] eqn:Ha; [|done]. simplify_eq.
    destruct (resume_world_cache k r (upd_inflight (remove_key p) s) id) as [->|Hnew];
      [by left|by right; right].
Qed.

Lemma run_world_cache_ready h t0 trace s :
  run trace (init h t0) = Some s → world_cache_ready s.
Proof.
  apply (run_invariant world_cache_ready).
  - intros e s1 s2 Hinv Hstep id en Hen.
    destruct (step_world_cache e s1 s2 id Hstep) as [Heq|[Hnone|(res & Hnew & Hr & Hid)]].
    + rewrite Heq in Hen. by apply Hinv.
    + by rewrite Hnone in Hen.
    + rewrite Hnew in Hen. injection Hen as <-. by exists res.
  - intros id e He. cbn [init cache] in He. by rewrite lookup_empty in He.
Qed.

(** X14: what getCachedWorld returns is a ready result for the world asked for,
    and it is what loadWorld then answers with, at once and without a fetch;
    when getCachedWorld returns null, loadWorld starts a task. *)
Theorem cached_world_is_ready (h : hostenv) (t0 : Z) trace s id :
  run trace (init h t0) = Some s →
  match getCachedWorld id s with
  | Some r => isReady r = true ∧ worldId r = id
              ∧ ∀ opts, loadWorld id opts s = (Cached (Some r), s)
  | None => ∀ opts, (loadWorld id opts s).1 = OfTask (length (wtasks s))
  end.
Proof.
  intros Hrun. pose proof (run_world_cache_ready h t0 trace s Hrun id) as Hinv.
  unfold getCachedWorld, loadWorld.
  destruct (cache s !! worldKey id) as [en|] eqn:Hen; [|done].
  destruct (Hinv en eq_refl) as (r & -> & Hr & Hid). simpl. done.
Qed.

Lemma cached_world_is_ready_witness :
  let trace := [CallLoadWorld "w" defaults;
                Settles 0 (Ok (JObj {["panoMedia" := JObj {["url" := JStr "p.jpg"]}]}))] in
  let s := after trace (init page 0) in
  run trace (init page 0) = Some s
  ∧ (worldId <$> getCachedWorld "w" s) = Some "w"
  ∧ match getCachedWorld "w" s with
    | Some r => isReady r = true ∧ worldId r = "w"
                ∧ ∀ opts, loadWorld "w" opts s = (Cached (Some r), s)
    | None => ∀ opts, (loadWorld "w" opts s).1 = OfTask (length (wtasks s))
    end.
Proof.
  cbv zeta.
  split; [vm_compute; reflexivity|].
  split; [vm_compute; reflexivity|].
  apply (cached_world_is_ready page 0
    [CallLoadWorld "w" defaults;
     Settles 0 (Ok (JObj {["panoMedia" := JObj {["url" := JStr "p.jpg"]}]}))]).
  vm_compute; reflexivity.
Defined.

End CacheContents.

(** ** Tasks that end *)

Section Endings.

Implicit Types (s : state) (trace : list event) (j : job).

Lemma cancelPoll_outstanding key s j : outstanding j (cancelPoll key s) ≤ outstanding j s.
Proof. unfold_handlers. case_match; count_tables. Qed.

Lemma settle_outstanding wid p s j : outstanding j (settle wid p s) = outstanding j s.
Proof. unfold settle. by repeat case_match. Qed.

Lemma settle_cache wid p s : cache (settle wid p s) = cache s.
Proof. unfold settle. by repeat case_match. Qed.

Lemma settle_activePolls wid p s : activePolls (settle wid p s) = activePolls s.
Proof. unfold settle. by repeat case_match. Qed.

Lemma settle_mtasks wid p s : mtasks (settle wid p s) = mtasks s.
Proof. unfold settle. by repeat case_match. Qed.

Lemma settle_wtasks_length wid p s : length (wtasks (settle wid p s)) = length (wtasks s).
Proof. unfold settle. repeat case_match; project; by rewrite ?length_insert. Qed.

Lemma cancelPoll_frame_fields key s :
  cache (cancelPoll key s) = cache s ∧ log (cancelPoll key s) = log s
  ∧ mtasks (cancelPoll key s) = mtasks s ∧ wtasks (cancelPoll key s) = wtasks s
  ∧ inflight (cancelPoll key s) = inflight s.
Proof. unfold cancelPoll, clearTimeout. by case_match. Qed.

Lemma cancelPoll_registry key s : activePolls (cancelPoll key s) !! key = None.
Proof.
  unfold cancelPoll. destruct (activePolls s !! key) eqn:Hl; [|done].
  project. apply lookup_delete_eq.
Qed.

(** When the reaction of a promise starts no new attempt, its task is at
    rest from then on. *)
Lemma at_rest_after h t0 trace s p k s' :
  run trace (init h t0) = Some s →
  assoc p (inflight s) = Some k →
  known (job_of k) s' →
  outstanding (job_of k) s' ≤ outstanding (job_of k) (upd_inflight (remove_key p) s) →
  ∀ trace' s'', run trace' s' = Some s'' →
    outstanding (job_of k) s'' = 0
    ∧ observed (job_of k) (log s'') = observed (job_of k) (log s').
Proof.
  intros Hrun Hp Hknown Hle trace' s'' Hrun'.
  destruct (run_tables h t0 trace s Hrun) as [_ Hseq].
  pose proof (settled_resumed p k s Hp) as Hlt.
  specialize (Hseq (job_of k)).
  apply (run_idle (job_of k) trace' s' s''); [done|lia|done].
Qed.

(** X15: when a world result arrives that has a splat or a panorama, it is put
    into the cache, the Poll Registry entry of the world is cleared, onReady
    is called, and the task never fetches or reports again. *)
Theorem world_ready_ends_polling (h : hostenv) (t0 : Z) trace s (p wid : nat)
    (w : wtask) (d : jsval) (r : worldResult) :
  run trace (init h t0) = Some s →
  assoc p (inflight s) = Some (AwaitWorld wid) →
  wtasks s !! wid = Some w →
  worldResultOf (w_id w) d = Ok r → isReady r = true →
  ∃ s', step (Settles p (Ok d)) s = Some s'
    ∧ getCachedWorld (w_id w) s' = Some r
    ∧ activePolls s' !! worldKey (w_id w) = None
    ∧ log s' = log s ++ [Progress (WorldJob wid) d; Ready wid r]
    ∧ ∀ trace' s'', run trace' s' = Some s'' →
        outstanding (WorldJob wid) s'' = 0
        ∧ observed (WorldJob wid) (log s'') = observed (WorldJob wid) (log s').
Proof.
  intros Hrun Hp Hw Hr Hready. eexists. split.
  { simpl. rewrite Hp. cbn [resume]. project. rewrite Hw. reflexivity. }
  set (s0 := upd_inflight (remove_key p) s).
  unfold onWorldData. rewrite Hr. unfold isReady in Hready. rewrite Hready.
  set (s1 := upd_cache _ (emit _ s0)).
  destruct (cancelPoll_frame_fields (worldKey (w_id w)) s1) as (Hc & Hl & Hm & Hwt & Hfl).
  split.
  { unfold getCachedWorld, emit at 1. project. rewrite settle_cache, Hc.
    subst s1. project. by rewrite lookup_insert_eq. }
  split.
  { unfold emit at 1. project. rewrite settle_activePolls. apply cancelPoll_registry. }
  split.
  { unfold emit at 1. project. rewrite settle_log, Hl. subst s1 s0.
    unfold emit. project. by rewrite <- app_assoc. }
  apply (at_rest_after h t0 trace s p (AwaitWorld wid)); try done.
  - cbn [known job_of]. unfold emit at 1. project.
    rewrite settle_wtasks_length, Hwt. by eapply lookup_lt_Some.
  - cbn [job_of].
    change (outstanding (WorldJob wid) (emit (Ready wid r) ?x))
      with (outstanding (WorldJob wid) x).
    rewrite settle_outstanding.
    etrans; [apply cancelPoll_outstanding|]. done.
Qed.

Lemma world_ready_ends_polling_witness :
  let d := JObj {["panoMedia" := JObj {["url" := JStr "p.jpg"]}]} in
  let s := after [CallLoadWorld "w" defaults] (init page 0) in
  let w := {| w_id := "w"; w_poll := true; w_pollInterval := 5000;
              w_maxPollTime := 300000; w_startTime := 0; w_resolved := false;
              w_promise := Pending |} in
  run [CallLoadWorld "w" defaults] (init page 0) = Some s
  ∧ assoc 0 (inflight s) = Some (AwaitWorld 0)
  ∧ wtasks s !! 0 = Some w
  ∧ match worldResultOf "w" d with Ok r => isReady r = true | Throw _ => False end
  ∧ ∃ s', step (Settles 0 (Ok d)) s = Some s'
          ∧ activePolls s' !! worldKey "w" = None.
Proof.
  cbv zeta.
  split; [vm_compute; reflexivity|].
  split; [vm_compute; reflexivity|].
  split; [vm_compute; reflexivity|].
  split; [vm_compute; reflexivity|].
  edestruct (world_ready_ends_polling page 0 [CallLoadWorld "w" defaults]
               (after [CallLoadWorld "w" defaults] (init page 0)) 0 0
               {| w_id := "w"; w_poll := true; w_pollInterval := 5000;
                  w_maxPollTime := 300000; w_startTime := 0; w_resolved := false;
                  w_promise := Pending |}
               (JObj {["panoMedia" := JObj {["url" := JStr "p.jpg"]}]}))
    as (s' & Hstep & _ & Hreg & _);
    [vm_compute; reflexivity | vm_compute; reflexivity | vm_compute; reflexivity
    | apply worldResultOf_obj | vm_compute; reflexivity |].
  exists s'. split; [exact Hstep|exact Hreg].
Defined.

(** X16: when a descriptor with a mesh URL arrives and no GLTFLoader is
    available, the error callback is told once and the task gives up: even
    with polling on it schedules nothing, and it stays at rest whatever
    happens later, a loader being registered included. *)
Theorem no_loader_gives_up (h : hostenv) (t0 : Z) trace s (p tid : nat)
    (t : mtask) (d u : jsval) :
  run trace (init h t0) = Some s →
  assoc p (inflight s) = Some (AwaitModel tid) →
  mtasks s !! tid = Some t →
  resolveMeshUrl d = Ok u → truthy u = true →
  gltfLoaderAvailable s = false →
  ∃ s', step (Settles p (Ok d)) s = Some s'
    ∧ log s' = log s ++ [Progress (ModelJob tid) d; Error (ModelJob tid) GLTFLoaderUnavailable]
    ∧ timers s' = timers s
    ∧ activePolls s' = activePolls s
    ∧ cache s' = cache s
    ∧ ∀ trace' s'', run trace' s' = Some s'' →
        outstanding (ModelJob tid) s'' = 0
        ∧ observed (ModelJob tid) (log s'') = observed (ModelJob tid) (log s').
Proof.
  intros Hrun Hp Ht Hu Htruthy Hno. eexists. split.
  { simpl. rewrite Hp. cbn [resume]. project. rewrite Ht. reflexivity. }
  unfold onModelData. rewrite Hu, Htruthy.
  assert (Hno' : gltfLoaderAvailable
                   (emit (Progress (ModelJob tid) d) (upd_inflight (remove_key p) s))
                 = false) by done.
  rewrite Hno'. cbn [negb]. unfold emit. project.
  split; [by rewrite <- app_assoc|]. split; [done|]. split; [done|]. split; [done|].
  apply (at_rest_after h t0 trace s p (AwaitModel tid)); try done.
  simpl. by eapply lookup_lt_Some.
Qed.

Lemma no_loader_gives_up_witness :
  let host := {| three := true; threeGLTFLoader := false |} in
  let s := after [CallLoadModel "m" defaults] (init host 0) in
  let t := {| m_id := "m"; m_group := 0; m_placeholder := Some 1; m_poll := true;
              m_pollInterval := 5000; m_maxPollTime := 300000; m_startTime := 0 |} in
  run [CallLoadModel "m" defaults] (init host 0) = Some s
  ∧ assoc 0 (inflight s) = Some (AwaitModel 0)
  ∧ mtasks s !! 0 = Some t
  ∧ resolveMeshUrl ready = Ok (JStr "b.glb")
  ∧ gltfLoaderAvailable s = false
  ∧ ∃ s', step (Settles 0 (Ok ready)) s = Some s' ∧ timers s' = timers s.
Proof.
  cbv zeta.
  split; [vm_compute; reflexivity|].
  split; [vm_compute; reflexivity|].
  split; [vm_compute; reflexivity|].
  split; [vm_compute; reflexivity|].
  split; [vm_compute; reflexivity|].
  destruct (no_loader_gives_up {| three := true; threeGLTFLoader := false |} 0
              [CallLoadModel "m" defaults]
              (after [CallLoadModel "m" defaults]
                 (init {| three := true; threeGLTFLoader := false |} 0)) 0 0
              {| m_id := "m"; m_group := 0; m_placeholder := Some 1; m_poll := true;
                 m_pollInterval := 5000; m_maxPollTime := 300000; m_startTime := 0 |}
              ready (JStr "b.glb"))
    as (s' & Hstep & _ & Htimers & _); try (vm_compute; reflexivity).
  exists s'. split; [exact Hstep|exact Htimers].
Defined.

(** X17: a fetch that delivers null or undefined instead of a descriptor is
    shown to onProgress and then handled exactly like a fetch that failed
    with a TypeError: reported to onError and retried or given up under the
    same rule. *)
Theorem nullish_descriptor_is_a_failure (p : nat) (k : cont) (d : jsval) s :
  assoc p (inflight s) = Some k →
  known (job_of k) s →
  (∀ tid data url, k ≠ AwaitGLB tid data url) →
  nullish d = true →
  step (Settles p (Ok d)) s
  = step (Settles p (Throw TypeError)) (emit (Progress (job_of k) d) s).
Proof.
  intros Hp Hknown Hk Hd. cbn [step]. unfold emit at 1. project. rewrite Hp. f_equal.
  change (upd_inflight (remove_key p) (emit ?o s))
    with (emit o (upd_inflight (remove_key p) s)).
  assert (Hknown' : known (job_of k) (upd_inflight (remove_key p) s)) by by destruct k.
  generalize dependent (upd_inflight (remove_key p) s). clear s Hp Hknown. intros s Hknown.
  assert (Hm : resolveMeshUrl d = Throw TypeError) by (by destruct d).
  assert (Hw : ∀ id, worldResultOf id d = Throw TypeError) by (by destruct d).
  destruct k as [tid|tid data url|wid]; cbn [resume job_of known] in *.
  - change (mtasks (emit ?o s)) with (mtasks s).
    apply lookup_lt_is_Some in Hknown as [t ->]. unfold onModelData. by rewrite Hm.
  - by destruct (Hk tid data url).
  - change (wtasks (emit ?o s)) with (wtasks s).
    apply lookup_lt_is_Some in Hknown as [w ->]. unfold onWorldData. by rewrite Hw.
Qed.

Lemma nullish_descriptor_is_a_failure_witness :
  let s := after [CallLoadModel "m" defaults] (init page 0) in
  assoc 0 (inflight s) = Some (AwaitModel 0)
  ∧ known (ModelJob 0) s
  ∧ nullish JNull = true
  ∧ step (Settles 0 (Ok JNull)) s
    = step (Settles 0 (Throw TypeError)) (emit (Progress (ModelJob 0) JNull) s).
Proof.
  cbv zeta.
  split; [vm_compute; reflexivity|]. split; [vm_compute; lia|]. split; [reflexivity|].
  apply (nullish_descriptor_is_a_failure 0 (AwaitModel 0) JNull);
    [vm_compute; reflexivity | vm_compute; lia | done | reflexivity].
Defined.

End Endings.

(** ** The polling budget *)

Section Budget.

Implicit Types (s : state) (trace : list event) (x : positive * (Z * job)).

Lemma settle_now wid p s : now (settle wid p s) = now s.
Proof. unfold settle. by repeat case_match. Qed.

Lemma schedule_in_budget key j d poll start maxPoll s x :
  may_poll poll start maxPoll s = true →
  x ∈ timers (schedule key j d s) →
  x ∈ timers s
  ∨ (x.2.2 = j ∧ poll = true ∧ (x.2.1 < start + maxPoll + Z.max 0 d)%Z).
Proof.
  unfold may_poll. intros [-> Hlt%Z.ltb_lt]%andb_true_iff.
  rewrite schedule_timers, elem_of_app, list_elem_of_singleton.
  intros [?| ->]; [by left|right]. simpl. split; [done|]. split; [done|lia].
Qed.

Lemma onModelError_timers tid t err s x :
  x ∈ timers (onModelError tid t err s) →
  x ∈ timers s
  ∨ (x.2.2 = ModelJob tid ∧ m_poll t = true
     ∧ (x.2.1 < m_startTime t + m_maxPollTime t + Z.max 0 (m_pollInterval t))%Z).
Proof.
  unfold onModelError. case_match eqn:Hp; [|by left].
  intros Hx. by apply (schedule_in_budget _ _ _ _ _ _ _ _ Hp) in Hx.
Qed.

Lemma onModelData_timers tid t d s x :
  x ∈ timers (onModelData tid t d s) →
  x ∈ timers s
  ∨ (x.2.2 = ModelJob tid ∧ m_poll t = true
     ∧ (x.2.1 < m_startTime t + m_maxPollTime t + Z.max 0 (m_pollInterval t))%Z).
Proof.
  unfold onModelData, loadGLB.
  destruct (resolveMeshUrl d) as [u|err];
    [|intros Hx; apply onModelError_timers in Hx; exact Hx].
  destruct (truthy u).
  { destruct (negb _); [by left|]. destruct (_ || _); [by left|].
    intros Hx; apply onModelError_timers in Hx; exact Hx. }
  case_match eqn:Hp.
  - intros Hx. by apply (schedule_in_budget _ _ _ _ _ _ _ _ Hp) in Hx.
  - case_match; by left.
Qed.

Lemma onSceneLoaded_timers tid t d s x :
  x ∈ timers (onSceneLoaded tid t d s) →
  x ∈ timers s
  ∨ (x.2.2 = ModelJob tid ∧ m_poll t = true
     ∧ (x.2.1 < m_startTime t + m_maxPollTime t + Z.max 0 (m_pollInterval t))%Z).
Proof.
  unfold onSceneLoaded, newObject.
  repeat case_match; simplify_eq; intros Hx;
    try (apply onModelError_timers in Hx; by project);
    left; unfold emit in Hx; project; apply cancelPoll_timers in Hx; by project.
Qed.

Lemma onWorldError_timers wid w err s x :
  x ∈ timers (onWorldError wid w err s) →
  x ∈ timers s
  ∨ (x.2.2 = WorldJob wid ∧ w_poll w = true
     ∧ (x.2.1 < w_startTime w + w_maxPollTime w + Z.max 0 (w_pollInterval w))%Z).
Proof.
  unfold onWorldError. case_match eqn:Hp.
  - intros Hx. by apply (schedule_in_budget _ _ _ _ _ _ _ _ Hp) in Hx.
  - rewrite settle_timers. by left.
Qed.

Lemma onWorldData_timers wid w d s x :
  x ∈ timers (onWorldData wid w d s) →
  x ∈ timers s
  ∨ (x.2.2 = WorldJob wid ∧ w_poll w = true
     ∧ (x.2.1 < w_startTime w + w_maxPollTime w + Z.max 0 (w_pollInterval w))%Z).
Proof.
  unfold onWorldData.
  destruct (worldResultOf (w_id w) d) as [r|err];
    [|intros Hx; apply onWorldError_timers in Hx; exact Hx].
  destruct (truthy (splatUrl r) || truthy (panoramaUrl r)).
  { intros Hx. left. unfold emit at 1 in Hx. project.
    rewrite settle_timers in Hx. by apply cancelPoll_timers in Hx. }
  case_match eqn:Hp.
  - intros Hx. unfold may_poll in Hp.
    apply (schedule_in_budget _ _ _ (w_poll w) (w_startTime w) (w_maxPollTime w)) in Hx.
    + by rewrite settle_timers in Hx.
    + unfold may_poll. by rewrite settle_now.
  - case_match; unfold emit; project; rewrite settle_timers; by left.
Qed.

Lemma resume_timers k r s x :
  x ∈ timers (resume k r s) → x ∈ timers s ∨ timer_in_budget s x.
Proof.
  unfold timer_in_budget.
  destruct k as [tid|tid data url|wid]; cbn [resume].
  - destruct (mtasks s !! tid) as [t|] eqn:Ht; [|by left].
    destruct r; intros Hx;
      [apply onModelData_timers in Hx|apply onModelError_timers in Hx];
      (destruct Hx as [?|(-> & Hp & Hd)]; [by left|right; eauto]).
  - destruct (mtasks s !! tid) as [t|] eqn:Ht; [|by left].
    destruct r; intros Hx;
      [apply onSceneLoaded_timers in Hx|apply onModelError_timers in Hx];
      (destruct Hx as [?|(-> & Hp & Hd)]; [by left|right; eauto]).
  - destruct (wtasks s !! wid) as [w|] eqn:Hw; [|by left].
    destruct r; intros Hx;
      [apply onWorldData_timers in Hx|apply onWorldError_timers in Hx];
      (destruct Hx as [?|(-> & Hp & Hd)]; [by left|right; eauto]).
Qed.

Lemma attempt_timers j s : timers (attempt j s) = timers s.
Proof. destruct j; cbn [attempt]; unfold attemptModel, attemptWorld; by case_match. Qed.

Lemma step_timer_in_budget e s s' x :
  step e s = Some s' → timer_in_budget s x → timer_in_budget s' x.
Proof.
  intros Hstep. unfold timer_in_budget. destruct (x.2.2) as [tid|wid].
  - intros (t & Ht & ?). exists t. split; [|done]. by eapply step_mtasks_lookup.
  - intros (w & Hw & Hp & Hd).
    destruct (step_wtasks _ _ _ _ _ Hstep Hw) as [Hw'|(_ & p & _ & Hw')]; eauto.
Qed.

Lemma step_timers e s s' x :
  step e s = Some s' → x ∈ timers s' → x ∈ timers s ∨ timer_in_budget s x.
Proof.
  destruct e; simpl; intros Hstep; simplify_eq.
  - destruct (loadModel_cases id opts s)
      as [->|(t & s1 & _ & _ & _ & _ & Ht & _ & _ & ->)]; [by left|].
    rewrite attempt_timers, Ht. by left.
  - destruct (loadWorld_cases id opts s)
      as [->|(w & s1 & _ & _ & _ & _ & _ & _ & Ht & _ & _ & _ & ->)]; [by left|].
    rewrite attempt_timers, Ht. by left.
  - left. by eapply cancelPoll_timers.
  - left. revert H. apply call_cancelAllPolls; [done|]. project.
    by intros [? _]%foldr_clearTimeout_timers.
  - left. revert H. apply call_clearCache; [done|]. project.
    by intros [? _]%foldr_clearTimeout_timers.
  - by left.
  - by left.
  - case_match; simplify_eq. by left.
  - destruct (assoc h (timers s)) as [[due j]|]; [|done]. case_match; simplify_eq.
    rewrite attempt_timers. unfold clearTimeout. project. left.
    by eapply elem_of_remove_key.
  - destruct (assoc p (inflight s)) as [k|]; [|done]. simplify_eq.
    intros Hx. by apply resume_timers in Hx.
Qed.

(** X18: a pending re-poll always belongs to a task that was created with polling
    on, and it was set while the task was under its ceiling: it is due less
    than one interval after startTime + maxPollTime. *)
Theorem polls_stay_in_budget (h : hostenv) (t0 : Z) trace s x :
  run trace (init h t0) = Some s → x ∈ timers s → timer_in_budget s x.
Proof.
  intros Hrun. revert x. change (timers_in_budget s).
  apply (run_invariant timers_in_budget trace (init h t0) s); [|intros x Hx; by apply elem_of_nil in Hx|done].
  intros e s1 s2 Hinv Hstep x Hx. eapply step_timer_in_budget; [done|].
  destruct (step_timers e s1 s2 x Hstep Hx); auto.
Qed.

Lemma polls_stay_in_budget_witness :
  let trace := [CallLoadModel "m" short_poll; Settles 0 (Ok not_ready)] in
  let s := after trace (init page 0) in
  run trace (init page 0) = Some s
  ∧ timers s = [(1%positive, (5000%Z, ModelJob 0))]
  ∧ timer_in_budget s (1%positive, (5000%Z, ModelJob 0)).
Proof.
  cbv zeta. split; [vm_compute; reflexivity|]. split; [vm_compute; reflexivity|].
  apply (polls_stay_in_budget page 0
           [CallLoadModel "m" short_poll; Settles 0 (Ok not_ready)]);
    [vm_compute; reflexivity|].
  replace (timers _) with [(1%positive, (5000%Z, ModelJob 0))]
    by (vm_compute; reflexivity).
  apply list_elem_of_here.
Defined.

End Budget.

(** ** How often a task fetches *)

Section Fetches.

Implicit Types (s : state) (trace : list event) (j : job).

Lemma fetches_app j l1 l2 : fetches j (l1 ++ l2) = fetches j l1 + fetches j l2.
Proof. unfold fetches. by rewrite filter_app, length_app. Qed.

Lemma fetches_none j l : Forall (λ o, is_fetch j o = false) l → fetches j l = 0.
Proof.
  intros Hall. unfold fetches. rewrite filter_none; [done|].
  intros o Ho. eapply Forall_forall in Hall; [|done]. congruence.
Qed.

Lemma attempt_fetches j0 s j :
  known j0 s →
  fetches j (log (attempt j0 s))
  = fetches j (log s) + (if decide (j = j0) then 1 else 0).
Proof.
  destruct j0 as [tid|wid]; cbn [attempt known]; intros Hk;
    apply lookup_lt_is_Some in Hk as [t Ht];
    unfold attemptModel, attemptWorld; rewrite Ht; unfold await, emit; project;
    rewrite fetches_app; f_equal; unfold fetches;
    rewrite filter_cons, filter_nil; cbn [is_fetch];
    repeat case_decide; simplify_eq; try done;
    by match goal with H : bool_decide _ = true |- _ =>
         apply bool_decide_eq_true in H end.
Qed.

Lemma emit_fetches o s j :
  is_fetch j o = false → fetches j (log (emit o s)) = fetches j (log s).
Proof.
  intros Ho. unfold emit. project. rewrite fetches_app.
  unfold fetches at 2. rewrite filter_cons, filter_nil, decide_False; [simpl; lia|].
  by rewrite Ho.
Qed.

Lemma schedule_log key j d s : log (schedule key j d s) = log s.
Proof. done. Qed.

Lemma cancelPoll_log key s : log (cancelPoll key s) = log s.
Proof. apply cancelPoll_frame_fields. Qed.

Lemma onModelError_fetches tid t err s j :
  fetches j (log (onModelError tid t err s)) = fetches j (log s).
Proof.
  unfold onModelError. case_match; rewrite ?schedule_log; by apply emit_fetches.
Qed.

Lemma onModelData_fetches tid t d s j :
  fetches j (log (onModelData tid t d s)) = fetches j (log s).
Proof.
  unfold onModelData, loadGLB.
  destruct (resolveMeshUrl d) as [u|err];
    [|by rewrite onModelError_fetches, emit_fetches].
  destruct (truthy u).
  { destruct (negb _); [by rewrite !emit_fetches|].
    destruct (_ || _); [|by rewrite onModelError_fetches, emit_fetches].
    unfold await. project. by rewrite !emit_fetches. }
  case_match; [by rewrite schedule_log, emit_fetches|].
  case_match; by rewrite ?emit_fetches.
Qed.

Lemma onSceneLoaded_fetches tid t d s j :
  fetches j (log (onSceneLoaded tid t d s)) = fetches j (log s).
Proof.
  unfold onSceneLoaded, newObject.
  repeat case_match; simplify_eq;
    rewrite ?onModelError_fetches, ?emit_fetches, ?cancelPoll_log by done; done.
Qed.

Lemma onWorldError_fetches wid w err s j :
  fetches j (log (onWorldError wid w err s)) = fetches j (log s).
Proof.
  unfold onWorldError. case_match; rewrite ?schedule_log, ?settle_log;
    by apply emit_fetches.
Qed.

Lemma onWorldData_fetches wid w d s j :
  fetches j (log (onWorldData wid w d s)) = fetches j (log s).
Proof.
  unfold onWorldData.
  destruct (worldResultOf (w_id w) d) as [r|err];
    [|by rewrite onWorldError_fetches, emit_fetches].
  destruct (truthy (splatUrl r) || truthy (panoramaUrl r)).
  { rewrite emit_fetches by done. rewrite settle_log, cancelPoll_log.
    project. by rewrite emit_fetches. }
  case_match; [by rewrite schedule_log, settle_log, emit_fetches|].
  case_match; rewrite ?emit_fetches, ?settle_log by done; by rewrite emit_fetches.
Qed.

Lemma resume_fetches k r s j : fetches j (log (resume k r s)) = fetches j (log s).
Proof.
  destruct k; cbn [resume]; repeat case_match; try done;
    auto using onModelError_fetches, onModelData_fetches, onSceneLoaded_fetches,
      onWorldError_fetches, onWorldData_fetches.
Qed.

Lemma frame_polling s s' j : frame s s' → polling j s' = polling j s.
Proof.
  intros (_ & Hm & Hlen & Hw). destruct j as [tid|wid]; simpl.
  - by rewrite Hm.
  - destruct (wtasks s !! wid) as [w|] eqn:Hl.
    + by destruct (Hw wid w Hl) as [->|(_ & p & _ & ->)].
    + apply lookup_ge_None in Hl.
      rewrite (proj2 (lookup_ge_None (wtasks s') wid)); [done|lia].
Qed.

Lemma fetched_once_frame s s' :
  frame s s' →
  (∀ j, fetches j (log s') = fetches j (log s)
        ∨ (fetches j (log s') = fetches j (log s) + 1 ∧ polling j s = Some true)) →
  fetched_once s → fetched_once s'.
Proof.
  intros Hf Hlog Hinv j. rewrite (frame_polling s s' j Hf).
  specialize (Hinv j). destruct (Hlog j) as [->|[-> Hp]]; [done|].
  rewrite Hp in *. split; [lia|done].
Qed.

Lemma fetched_once_new s s1 j0 poll :
  polling j0 s = None → polling j0 s1 = Some poll →
  (∀ j, j ≠ j0 → polling j s1 = polling j s) →
  known j0 s1 → log s1 = log s →
  fetched_once s → fetched_once (attempt j0 s1).
Proof.
  intros Hnone Hsome Hother Hk Hl Hinv j.
  rewrite (frame_polling s1 _ j (attempt_frame _ _)), attempt_fetches, Hl by done.
  specialize (Hinv j). case_decide as Hj.
  - subst j. rewrite Hnone in Hinv. rewrite Hsome, Hinv. split; [lia|done].
  - by rewrite Hother, Nat.add_0_r.
Qed.

Lemma step_fetched_once e s s' :
  tables_known s → timers_in_budget s → fetched_once s →
  step e s = Some s' → fetched_once s'.
Proof.
  intros Hk Hb Hinv Hstep.
  destruct (decide (∃ j, new_job e s = Some j)) as [[j0 Hnew]|Hold].
  - destruct e; simpl in Hnew; simplify_eq; simpl in Hstep; simplify_eq.
    + destruct (loadModel_cases id opts s)
        as [->|(t & s1 & _ & Hm & _ & Hw & _ & _ & Hl & ->)]; [done|].
      apply (fetched_once_new s s1 _ (m_poll t)); try done.
      * simpl. by rewrite lookup_ge_None_2.
      * simpl. by rewrite Hm, list_lookup_middle.
      * intros [tid|wid] Hne; simpl; rewrite ?Hm, ?Hw; [|done].
        destruct (decide (tid < length (mtasks s))).
        { by rewrite lookup_app_l. }
        rewrite !lookup_ge_None_2; [done|lia|].
        rewrite length_app. simpl. assert (tid ≠ length (mtasks s)) by congruence. lia.
      * simpl. rewrite Hm, length_app. simpl. lia.
    + destruct (loadWorld_cases id opts s)
        as [->|(w & s1 & _ & _ & _ & Hw & _ & Hm & _ & _ & Hl & _ & ->)]; [done|].
      apply (fetched_once_new s s1 _ (w_poll w)); try done.
      * simpl. by rewrite lookup_ge_None_2.
      * simpl. by rewrite Hw, list_lookup_middle.
      * intros [tid|wid] Hne; simpl; rewrite ?Hm, ?Hw; [done|].
        destruct (decide (wid < length (wtasks s))).
        { by rewrite lookup_app_l. }
        rewrite !lookup_ge_None_2; [done|lia|].
        rewrite length_app. simpl. assert (wid ≠ length (wtasks s)) by congruence. lia.
      * simpl. rewrite Hw, length_app. simpl. lia.
  - assert (Hf : frame s s').
    { destruct (step_frame _ _ _ Hstep) as [?|[(id & opts & ? & -> & _)|(id & opts & ? & -> & _)]];
        [done|..]; destruct Hold; simpl; eauto. }
    apply (fetched_once_frame s s' Hf); [|done]. intros j.
    destruct e; simpl in Hstep; simplify_eq.
    + destruct Hold. simpl. eauto.
    + destruct Hold. simpl. eauto.
    + left. by rewrite cancelPoll_log.
    + left. apply call_cancelAllPolls; [done|]. project. by rewrite foldr_clearTimeout_log.
    + left. apply call_clearCache; [done|]. project. by rewrite foldr_clearTimeout_log.
    + by left.
    + by left.
    + case_match; simplify_eq. by left.
    + destruct (assoc h (timers s)) as [[due j0]|] eqn:Ha; [|done].
      case_match; simplify_eq.
      assert (Hknown : known j0 (clearTimeout h s)).
      { apply (Hk j0). by eapply timer_outstanding. }
      rewrite (attempt_fetches j0 _ j Hknown).
      case_decide as Hj; [subst j0; right|left; apply Nat.add_0_r].
      split; [done|].
      apply assoc_elem_of, Hb in Ha. unfold timer_in_budget in Ha. simpl in Ha.
      destruct j as [tid|wid]; destruct Ha as (t & Ht & Hp & _); simpl;
        by rewrite Ht, <- Hp.
    + destruct (assoc p (inflight s)) as [k|] eqn:Ha; [|done]. simplify_eq.
      left. exact (resume_fetches k r (upd_inflight (remove_key p) s) j).
Qed.

(** X19: a task fetches its descriptor at least once, and a task created with
    poll: false fetches it exactly once, whatever the fetch delivers:
    a failed fetch is not retried. *)
Theorem poll_off_fetches_once (h : hostenv) (t0 : Z) trace s j (poll : bool) :
  run trace (init h t0) = Some s →
  polling j s = Some poll →
  1 ≤ fetches j (log s) ∧ (poll = false → fetches j (log s) = 1).
Proof.
  intros Hrun Hp.
  assert (Hinv : tables_known s ∧ timers_in_budget s ∧ fetched_once s).
  { revert Hrun.
    apply (run_invariant (λ s, tables_known s ∧ timers_in_budget s ∧ fetched_once s)).
    - intros e s1 s2 (Hk & Hb & Hf) Hstep. split; [by eapply step_tables_known|].
      split; [|by eapply step_fetched_once].
      intros x Hx. eapply step_timer_in_budget; [done|].
      destruct (step_timers e s1 s2 x Hstep Hx); auto.
    - split; [apply init_tables_known|]. split.
      + intros x Hx. by apply elem_of_nil in Hx.
      + by intros [tid|wid]. }
  destruct Hinv as (_ & _ & Hf). specialize (Hf j). by rewrite Hp in Hf.
Qed.

Lemma poll_off_fetches_once_witness :
  let trace := [CallLoadModel "m" no_poll; Settles 0 (Throw TypeError); Tick 600000] in
  let s := after trace (init page 0) in
  run trace (init page 0) = Some s
  ∧ polling (ModelJob 0) s = Some false
  ∧ fetches (ModelJob 0) (log s) = 1.
Proof.
  cbv zeta. split; [vm_compute; reflexivity|]. split; [vm_compute; reflexivity|].
  apply (poll_off_fetches_once page 0
           [CallLoadModel "m" no_poll; Settles 0 (Throw TypeError); Tick 600000]
           _ (ModelJob 0) false); [vm_compute; reflexivity ..|reflexivity].
Defined.

End Fetches.

(** ** A page without THREE *)

Section WithoutThree.

Implicit Types (s : state) (trace : list event).

Lemma loadModel_without_three id opts s :
  threeAvailable s = false → loadModel id opts s = (None, s).
Proof. intros H3. unfold loadModel. by rewrite H3. Qed.

(** X20: on a page without THREE, loadModel answers null and does nothing at all:
    no model task is ever created, nothing is fetched, reported or scheduled
    for a model, and no model record enters the cache.  Worlds are not
    affected: loadWorld starts its task as on any page. *)
Theorem without_three_no_model_work (h : hostenv) (t0 : Z) trace s :
  three h = false →
  run trace (init h t0) = Some s →
  (∀ id opts, loadModel id opts s = (None, s))
  ∧ mtasks s = []
  ∧ (∀ o, o ∈ log s → ∀ tid, obs_job o ≠ ModelJob tid)
  ∧ (∀ tid, outstanding (ModelJob tid) s = 0)
  ∧ (∀ id, getCachedModel id s = None)
  ∧ (∀ id opts, getCachedWorld id s = None →
       (loadWorld id opts s).1 = OfTask (length (wtasks s))).
Proof.
  intros H3 Hrun.
  assert (Hinv : host s = h ∧ mtasks s = [] ∧ tables_known s
                 ∧ (∀ o, o ∈ log s → ∀ tid, obs_job o ≠ ModelJob tid)).
  { revert Hrun.
    apply (run_invariant (λ s, host s = h ∧ mtasks s = [] ∧ tables_known s
                 ∧ (∀ o, o ∈ log s → ∀ tid, obs_job o ≠ ModelJob tid))).
    - intros e s1 s2 (Hh & Hm & Hk & Hl) Hstep.
      assert (Hno : ∀ tid, outstanding (ModelJob tid) s1 = 0).
      { intros tid. destruct (decide (0 < outstanding (ModelJob tid) s1)) as [Hpos|]; [|lia].
        apply Hk in Hpos. simpl in Hpos. rewrite Hm in Hpos. simpl in Hpos. lia. }
      assert (Hcase : (∃ id opts, e = CallLoadModel id opts)
                      ∨ ¬ ∃ id opts, e = CallLoadModel id opts).
      { destruct e; eauto; right; by intros (? & ? & ?). }
      destruct Hcase as [(id & opts & ->)|Hother].
      { simpl in Hstep. rewrite loadModel_without_three in Hstep
          by (unfold threeAvailable; by rewrite Hh).
        by simplify_eq. }
      split; [by rewrite (step_host _ _ _ Hstep)|].
      split.
      { destruct (step_mtasks _ _ _ Hstep) as [->|(id & opts & ? & -> & _)]; [done|].
        destruct Hother; eauto. }
      split; [by eapply step_tables_known|].
      destruct (step_log _ _ _ Hstep) as (l & -> & Hall).
      intros o [Ho|Ho]%elem_of_app; [by apply Hl|].
      eapply Forall_forall in Hall as (j0 & Hj0 & <- & _); [|done].
      intros tid Htid. rewrite Htid in Hj0.
      destruct (event_job_cases _ _ _ Hj0) as [Hpos|Hnew].
      + specialize (Hno tid). lia.
      + destruct e; simpl in Hnew; simplify_eq. destruct Hother; eauto.
    - split; [done|]. split; [done|]. split; [apply init_tables_known|].
      intros o Ho. by apply elem_of_nil in Ho. }
  destruct Hinv as (Hh & Hm & Hk & Hl).
  assert (H3' : threeAvailable s = false) by (unfold threeAvailable; by rewrite Hh).
  split; [intros id opts; by apply loadModel_without_three|].
  split; [done|]. split; [done|]. split.
  { intros tid. destruct (decide (0 < outstanding (ModelJob tid) s)) as [Hpos|]; [|lia].
    apply Hk in Hpos. simpl in Hpos. rewrite Hm in Hpos. simpl in Hpos. lia. }
  split.
  { intros id. unfold getCachedModel.
    destruct (cache s !! cacheKey id) as [e|] eqn:He; [|done].
    destruct (run_model_cache_ok h t0 trace s Hrun id e He) as [H3'' _]. congruence. }
  intros id opts Hnone. unfold getCachedWorld in Hnone. unfold loadWorld.
  destruct (cache s !! worldKey id) as [e|] eqn:He; [|done].
  destruct (run_world_cache_ready h t0 trace s Hrun id e He) as (r & -> & _). done.
Qed.

Lemma without_three_no_model_work_witness :
  let host := {| three := false; threeGLTFLoader := false |} in
  let trace := [CallLoadModel "m" defaults; CallLoadWorld "w" defaults;
                Settles 0 (Ok not_ready)] in
  let s := after trace (init host 0) in
  run trace (init host 0) = Some s
  ∧ mtasks s = []
  ∧ ∀ id, getCachedModel id s = None.
Proof.
  cbv zeta. split; [vm_compute; reflexivity|].
  destruct (without_three_no_model_work {| three := false; threeGLTFLoader := false |} 0
              [CallLoadModel "m" defaults; CallLoadWorld "w" defaults;
               Settles 0 (Ok not_ready)]
              (after [CallLoadModel "m" defaults; CallLoadWorld "w" defaults;
                      Settles 0 (Ok not_ready)]
                 (init {| three := false; threeGLTFLoader := false |} 0)))
    as (_ & Hm & _ & _ & Hc & _); [reflexivity|vm_compute; reflexivity|].
  split; [exact Hm|exact Hc].
Defined.

End WithoutThree.

(** ** The defaults of the splat viewer *)

Section Defaults.

(** X21: once the GaussianSplats3D module is there (a truthy value), building the
    viewer defaults cannot throw, whatever the module looks like: the three
    fixed settings are always in, and logLevel and sceneRevealMode are in
    exactly when the module has the enum. *)
Theorem viewerDefaults_total (GS3D : jsval) :
  truthy GS3D = true →
  ∃ d, viewerDefaults GS3D = Ok d
    ∧ d !! "gpuAcceleratedSort" = Some (JBool true)
    ∧ d !! "sharedMemoryForWorkers" = Some (JBool true)
    ∧ d !! "sphericalHarmonicsDegree" = Some (JNum 0)
    ∧ (is_Some (d !! "logLevel")
       ↔ ∃ level, get GS3D "LogLevel" = Ok level ∧ truthy level = true)
    ∧ (is_Some (d !! "sceneRevealMode")
       ↔ ∃ mode, get GS3D "SceneRevealMode" = Ok mode ∧ truthy mode = true).
Proof.
  intros Ht. unfold viewerDefaults.
  assert (Hget : ∀ k, ∃ v, get GS3D k = Ok v) by (intros k; destruct GS3D; by eauto).
  assert (Hsub : ∀ v k, truthy v = true → ∃ x, get v k = Ok x)
    by (intros v k Hv; destruct v; by eauto).
  destruct (Hget "LogLevel") as [level Hlevel].
  destruct (Hget "SceneRevealMode") as [mode Hmode].
  rewrite Hlevel. cbn [bind].
  destruct (truthy level) eqn:Hl; destruct (truthy mode) eqn:Hm.
  - destruct (Hsub level "None" Hl) as [none ->].
    destruct (Hsub mode "Gradual" Hm) as [gradual Hg].
    cbn [bind]. rewrite Hmode. cbn [bind]. rewrite Hm, Hg. cbn [bind].
    eexists; split; [done|]. repeat split; try done; eauto.
  - destruct (Hsub level "None" Hl) as [none ->].
    cbn [bind]. rewrite Hmode. cbn [bind]. rewrite Hm.
    eexists; split; [done|]. repeat split; try done; eauto.
    + by intros [? ?].
    + intros (? & ? & ?). congruence.
  - destruct (Hsub mode "Gradual" Hm) as [gradual Hg].
    cbn [bind]. rewrite Hmode. cbn [bind]. rewrite Hm, Hg. cbn [bind].
    eexists; split; [done|]. repeat split; try done; eauto.
    + by intros [? ?].
    + intros (? & ? & ?). congruence.
  - cbn [bind]. rewrite Hmode. cbn [bind]. rewrite Hm.
    eexists; split; [done|]. repeat split; try done.
    + by intros [? ?].
    + intros (? & ? & ?). congruence.
    + by intros [? ?].
    + intros (? & ? & ?). congruence.
Qed.

Lemma viewerDefaults_total_witness :
  truthy (JObj {["LogLevel" := JObj {["None" := JNum 0]}]}) = true
  ∧ ∃ d, viewerDefaults (JObj {["LogLevel" := JObj {["None" := JNum 0]}]}) = Ok d
         ∧ d !! "sharedMemoryForWorkers" = Some (JBool true).
Proof.
  split; [reflexivity|].
  destruct (viewerDefaults_total (JObj {["LogLevel" := JObj {["None" := JNum 0]}]}) eq_refl)
    as (d & Hd & _ & Hs & _).
  exists d. split; [exact Hd|exact Hs].
Defined.

End Defaults.
